(** * Knowledge-base card synchronisation: a model of [kb_agent/tools.py]

    The development embeds the synchronisation and quality-assurance core of
    the knowledge-base agent ([src/kb_agent/tools.py], [src/kb_agent/cards.py])
    and proves the properties its specification states about it.

    Layout:
    - Part I    Python strings (sequences of Unicode code points)
    - Part II   Python values, dictionaries, the evidence sanitizer
    - Part III  paths and the file system
    - Part IV   coverage analysis
    - Part V    the card synthesis pipeline and the corpus-wide sync
    - Part V-b  the other tools and the parser loop
    - Part VI   the vocabulary of the statements
    - Part VII  concrete inputs
    - Part VIII lemmas and theorems; Part VIII-b further properties
    - Part IX   the model run on concrete inputs *)

From Stdlib Require Import ZArith NArith List String Ascii Bool Lia.
From stdpp Require Import gmap strings list sorting.

Local Open Scope N_scope.
Set Warnings "-clear-no-such-hyp".

(* ===================================================================== *)
(** * Part I. Python strings *)
(* ===================================================================== *)

(** A Python [str] is a sequence of code points. *)
Abbreviation ustr := (list N).

(** ** UTF-8: [bytes.decode("utf-8")], strict.  [None] is
    [UnicodeDecodeError]. *)

Definition utf8_cont (b : N) : option N :=
  if (128 <=? b) && (b <? 192) then Some (b - 128) else None.

Fixpoint utf8_decode (bs : list N) : option ustr :=
  match bs with
  | [] => Some []
  | b0 :: r0 =>
      if b0 <? 128 then cons b0 <$> utf8_decode r0
      else if (194 <=? b0) && (b0 <? 224) then
        match r0 with
        | b1 :: r1 =>
            match utf8_cont b1 with
            | Some c1 => cons ((b0 - 192) * 64 + c1) <$> utf8_decode r1
            | None => None
            end
        | _ => None
        end
      else if (224 <=? b0) && (b0 <? 240) then
        match r0 with
        | b1 :: b2 :: r2 =>
            match utf8_cont b1, utf8_cont b2 with
            | Some c1, Some c2 =>
                let cp := (b0 - 224) * 4096 + c1 * 64 + c2 in
                if (2048 <=? cp) && negb ((55296 <=? cp) && (cp <? 57344))
                then cons cp <$> utf8_decode r2 else None
            | _, _ => None
            end
        | _ => None
        end
      else if (240 <=? b0) && (b0 <? 245) then
        match r0 with
        | b1 :: b2 :: b3 :: r3 =>
            match utf8_cont b1, utf8_cont b2, utf8_cont b3 with
            | Some c1, Some c2, Some c3 =>
                let cp := (b0 - 240) * 262144 + c1 * 4096 + c2 * 64 + c3 in
                if (65536 <=? cp) && (cp <? 1114112)
                then cons cp <$> utf8_decode r3 else None
            | _, _, _ => None
            end
        | _ => None
        end
      else None
  end.

(** The bytes of a file or of a source literal. *)
Definition bytes_of (s : string) : list N :=
  map N_of_ascii (list_ascii_of_string s).

(** A string literal of the source, read as the UTF-8 text it is. *)
Definition u (s : string) : ustr := default [] (utf8_decode (bytes_of s)).

(** ** Whitespace: [str.isspace] on one code point
    (CPython's [_PyUnicode_IsWhitespace]). *)
Definition is_space (c : N) : bool :=
  ((9 <=? c) && (c <=? 13)) || ((28 <=? c) && (c <=? 32))
  || (c =? 133) || (c =? 160) || (c =? 5760)
  || ((8192 <=? c) && (c <=? 8202))
  || (c =? 8232) || (c =? 8233) || (c =? 8239) || (c =? 8287) || (c =? 12288).

(** [s.lstrip()], [s.rstrip()], [s.strip()] *)
Fixpoint lstrip (s : ustr) : ustr :=
  match s with
  | c :: s' => if is_space c then lstrip s' else s
  | [] => []
  end.

Definition rstrip (s : ustr) : ustr := rev (lstrip (rev s)).

Definition strip (s : ustr) : ustr := rstrip (lstrip s).

(** [s.rstrip(chars)] for a one-character [chars] *)
Fixpoint lstrip_char (ch : N) (s : ustr) : ustr :=
  match s with
  | c :: s' => if c =? ch then lstrip_char ch s' else s
  | [] => []
  end.

Definition rstrip_char (ch : N) (s : ustr) : ustr := rev (lstrip_char ch (rev s)).

(** [s.split()]: the maximal runs of non-whitespace, in order.  [w] is the
    word being read, most recent character first. *)
Fixpoint split_go (w : ustr) (s : ustr) : list ustr :=
  match s with
  | [] => match w with [] => [] | _ => [rev w] end
  | c :: s' =>
      if is_space c
      then match w with [] => split_go [] s' | _ => rev w :: split_go [] s' end
      else split_go (c :: w) s'
  end.

Definition split_ws (s : ustr) : list ustr := split_go [] s.

(** [sep.join(parts)] *)
Fixpoint join (sep : ustr) (parts : list ustr) : ustr :=
  match parts with
  | [] => []
  | [p] => p
  | p :: ps => p ++ sep ++ join sep ps
  end.

(** [s.startswith(p)] *)
Fixpoint startswith (s p : ustr) {struct p} : bool :=
  match p, s with
  | [], _ => true
  | a :: p', b :: s' => (a =? b) && startswith s' p'
  | _ :: _, [] => false
  end.

(** [p in s] for strings *)
Fixpoint str_in (p s : ustr) : bool :=
  startswith s p || match s with [] => false | _ :: s' => str_in p s' end.

(** [s.rfind(p)]: the remainder of [s] after the last occurrence of [p]
    ([None] when [rfind] returns -1), which is all its callers use:
    [s[s.rfind(p) + len(p):]]. *)
Fixpoint after_last (p s : ustr) : option ustr :=
  match s with
  | [] => if startswith [] p then Some [] else None
  | _ :: s' =>
      match after_last p s' with
      | Some t => Some t
      | None => if startswith s p then Some (drop (length p) s) else None
      end
  end.

(** [s.split(sep)] for a one-character separator *)
Fixpoint split_on_go (sep : N) (w : ustr) (s : ustr) : list ustr :=
  match s with
  | [] => [rev w]
  | c :: s' => if c =? sep then rev w :: split_on_go sep [] s' else split_on_go sep (c :: w) s'
  end.

Definition split_on (sep : N) (s : ustr) : list ustr := split_on_go sep [] s.

(** [s.splitlines()]: line boundaries are \n, \r, \r\n, \v, \f, \x1c, \x1d,
    \x1e, \x85, U+2028 and U+2029; a final boundary adds no empty line. *)
Definition is_linebreak (c : N) : bool :=
  ((10 <=? c) && (c <=? 13)) || ((28 <=? c) && (c <=? 30))
  || (c =? 133) || (c =? 8232) || (c =? 8233).

Fixpoint splitlines_go (w : ustr) (s : ustr) : list ustr :=
  match s with
  | [] => match w with [] => [] | _ => [rev w] end
  | c :: s' =>
      if is_linebreak c then
        rev w :: match c, s' with
                 | 13, 10 :: s'' => splitlines_go [] s''
                 | _, _ => splitlines_go [] s'
                 end
      else splitlines_go (c :: w) s'
  end.

Definition splitlines (s : ustr) : list ustr := splitlines_go [] s.

(** [str(n)] for an [int] *)
Fixpoint digits_go (fuel : nat) (n : N) (acc : ustr) : ustr :=
  match fuel with
  | O => acc
  | S fuel' =>
      let acc' := (48 + n mod 10) :: acc in
      if n <? 10 then acc' else digits_go fuel' (n / 10) acc'
  end.

Definition str_of_N (n : N) : ustr := digits_go (S (N.to_nat (N.log2 n))) n [].

Definition str_of_Z (z : Z) : ustr :=
  if (z <? 0)%Z then 45 :: str_of_N (Z.to_N (- z)) else str_of_N (Z.to_N z).

(** The universal-newlines translation of a file opened in text mode:
    \r\n and a lone \r become \n. *)
Fixpoint universal_newlines (s : ustr) : ustr :=
  match s with
  | [] => []
  | 13 :: s' =>
      10 :: match s' with
            | 10 :: s'' => universal_newlines s''
            | _ => universal_newlines s'
            end
  | c :: s' => c :: universal_newlines s'
  end.

(* ===================================================================== *)
(** * Part II. Python values and the evidence sanitizer *)
(* ===================================================================== *)

(** The values a validation report is made of ([dict[str, Any]] as JSON
    gives them): [None], booleans, integers, strings, lists and
    dictionaries with string keys. *)
#[warnings="-register-all"]
Inductive pyval : Type :=
| PNone
| PBool (b : bool)
| PInt (n : Z)
| PStr (s : ustr)
| PList (l : list pyval)
| PDict (d : gmap ustr pyval).

(** What the program takes from the Python runtime and its libraries without
    defining it: [repr] of a container (which [str] of a list or dict is),
    [str.lower], the SHA-256 hex digest of a byte string, and the match of a
    file name against a glob pattern ([Path.glob] on one directory level). *)
Class Runtime := {
  py_repr : pyval -> ustr;
  str_lower : ustr -> ustr;
  sha256_hexdigest : list N -> ustr;
  glob_match : ustr -> ustr -> bool;
}.

(** [bool(v)] *)
Definition py_truthy (v : pyval) : bool :=
  match v with
  | PNone => false
  | PBool b => b
  | PInt n => negb (n =? 0)%Z
  | PStr s => match s with [] => false | _ => true end
  | PList l => match l with [] => false | _ => true end
  | PDict d => match map_to_list d with [] => false | _ => true end
  end.

(** [a or b] *)
Definition py_or (a b : pyval) : pyval := if py_truthy a then a else b.

(** [isinstance(v, list)], [isinstance(v, dict)] *)
Definition is_list (v : pyval) : bool := match v with PList _ => true | _ => false end.
Definition is_dict (v : pyval) : bool := match v with PDict _ => true | _ => false end.

Definition s_None : ustr := Eval vm_compute in u "None".
Definition s_True : ustr := Eval vm_compute in u "True".
Definition s_False : ustr := Eval vm_compute in u "False".

(** [str(v)] *)
Definition py_str `{Runtime} (v : pyval) : ustr :=
  match v with
  | PNone => s_None
  | PBool true => s_True
  | PBool false => s_False
  | PInt n => str_of_Z n
  | PStr s => s
  | PList _ | PDict _ => py_repr v
  end.

(** [d.get(k, dflt)]; [d.get(k)] is [dict_get d k PNone]. *)
Definition dict_get (d : gmap ustr pyval) (k : ustr) (dflt : pyval) : pyval :=
  default dflt (d !! k).

(** The keys of a validation report and of its [missing] items. *)
Definition k_ok : ustr := Eval vm_compute in u "ok".
Definition k_missing : ustr := Eval vm_compute in u "missing".
Definition k_suggested_card_titles : ustr := Eval vm_compute in u "suggested_card_titles".
Definition k_missing_sanitized_removed : ustr := Eval vm_compute in u "missing_sanitized_removed".
Definition k_ok_sanitized_overridden : ustr := Eval vm_compute in u "ok_sanitized_overridden".
Definition k_what : ustr := Eval vm_compute in u "what".
Definition k_evidence : ustr := Eval vm_compute in u "evidence".

Definition s_space : ustr := [32].

(** [_normalize_ws]: [" ".join((s or "").split())] *)
Definition _normalize_ws (s : ustr) : ustr := join s_space (split_ws s).

Section Sanitizer.
Context `{Runtime}.

(** The test of one structured item in [_sanitize_judge_meta]:
    [ev = str(item.get("evidence", "") or "").strip()] and then
    [ev and _normalize_ws(ev) in doc_norm]. *)
Definition evidence_ok (doc_norm : ustr) (item : gmap ustr pyval) : bool :=
  let ev := strip (py_str (py_or (dict_get item k_evidence (PStr [])) (PStr []))) in
  py_truthy (PStr ev) && str_in (_normalize_ws ev) doc_norm.

(** One iteration of the loop over [missing_in]; the state is
    [(kept, removed_count)]. *)
Definition sanitize_step (doc_norm : ustr) (st : list pyval * Z) (item : pyval)
  : list pyval * Z :=
  let '(kept, removed_count) := st in
  match item with
  | PDict d =>
      if evidence_ok doc_norm d then (kept ++ [item], removed_count)
      else (kept, (removed_count + 1)%Z)
  | _ => (kept ++ [item], removed_count)
  end.

(** The report returned for a [judge_meta] that is not a dict. *)
Definition not_a_dict_report : gmap ustr pyval :=
  <[k_suggested_card_titles := PList []]>
    (<[k_missing := PList [PStr (u "judge_meta_not_a_dict")]]>
       (<[k_ok := PBool false]> ∅)).

(** [_sanitize_judge_meta(doc_text=..., judge_meta=...)] *)
Definition _sanitize_judge_meta (doc_text : ustr) (judge_meta : pyval)
  : gmap ustr pyval :=
  match judge_meta with
  | PDict jm =>
      let missing_in :=
        match py_or (dict_get jm k_missing PNone) (PList []) with
        | PList l => l
        | _ => []
        end in
      let doc_norm := _normalize_ws doc_text in
      let '(kept, removed_count) :=
        fold_left (sanitize_step doc_norm) missing_in ([], 0%Z) in
      let out := <[k_missing := PList kept]> jm in
      let out :=
        if negb (removed_count =? 0)%Z
        then <[k_missing_sanitized_removed := PInt removed_count]> out
        else out in
      let ok_val := py_truthy (dict_get out k_ok (PBool false)) in
      if negb ok_val && negb (py_truthy (PList kept))
         && is_list (dict_get jm k_missing PNone)
      then <[k_ok_sanitized_overridden := PBool true]> (<[k_ok := PBool true]> out)
      else out
  | _ => not_a_dict_report
  end.

End Sanitizer.

(* ===================================================================== *)
(** * Part III. Exceptions, paths and the file system *)
(* ===================================================================== *)

(** A raised exception: [type(e).__name__] and [str(e)]. *)
Inductive PyExc : Type := Exc (kind : ustr) (msg : ustr).

Definition exc_kind (e : PyExc) : ustr := let 'Exc k _ := e in k.
Definition exc_msg (e : PyExc) : ustr := let 'Exc _ m := e in m.

(** The outcome of a call: a value, or an exception that left it. *)
Inductive Result (A : Type) : Type :=
| Ok (a : A)
| Raise (e : PyExc).
Arguments Ok {A} a.
Arguments Raise {A} e.

Definition is_ok {A} (r : Result A) : bool :=
  match r with Ok _ => true | Raise _ => false end.

(** ** [pathlib.PurePosixPath]

    A path is its parts, and whether it starts at the root.  The parts of a
    path hold no empty and no [.] component; [..] stays until [resolve].
    (A path written with exactly two leading slashes keeps both in Python;
    here it starts at the root like any other absolute path.) *)
Record Path : Type := mkPath { anchored : bool; parts : list ustr }.

Definition s_dot : ustr := [46].
Definition s_dotdot : ustr := [46; 46].
Definition c_slash : N := 47.
Definition c_dot : N := 46.

Definition ustr_eqb (a b : ustr) : bool := bool_decide (a = b).

(** [Path(s)] *)
Definition path_of_str (s : ustr) : Path :=
  {| anchored := startswith s [c_slash];
     parts := List.filter (fun c => negb (ustr_eqb c []) && negb (ustr_eqb c s_dot))
                (split_on c_slash s) |}.

(** [a / b] *)
Definition joinpath (a b : Path) : Path :=
  if anchored b then b
  else {| anchored := anchored a; parts := parts a ++ parts b |}.

(** [str(p)], which is also [p.as_posix()] *)
Definition path_str (p : Path) : ustr :=
  match anchored p, parts p with
  | false, [] => s_dot
  | false, ps => join [c_slash] ps
  | true, ps => c_slash :: join [c_slash] ps
  end.

(** The parts of an absolute path with every [..] taken: the file system of
    the model has no symbolic links, and [..] at the root stays there. *)
Definition resolve_step (acc : list ustr) (c : ustr) : list ustr :=
  if ustr_eqb c s_dotdot then removelast acc else acc ++ [c].

Definition resolve_parts (ps : list ustr) : list ustr :=
  fold_left resolve_step ps [].

(** [p.resolve()] in the working directory [cwd] (itself resolved) *)
Definition resolve (cwd : list ustr) (p : Path) : Path :=
  {| anchored := true;
     parts := resolve_parts (if anchored p then parts p else cwd ++ parts p) |}.

(** [p.name] *)
Definition path_name (p : Path) : ustr := List.last (parts p) [].

(** The position of the last [.] of a name that splits it into stem and
    suffix: [i = name.rfind(".")] when [0 < i < len(name) - 1]. *)
Fixpoint rfind_char (ch : N) (s : ustr) : option nat :=
  match s with
  | [] => None
  | c :: s' =>
      match rfind_char ch s' with
      | Some i => Some (S i)
      | None => if c =? ch then Some O else None
      end
  end.

Definition suffix_index (name : ustr) : option nat :=
  match rfind_char c_dot name with
  | Some i => if (0 <? i)%nat && (i <? length name - 1)%nat then Some i else None
  | None => None
  end.

(** [p.stem] and [p.suffix] *)
Definition path_stem (p : Path) : ustr :=
  let name := path_name p in
  match suffix_index name with Some i => take i name | None => name end.

Definition path_suffix (p : Path) : ustr :=
  let name := path_name p in
  match suffix_index name with Some i => drop i name | None => [] end.

(** [p.relative_to(base)]: [None] is the [ValueError] it raises when [base]
    is not a leading run of the parts of [p]. *)
Fixpoint strip_parts (base ps : list ustr) : option (list ustr) :=
  match base, ps with
  | [], _ => Some ps
  | b :: base', c :: ps' => if ustr_eqb b c then strip_parts base' ps' else None
  | _ :: _, [] => None
  end.

Definition relative_to (p base : Path) : option Path :=
  if bool_decide (anchored p = anchored base) then
    mkPath false <$> strip_parts (parts base) (parts p)
  else None.

(** The order of paths ([sorted] compares the parts, strings by code
    point). *)
Fixpoint ustr_leb (a b : ustr) : bool :=
  match a, b with
  | [], _ => true
  | _ :: _, [] => false
  | x :: a', y :: b' => (x <? y) || ((x =? y) && ustr_leb a' b')
  end.

Fixpoint parts_leb (a b : list ustr) : bool :=
  match a, b with
  | [], _ => true
  | _ :: _, [] => false
  | x :: a', y :: b' =>
      if ustr_eqb x y then parts_leb a' b' else ustr_leb x y
  end.

(** ** Configuration and context ([config.py], [tools.py]) *)

Record KBPaths : Type := {
  root : Path;
  origins_dir : Path;
  cards_dir : Path;
  cards_md_dir : Path;
}.

(** A card as the generator returns it ([CardDraft.model_dump()]) and as the
    pipeline builds its placeholder: a dict with exactly these five keys, of
    these types. *)
Record CardDraft : Type := {
  title : ustr;
  description : ustr;
  content_md : ustr;
  key_terms : list ustr;
  entities : list ustr;
}.

(** [JudgeResult] and its [MissingItem] *)
Record MissingItem : Type := { what : ustr; evidence : ustr }.

Record JudgeResult : Type := {
  ok : bool;
  missing : list MissingItem;
  suggested_card_titles : list ustr;
}.

(** What a prompt is built from.  [_writer_prompt] and [_judge_prompt]
    interpolate these values into a fixed text; the model keeps the values.
    [wp_guidance] and [wp_existing_cards] are [None] when the prompt leaves
    the paragraph out. *)
Record WriterPrompt : Type := {
  wp_role : ustr;
  wp_origin : ustr;
  wp_doc : ustr;
  wp_guidance : option ustr;
  wp_existing_cards : option (list CardDraft);
}.

Record JudgePrompt : Type := {
  jp_origin : ustr;
  jp_doc : ustr;
  jp_cards : list CardDraft;
}.

(** One round trip to the language model: a call of [_llm_parse_pydantic]
    (up to three invocations of the chat model, parsed by pydantic) for a
    [WriterResult] or for a [JudgeResult]. *)
Inductive Call : Type :=
| CallWriter (p : WriterPrompt)
| CallJudge (p : JudgePrompt).

(** [ToolContext].  The chat model is a service with a state of its own:
    its answer to a call is a function of the prompt and of the calls made
    before.  It returns the parsed result or raises.  ([request_delay_s]
    only makes the process sleep and is left out.) *)
Record ToolContext : Type := {
  kb : KBPaths;
  llm_writer : list Call -> WriterPrompt -> Result (list CardDraft);
  llm_judge : list Call -> JudgePrompt -> Result JudgeResult;
  role : ustr;
}.

(** ** The file system *)

(** A regular file: its bytes, or the exception that opening it raises (a
    file the process may not read). *)
Inductive FileNode : Type :=
| FileBytes (b : string)
| FileError (e : PyExc).

(** An entry of the card directory: the text it holds (or the exception that
    reading it raises: a directory, bytes that are not UTF-8), and whether
    [unlink] raises on it. *)
Record CardNode : Type := {
  card_content : Result ustr;
  unlink_fails : bool;
}.

(** The state outside the program: the working directory, the files by
    absolute path, the entries of [cards_md_dir] by name, and the calls made
    to the language model so far, oldest first.  Writing a card file always
    succeeds in this model. *)
Record World : Type := {
  cwd : list ustr;
  files : gmap (list ustr) FileNode;
  cards_md : gmap ustr CardNode;
  calls : list Call;
}.

Definition set_cards_md (w : World) (c : gmap ustr CardNode) : World :=
  {| cwd := cwd w; files := files w; cards_md := c; calls := calls w |}.

Definition log_call (w : World) (c : Call) : World :=
  {| cwd := cwd w; files := files w; cards_md := cards_md w; calls := calls w ++ [c] |}.

(** A computation that reads and changes the world and may raise. *)
Definition M (A : Type) : Type := World -> Result A * World.

Definition ret {A} (a : A) : M A := fun w => (Ok a, w).
Definition raise {A} (e : PyExc) : M A := fun w => (Raise e, w).
Definition bind {A B} (m : M A) (k : A -> M B) : M B :=
  fun w => match m w with
           | (Ok a, w') => k a w'
           | (Raise e, w') => (Raise e, w')
           end.
(** [try: m  except Exception as e: h e] *)
Definition try_except {A} (m : M A) (h : PyExc -> M A) : M A :=
  fun w => match m w with
           | (Ok a, w') => (Ok a, w')
           | (Raise e, w') => h e w'
           end.

Notation "'do' x <- m ; k" := (bind m (fun x => k))
  (at level 10, x name, m at level 100, k at level 200).
Notation "'do' ' p <- m ; k" := (bind m (fun x => let p := x in k))
  (at level 10, p pattern, m at level 100, k at level 200).

Definition s_ValueError : ustr := Eval vm_compute in u "ValueError".
Definition s_UnicodeDecodeError : ustr := Eval vm_compute in u "UnicodeDecodeError".
Definition s_FileNotFoundError : ustr := Eval vm_compute in u "FileNotFoundError".
Definition s_IndexError : ustr := Eval vm_compute in u "IndexError".

(** [path.read_text(encoding="utf-8")] on a file of the corpus.  (The
    messages of the exceptions the runtime raises are not modelled.) *)
Definition decode_text (b : string) : Result ustr :=
  match utf8_decode (bytes_of b) with
  | Some t => Ok (universal_newlines t)
  | None => Raise (Exc s_UnicodeDecodeError [])
  end.

Definition read_text (p : Path) : M ustr :=
  fun w => match files w !! parts p with
           | Some (FileBytes b) => (decode_text b, w)
           | Some (FileError e) => (Raise e, w)
           | None => (Raise (Exc s_FileNotFoundError []), w)
           end.

Section FileSystem.
Context `{Runtime}.

(** [file_sha256(path)] ([cards.py]) *)
Definition file_sha256 (p : Path) : M ustr :=
  fun w => match files w !! parts p with
           | Some (FileBytes b) => (Ok (sha256_hexdigest (bytes_of b)), w)
           | Some (FileError e) => (Raise e, w)
           | None => (Raise (Exc s_FileNotFoundError []), w)
           end.

(** [_resolve_origin] *)
Definition _resolve_origin (ctx : ToolContext) (rel_path : ustr) : M Path :=
  fun w =>
    let p := resolve (cwd w) (joinpath (origins_dir (kb ctx)) (path_of_str rel_path)) in
    if negb (startswith (path_str p) (path_str (resolve (cwd w) (origins_dir (kb ctx)))))
    then (Raise (Exc s_ValueError (u "Path escapes origins_dir")), w)
    else (Ok p, w).

(** [_origin_rel] *)
Definition _origin_rel (ctx : ToolContext) (path : Path) : M ustr :=
  fun w =>
    match relative_to (resolve (cwd w) path) (resolve (cwd w) (origins_dir (kb ctx))) with
    | Some r => (Ok (path_str r), w)
    | None => (Raise (Exc s_ValueError []), w)
    end.

Definition exts : list ustr :=
  Eval vm_compute in [u ".md"; u ".yml"; u ".yaml"].

(** [_list_markdown_files]: the files below [origins_dir] with one of the
    three suffixes, sorted. *)
Definition _list_markdown_files (ctx : ToolContext) (w : World) : list Path :=
  let base := parts (resolve (cwd w) (origins_dir (kb ctx))) in
  let below (ps : list ustr) : bool :=
    match strip_parts base ps with Some (_ :: _) => true | _ => false end in
  let wanted (ps : list ustr) : bool :=
    below ps && bool_decide (str_lower (path_suffix (mkPath true ps)) ∈ exts) in
  map (mkPath true)
    (merge_sort (fun a b => Is_true (parts_leb a b))
       (List.filter wanted (map fst (map_to_list (files w))))).

(** [ctx.kb.cards_md_dir.glob(pattern)]: the entries of the card directory
    whose name matches, in the order the directory gives them. *)
Definition glob_cards (w : World) (pattern : ustr) : list (ustr * CardNode) :=
  List.filter (fun e => glob_match (fst e) pattern) (map_to_list (cards_md w)).

(** The pattern [f"card_*_{stem}.md"] *)
Definition card_pattern (stem : ustr) : ustr :=
  (u "card_*_") ++ stem ++ (u ".md").

End FileSystem.

(** [for x in xs: results.append(f(x))] *)
Fixpoint for_each {A B} (f : A -> M B) (xs : list A) : M (list B) :=
  match xs with
  | [] => ret []
  | x :: xs' => do y <- f x; do ys <- for_each f xs'; ret (y :: ys)
  end.

(** [for x in xs: acc = f(acc, x)] *)
Fixpoint for_fold {A S} (f : S -> A -> M S) (acc : S) (xs : list A) : M S :=
  match xs with
  | [] => ret acc
  | x :: xs' => do acc' <- f acc x; for_fold f acc' xs'
  end.

(* ===================================================================== *)
(** * Part IV. Coverage analysis *)
(* ===================================================================== *)

Definition s_marker_sha : ustr := Eval vm_compute in u "source_sha256:".
Definition s_colon_space : ustr := Eval vm_compute in u ": ".

(** [_extract_sha_from_md_card]: the token after the last
    ["source_sha256:"], when it has 32 characters or more.  [tail.split()[0]]
    raises [IndexError] when nothing but blanks follows the marker. *)
Definition _extract_sha_from_md_card (text : ustr) : Result (option ustr) :=
  match after_last s_marker_sha text with
  | None => Ok None
  | Some rest =>
      let tail := strip rest in
      match split_ws tail with
      | [] => Raise (Exc s_IndexError (u "list index out of range"))
      | tok :: _ =>
          let sha := strip tok in
          if (32 <=? length sha)%nat then Ok (Some sha) else Ok None
      end
  end.

(** [cf.read_text(encoding="utf-8")] on an entry of the card directory *)
Definition read_card (node : CardNode) : Result ustr :=
  match card_content node with
  | Ok t => Ok (universal_newlines t)
  | Raise e => Raise e
  end.

(** The body of the [try] in the scan of one card file: the fingerprint it
    records, or what reading or parsing it raised. *)
Definition card_sha (node : CardNode) : Result (option ustr) :=
  match read_card node with
  | Ok txt => _extract_sha_from_md_card txt
  | Raise e => Raise e
  end.

(** [not sha or sha != current_hash] *)
Definition sha_mismatch (sha : option ustr) (current_hash : ustr) : bool :=
  match sha with
  | None => true
  | Some s => negb (py_truthy (PStr s)) || negb (ustr_eqb s current_hash)
  end.

(** The line recorded for a card file whose scan raised:
    [f"{rel}: {cf.name}: {type(e).__name__}: {e}"] *)
Definition invalid_entry (rel name : ustr) (e : PyExc) : ustr :=
  rel ++ s_colon_space ++ name ++ s_colon_space ++ exc_kind e
      ++ s_colon_space ++ exc_msg e.

(** The inner loop over [card_files]: [bad], and the entries added to
    [invalid].  The loop stops at the first bad file. *)
Fixpoint scan_cards (rel current_hash : ustr) (card_files : list (ustr * CardNode))
  : bool * list ustr :=
  match card_files with
  | [] => (false, [])
  | (name, node) :: rest =>
      match card_sha node with
      | Ok sha =>
          if sha_mismatch sha current_hash then (true, [])
          else scan_cards rel current_hash rest
      | Raise e => (true, [invalid_entry rel name e])
      end
  end.

(** The three lists of the coverage report. *)
Record Coverage : Type := {
  missing_cards_for_origins : list ustr;
  stale_cards_for_origins : list ustr;
  invalid_card_md_files : list ustr;
}.

Record CoverageReport : Type := {
  origins_total : nat;
  coverage : Coverage;
}.

Definition no_coverage : Coverage :=
  {| missing_cards_for_origins := []; stale_cards_for_origins := [];
     invalid_card_md_files := [] |}.

Section CoverageAnalysis.
Context `{Runtime}.

(** The card files of a document: [glob(f"card_*_{stem}.md")] for the stem
    of its relative path. *)
Definition cards_of (w : World) (rel : ustr) : list (ustr * CardNode) :=
  glob_cards w (card_pattern (path_stem (path_of_str rel))).

(** The body of the loop over [md_files] in [kb_analyze_coverage]. *)
Definition coverage_doc (ctx : ToolContext) (include_stale : bool)
    (acc : Coverage) (md : Path) : M Coverage :=
  do rel <- _origin_rel ctx md;
  fun w =>
    let card_files := cards_of w rel in
    match card_files with
    | [] =>
        ret {| missing_cards_for_origins := missing_cards_for_origins acc ++ [rel];
               stale_cards_for_origins := stale_cards_for_origins acc;
               invalid_card_md_files := invalid_card_md_files acc |} w
    | _ :: _ =>
        if include_stale then
          (do current_hash <- file_sha256 md;
           let '(bad, inv) := scan_cards rel current_hash card_files in
           ret {| missing_cards_for_origins := missing_cards_for_origins acc;
                  stale_cards_for_origins :=
                    if bad then stale_cards_for_origins acc ++ [rel]
                    else stale_cards_for_origins acc;
                  invalid_card_md_files := invalid_card_md_files acc ++ inv |}) w
        else ret acc w
    end.

(** [kb_analyze_coverage] *)
Definition kb_analyze_coverage (ctx : ToolContext) (include_stale : bool)
  : M CoverageReport :=
  fun w =>
    let md_files := _list_markdown_files ctx w in
    (do cov <- for_fold (coverage_doc ctx include_stale) no_coverage md_files;
     ret {| origins_total := length md_files; coverage := cov |}) w.

End CoverageAnalysis.

(* ===================================================================== *)
(** * Part V. The card synthesis pipeline *)
(* ===================================================================== *)

(** [s.encode("utf-8")].  Strings hold Unicode scalar values, which always
    encode. *)
Definition utf8_encode_cp (c : N) : list N :=
  if c <? 128 then [c]
  else if c <? 2048 then [192 + c / 64; 128 + c mod 64]
  else if c <? 65536 then [224 + c / 4096; 128 + (c / 64) mod 64; 128 + c mod 64]
  else [240 + c / 262144; 128 + (c / 4096) mod 64; 128 + (c / 64) mod 64; 128 + c mod 64].

Definition utf8_encode (s : ustr) : list N := flat_map utf8_encode_cp s.

(** [extract_title] ([cards.py]): the first line that, stripped, starts
    with ["# "]. *)
Fixpoint first_h1 (lines : list ustr) : option ustr :=
  match lines with
  | [] => None
  | line :: rest =>
      let line := strip line in
      if startswith line [35; 32] then Some (strip (drop 2 line))
      else first_h1 rest
  end.

Definition extract_title (md_text fallback : ustr) : ustr :=
  default fallback (first_h1 (splitlines md_text)).

Definition _FALLBACK_MARKER : ustr :=
  Eval vm_compute in u "Краткое описание не сгенерировано".

Definition bad_phrases : list ustr :=
  Eval vm_compute in
    [ u "требует дополнительного пояснения";
      u "требуют дополнительного пояснения";
      u "необходимо подробнее описать";
      u "нужно подробнее описать";
      u "представлены кратко и требуют";
      u "требует доработки";
      u "нуждается в доработке";
      u "недостаточно информации";
      u "требует дополнительного уточнения" ].

Definition s_retry_guidance : ustr :=
  Eval vm_compute in
    u "Предыдущая попытка содержала ошибку генерации. Верни корректные карточки.".

Definition s_lead_in : ustr := Eval vm_compute in u "Документ содержит информацию о".
Definition s_lead_in_lower : ustr := Eval vm_compute in u "документ содержит информацию о".

Definition s_placeholder_description : ustr :=
  Eval vm_compute in u "Документ содержит информацию о (ошибка генерации карточек).".
Definition s_placeholder_content : ustr :=
  Eval vm_compute in u "Краткое описание не сгенерировано (ошибка формата/сети).".
Definition s_generation_failed : ustr :=
  Eval vm_compute in u "Ошибка генерации/парсинга/сети".
Definition s_judge_parse_error : ustr := Eval vm_compute in u "judge_parse_error: ".

Definition s_not_covered : ustr :=
  Eval vm_compute in u "Не покрыто (с цитатами из оригинала):
- ".
Definition s_quote : ustr := Eval vm_compute in u "
  цитата: ".
Definition s_item_sep : ustr := Eval vm_compute in u "
- ".
Definition s_nl : ustr := [10].
Definition s_to_add : ustr :=
  Eval vm_compute in u "Нужно добавить/исправить (заголовки):
- ".
Definition s_refine_tail : ustr :=
  Eval vm_compute in u "
Сделай правки, опираясь ТОЛЬКО на оригинальный документ. Если какого-то 'missing' нет в документе — НЕ добавляй это.".
Definition s_part : ustr := Eval vm_compute in u " — часть ".
Definition s_card_ : ustr := Eval vm_compute in u "card_".
Definition s_underscore : ustr := [95].
Definition s_md : ustr := Eval vm_compute in u ".md".
Definition s_colon : ustr := [58].
Definition s_wrap_open : ustr := Eval vm_compute in u "-- ".
Definition s_wrap_close : ustr := Eval vm_compute in u " --

".
Definition s_nlnl : ustr := [10; 10].
Definition s_footer_source : ustr := Eval vm_compute in u "<!-- source: ".
Definition s_footer_sha : ustr := Eval vm_compute in u " source_sha256: ".
Definition s_footer_close : ustr := Eval vm_compute in u " -->
".
Definition s_slash : ustr := [47].

(** The quality report of one synthesis: the dict [quality] with its keys
    ["judge"], ["refinement_applied"] and ["refinement_error"]; [None] is an
    absent key. *)
Record Quality : Type := {
  judge : gmap ustr pyval;
  refinement_applied : option bool;
  refinement_error : option ustr;
}.

(** The dict [kb_upsert_cards_for_markdown] returns. *)
Record UpsertResult : Type := {
  up_ok : bool;
  up_skipped : bool;
  up_origin : ustr;
  cards_md_count : nat;
  cards_md_files : list ustr;
  quality : Quality;
}.

(** The dict [kb_sync_all] returns. *)
Record SyncResult : Type := {
  sync_ok : bool;
  processed : nat;
  results : list UpsertResult;
}.

(** [JudgeResult.model_dump()] *)
Definition dump_missing_item (m : MissingItem) : pyval :=
  PDict (<[k_what := PStr (what m)]> (<[k_evidence := PStr (evidence m)]> ∅)).

Definition dump_judge_result (j : JudgeResult) : pyval :=
  PDict (<[k_ok := PBool (ok j)]>
          (<[k_missing := PList (map dump_missing_item (missing j))]>
            (<[k_suggested_card_titles := PList (map PStr (suggested_card_titles j))]> ∅))).

(** The verdict [_judge_once] returns when the validator call raised. *)
Definition judge_error_report (e : PyExc) : pyval :=
  PDict (<[k_ok := PBool false]>
          (<[k_missing := PList [PStr (s_judge_parse_error ++ exc_kind e)]]>
            (<[k_suggested_card_titles := PList []]> ∅))).

(** The verdict of the placeholder branch. *)
Definition generation_failed_report : gmap ustr pyval :=
  <[k_ok := PBool false]>
    (<[k_missing := PList [PStr s_generation_failed]]>
      (<[k_suggested_card_titles := PList []]> ∅)).

(** The elements of a value the pipeline iterates over.  Both values it
    iterates over are lists: the sanitizer stores a list under ["missing"],
    and ["suggested_card_titles"] is a list in every verdict [_judge_once]
    returns. *)
Definition py_elements (v : pyval) : list pyval :=
  match v with PList l => l | _ => [] end.

Definition is_empty {A} (l : list A) : bool :=
  match l with [] => true | _ => false end.

Definition placeholder_card (doc_title : ustr) : CardDraft :=
  {| title := doc_title;
     description := s_placeholder_description;
     content_md := s_placeholder_content;
     key_terms := [];
     entities := [] |}.

Section Pipeline.
Context `{Runtime}.

(** [_cards_have_generation_error]: some card has the failure marker in its
    description or body, or one of [bad_phrases] in the lower-cased text of
    both. *)
Definition card_has_generation_error (c : CardDraft) : bool :=
  str_in _FALLBACK_MARKER (description c)
  || str_in _FALLBACK_MARKER (content_md c)
  || (let text := str_lower (description c ++ s_nl ++ content_md c) in
      existsb (fun p => str_in p text) bad_phrases).

Definition _cards_have_generation_error (cards : list CardDraft) : bool :=
  existsb card_has_generation_error cards.

(** [_writer_prompt]: a falsy [guidance] or [existing_cards_json] leaves its
    paragraph out. *)
Definition _writer_prompt (ctx : ToolContext) (origin_rel_path doc_text : ustr)
    (guidance : option ustr) (existing_cards_json : option (list CardDraft))
  : WriterPrompt :=
  {| wp_role := role ctx;
     wp_origin := origin_rel_path;
     wp_doc := take (N.to_nat 15000) doc_text;
     wp_guidance := match guidance with Some ((_ :: _) as g) => Some g | _ => None end;
     wp_existing_cards := existing_cards_json |}.

(** [_judge_prompt] *)
Definition _judge_prompt (origin_rel_path doc_text : ustr) (cards : list CardDraft)
  : JudgePrompt :=
  {| jp_origin := origin_rel_path; jp_doc := take (N.to_nat 15000) doc_text; jp_cards := cards |}.

(** [_llm_parse_pydantic(ctx, prompt=..., model=WriterResult)] and the same
    for [JudgeResult]: the call is logged, and the service answers from the
    calls made before it. *)
Definition llm_parse_writer (ctx : ToolContext) (p : WriterPrompt) : M (list CardDraft) :=
  fun w => (llm_writer ctx (calls w) p, log_call w (CallWriter p)).

Definition llm_parse_judge (ctx : ToolContext) (p : JudgePrompt) : M JudgeResult :=
  fun w => (llm_judge ctx (calls w) p, log_call w (CallJudge p)).

(** [_generate_cards_once] *)
Definition _generate_cards_once (ctx : ToolContext) (origin_rel_path doc_text : ustr)
    (guidance : option ustr) (existing_cards : option (list CardDraft))
  : M (list CardDraft) :=
  let existing_json :=
    match existing_cards with Some ((_ :: _) as cs) => Some cs | _ => None end in
  llm_parse_writer ctx
    (_writer_prompt ctx origin_rel_path doc_text guidance existing_json).

(** [_judge_once] *)
Definition _judge_once (ctx : ToolContext) (origin_rel_path doc_text : ustr)
    (cards : list CardDraft) : M pyval :=
  try_except
    (do judge_out <- llm_parse_judge ctx (_judge_prompt origin_rel_path doc_text cards);
     ret (dump_judge_result judge_out))
    (fun e => ret (judge_error_report e)).

(** What one [missing] item adds to [parts] in the refinement guidance. *)
Definition missing_part (item : pyval) : list ustr :=
  match item with
  | PDict d =>
      let what := strip (py_str (dict_get d k_what (PStr []))) in
      let ev := strip (py_str (dict_get d k_evidence (PStr []))) in
      if py_truthy (PStr what) && py_truthy (PStr ev) then [what ++ s_quote ++ ev]
      else if py_truthy (PStr what) then [what]
      else []
  | _ => [py_str item]
  end.

(** The guidance of the refinement call. *)
Definition refine_guidance (judge_meta : gmap ustr pyval) : ustr :=
  let missing := py_or (dict_get judge_meta k_missing PNone) (PList []) in
  let suggested := py_or (dict_get judge_meta k_suggested_card_titles PNone) (PList []) in
  (if py_truthy missing
   then s_not_covered ++ join s_item_sep (flat_map missing_part (py_elements missing)) ++ s_nl
   else [])
  ++ (if py_truthy suggested
      then s_to_add ++ join s_item_sep (map py_str (py_elements suggested)) ++ s_nl
      else [])
  ++ s_refine_tail.

(** Steps 1 to 4 of [kb_upsert_cards_for_markdown]: generate, retry once,
    judge once, refine once.  Returns [raw_cards] and [quality]. *)
Definition synthesize (ctx : ToolContext) (origin_rel_path md_text doc_title : ustr)
  : M (list CardDraft * Quality) :=
  do raw_cards <-
    try_except (_generate_cards_once ctx origin_rel_path md_text None None)
               (fun _ => ret []);
  do raw_cards <-
    (if is_empty raw_cards || _cards_have_generation_error raw_cards
     then try_except
            (_generate_cards_once ctx origin_rel_path md_text (Some s_retry_guidance) None)
            (fun _ => ret [])
     else ret raw_cards);
  if is_empty raw_cards then
    ret ([placeholder_card doc_title],
         {| judge := generation_failed_report;
            refinement_applied := None; refinement_error := None |})
  else
    do judge_meta <- _judge_once ctx origin_rel_path md_text raw_cards;
    let judge_meta := _sanitize_judge_meta md_text judge_meta in
    if negb (py_truthy (dict_get judge_meta k_ok (PBool false))) then
      let guidance := refine_guidance judge_meta in
      try_except
        (do refined <-
           _generate_cards_once ctx origin_rel_path md_text (Some guidance) (Some raw_cards);
         if negb (is_empty refined)
         then ret (refined,
                   {| judge := judge_meta;
                      refinement_applied := Some true; refinement_error := None |})
         else ret (raw_cards,
                   {| judge := judge_meta;
                      refinement_applied := Some false; refinement_error := None |}))
        (fun e => ret (raw_cards,
                       {| judge := judge_meta;
                          refinement_applied := Some false;
                          refinement_error := Some (exc_kind e) |}))
    else
      ret (raw_cards,
           {| judge := judge_meta;
              refinement_applied := Some false; refinement_error := None |}).

(** ** Writing the card files *)

(** [t = str(rc.get("title", "")).strip() or f"{title} — часть {idx+1}"] *)
Definition card_title (doc_title : ustr) (idx : nat) (rc : CardDraft) : ustr :=
  let t := strip (title rc) in
  if py_truthy (PStr t) then t
  else doc_title ++ s_part ++ str_of_Z (Z.of_nat idx + 1).

(** The description as written: stripped, and given the lead-in when it is
    not empty and does not start with it in lower case. *)
Definition card_description (rc : CardDraft) : ustr :=
  let description := strip (description rc) in
  if py_truthy (PStr description)
     && negb (startswith (str_lower description) s_lead_in_lower)
  then s_lead_in ++ s_space ++ rstrip_char c_dot description ++ s_dot
  else description.

(** [sha256(f"{origin_rel_path}:{md_hash}:{idx}:{t}".encode("utf-8")).hexdigest()[:12]] *)
Definition card_id (origin_rel_path md_hash : ustr) (idx : nat) (t : ustr) : ustr :=
  take 12 (sha256_hexdigest
             (utf8_encode (origin_rel_path ++ s_colon ++ md_hash ++ s_colon
                           ++ str_of_Z (Z.of_nat idx) ++ s_colon ++ t))).

(** [f"card_{card_id}_{source_stem}.md"] *)
Definition md_filename (id source_stem : ustr) : ustr :=
  s_card_ ++ id ++ s_underscore ++ source_stem ++ s_md.

(** The text of a card file. *)
Definition md_body (ctx : ToolContext) (origin_rel_path md_hash description content : ustr)
  : ustr :=
  s_wrap_open ++ description ++ s_wrap_close
  ++ content ++ s_nlnl
  ++ s_footer_source ++ path_name (origins_dir (kb ctx)) ++ s_slash ++ origin_rel_path
  ++ s_footer_sha ++ md_hash ++ s_footer_close.

(** The file name and the text written for the card at position [idx]. *)
Definition card_file (ctx : ToolContext) (origin_rel_path md_hash doc_title source_stem : ustr)
    (idx : nat) (rc : CardDraft) : ustr * ustr :=
  let t := card_title doc_title idx rc in
  (md_filename (card_id origin_rel_path md_hash idx t) source_stem,
   md_body ctx origin_rel_path md_hash (card_description rc) (strip (content_md rc))).

(** [md_path.write_text(md_body, encoding="utf-8")] in the card directory *)
Definition write_card (name body : ustr) : M unit :=
  fun w =>
    let keep := match cards_md w !! name with
                | Some n => unlink_fails n
                | None => false
                end in
    (Ok tt, set_cards_md w (<[name := {| card_content := Ok body; unlink_fails := keep |}]>
                              (cards_md w))).

(** The loop [for idx, rc in enumerate(raw_cards)], from position [idx]:
    returns [created_files]. *)
Fixpoint write_cards (ctx : ToolContext) (origin_rel_path md_hash doc_title source_stem : ustr)
    (idx : nat) (raw_cards : list CardDraft) : M (list ustr) :=
  match raw_cards with
  | [] => ret []
  | rc :: rest =>
      let '(name, body) := card_file ctx origin_rel_path md_hash doc_title source_stem idx rc in
      do _ <- write_card name body;
      do created <- write_cards ctx origin_rel_path md_hash doc_title source_stem (S idx) rest;
      ret (path_str (joinpath (cards_md_dir (kb ctx)) (path_of_str name)) :: created)
  end.

(** [p.unlink()] on an entry of the card directory *)
Definition unlink_card (name : ustr) : M unit :=
  fun w =>
    match cards_md w !! name with
    | Some n =>
        if unlink_fails n then (Raise (Exc (u "OSError") []), w)
        else (Ok tt, set_cards_md w (delete name (cards_md w)))
    | None => (Raise (Exc s_FileNotFoundError []), w)
    end.

(** The removal of the old card files of a document: every match of the
    pattern is unlinked, and a failure is passed over. *)
Definition cleanup_cards (stem : ustr) : M unit :=
  fun w =>
    (do _ <- for_each (fun e => try_except (unlink_card (fst e)) (fun _ => ret tt))
                      (glob_cards w (card_pattern stem));
     ret tt) w.

(** [kb_upsert_cards_for_markdown] *)
Definition kb_upsert_cards_for_markdown (ctx : ToolContext) (origin_rel_path : ustr)
    (force : bool) : M UpsertResult :=
  if negb (py_truthy (PStr origin_rel_path))
  then raise (Exc s_ValueError (u "origin_rel_path is required"))
  else
    do md_path <- _resolve_origin ctx origin_rel_path;
    do md_text <- read_text md_path;
    do md_hash <- file_sha256 md_path;
    let stem := path_stem (path_of_str origin_rel_path) in
    do _ <- cleanup_cards stem;
    let doc_title := extract_title md_text stem in
    do sq <- synthesize ctx origin_rel_path md_text doc_title;
    let '(raw_cards, quality) := sq in
    do created_files <- write_cards ctx origin_rel_path md_hash doc_title stem 0 raw_cards;
    ret {| up_ok := true;
           up_skipped := false;
           up_origin := origin_rel_path;
           cards_md_count := length created_files;
           cards_md_files := created_files;
           quality := quality |}.

(** [kb_sync_all] *)
Definition kb_sync_all (ctx : ToolContext) (force : bool) : M SyncResult :=
  fun w =>
    let md_files := _list_markdown_files ctx w in
    (do results <-
       for_each (fun md => do rel <- _origin_rel ctx md;
                           kb_upsert_cards_for_markdown ctx rel force)
                md_files;
     ret {| sync_ok := true; processed := length md_files; results := results |}) w.

End Pipeline.

(* ===================================================================== *)
(** * Part V-b. The other tools, and the parser loop *)
(* ===================================================================== *)

(** ** [kb_set_role] *)

(** The dict [kb_set_role] returns. *)
Record SetRoleResult : Type := {
  sr_ok : bool;
  sr_before : ustr;
  sr_after : ustr;
}.

(** [ctx.role = role]: the context with another role. *)
Definition with_role (ctx : ToolContext) (r : ustr) : ToolContext :=
  {| kb := kb ctx; llm_writer := llm_writer ctx; llm_judge := llm_judge ctx; role := r |}.

(** [kb_set_role].  The call assigns to a field of the context; the model
    returns the context it leaves.  [None] is Python's [None], for which
    [role or ""] is the empty string. *)
Definition kb_set_role (ctx : ToolContext) (new_role : option ustr)
  : Result SetRoleResult * ToolContext :=
  let before := role ctx in
  let r := strip (default [] new_role) in
  if negb (py_truthy (PStr r))
  then (Raise (Exc s_ValueError (u "role is empty")), ctx)
  else (Ok {| sr_ok := true; sr_before := before; sr_after := r |}, with_role ctx r).

(** ** [kb_read_markdown] *)

(** The dict [kb_read_markdown] returns. *)
Record ReadResult : Type := {
  rd_path : ustr;
  rd_size_bytes : nat;
  rd_modified_at : ustr;
  rd_content : ustr;
}.

Definition s_truncated : ustr := Eval vm_compute in u "

[TRUNCATED]".

(** [s[:n]]: a negative [n] counts from the end. *)
Definition slice_to (s : ustr) (n : Z) : ustr :=
  if (n <? 0)%Z then take (length s - Z.to_nat (- n)) s else take (Z.to_nat n) s.

(** [path.stat().st_size] of a file that was just read. *)
Definition stat_size (p : Path) : M nat :=
  fun w => match files w !! parts p with
           | Some (FileBytes b) => (Ok (String.length b), w)
           | Some (FileError e) => (Raise e, w)
           | None => (Raise (Exc s_FileNotFoundError []), w)
           end.

Section ReadMarkdown.
Context `{Runtime}.

(** The modification time of a file as [kb_read_markdown] prints it; the
    world of the model records no time. *)
Variable modified_at : World -> Path -> ustr.

(** [kb_read_markdown] *)
Definition kb_read_markdown (ctx : ToolContext) (origin_rel_path : ustr) (max_chars : Z)
  : M ReadResult :=
  if negb (py_truthy (PStr origin_rel_path))
  then raise (Exc s_ValueError (u "origin_rel_path is required"))
  else
    do path <- _resolve_origin ctx origin_rel_path;
    do text <- read_text path;
    let text :=
      if (max_chars <? Z.of_nat (length text))%Z
      then slice_to text max_chars ++ s_truncated
      else text in
    do size <- stat_size path;
    fun w => ret {| rd_path := origin_rel_path;
                    rd_size_bytes := size;
                    rd_modified_at := modified_at w path;
                    rd_content := text |} w.

End ReadMarkdown.

(** ** [_invoke_llm_text] and [_llm_parse_pydantic] *)

(** The chat model, one invocation at a time: from the prompts sent before
    and the prompt, the [content] of the message it returns (a string, or a
    list of parts), or the exception [invoke] raises. *)
Record ChatModel : Type := {
  invoke : list ustr -> ustr -> Result pyval;
}.

(** A computation that talks to the chat model; the state is the list of
    prompts sent so far, oldest first. *)
Definition Chat (A : Type) : Type := list ustr -> Result A * list ustr.

Definition s_nl2 : ustr := [10; 10].
Definition s_RuntimeError : ustr := Eval vm_compute in u "RuntimeError".
Definition s_JSONDecodeError : ustr := Eval vm_compute in u "JSONDecodeError".
Definition k_properties : ustr := Eval vm_compute in u "properties".
Definition k_required : ustr := Eval vm_compute in u "required".
Definition k_defs : ustr := Eval vm_compute in u "$defs".
Definition s_reprompt : ustr :=
  Eval vm_compute in
    u "Ответ выше не соответствует формату. Верни ТОЛЬКО JSON-ОБЪЕКТ со ЗНАЧЕНИЯМИ полей, НЕ JSON Schema.
".
Definition s_previous : ustr := Eval vm_compute in u "Предыдущий ответ:
".

(** [isinstance(obj, dict) and ("properties" in obj and ("required" in obj
    or "$defs" in obj))] *)
Definition looks_like_schema (obj : pyval) : bool :=
  match obj with
  | PDict d =>
      bool_decide (is_Some (d !! k_properties))
      && (bool_decide (is_Some (d !! k_required)) || bool_decide (is_Some (d !! k_defs)))
  | _ => false
  end.

Section ParserLoop.
Context `{Runtime}.

Variable llm : ChatModel.
(** The pydantic model's values, [parser.parse], the text of
    [parser.get_format_instructions()], and [json.loads]. *)
Variable Parsed : Type.
Variable parse : ustr -> Result Parsed.
Variable fmt : ustr.
Variable json_loads : ustr -> Result pyval.

(** The text of a message: a list of parts is concatenated, and the result
    is stripped. *)
Definition content_text (content : pyval) : ustr :=
  strip (py_str (match content with
                 | PList l => PStr (concat (map py_str l))
                 | _ => content
                 end)).

(** [_invoke_llm_text].  ([request_delay_s] only makes the process sleep
    and is left out.) *)
Definition _invoke_llm_text (prompt : ustr) : Chat ustr :=
  fun sent =>
    match invoke llm sent prompt with
    | Ok content => (Ok (content_text content), sent ++ [prompt])
    | Raise e => (Raise e, sent ++ [prompt])
    end.

(** The body of the [try] in [_llm_parse_pydantic]: an answer that is a
    JSON schema is refused; an answer that is no JSON at all goes to the
    parser like any other. *)
Definition parse_answer (last_text : ustr) : Result Parsed :=
  match json_loads last_text with
  | Ok obj =>
      if looks_like_schema obj
      then Raise (Exc s_ValueError (u "Model returned JSON schema, not values"))
      else parse last_text
  | Raise e =>
      if ustr_eqb (exc_kind e) s_JSONDecodeError then parse last_text else Raise e
  end.

(** The first prompt and the prompt after a failed answer. *)
Definition first_prompt (prompt : ustr) : ustr := prompt ++ s_nl2 ++ fmt ++ s_nl.

Definition reprompt (prompt last_text : ustr) : ustr :=
  prompt ++ s_nl2 ++ fmt ++ s_nl2 ++ s_reprompt ++ s_previous ++ last_text ++ s_nl.

(** The loop [for i in range(attempts)] with [remaining] iterations to go
    and [full_prompt] as it stands.  The call of the model is outside the
    [try]; a failed answer is raised again at the last iteration. *)
Fixpoint parse_loop (prompt full_prompt : ustr) (remaining : nat) : Chat Parsed :=
  match remaining with
  | O => fun sent => (Raise (Exc s_RuntimeError (u "unreachable")), sent)
  | S remaining' =>
      fun sent =>
        match _invoke_llm_text full_prompt sent with
        | (Ok last_text, sent') =>
            match parse_answer last_text with
            | Ok a => (Ok a, sent')
            | Raise e =>
                match remaining' with
                | O => (Raise e, sent')
                | S _ => parse_loop prompt (reprompt prompt last_text) remaining' sent'
                end
            end
        | (Raise e, sent') => (Raise e, sent')
        end
  end.

(** [_llm_parse_pydantic] *)
Definition _llm_parse_pydantic (prompt : ustr) (attempts : Z) : Chat Parsed :=
  parse_loop prompt (first_prompt prompt) (Z.to_nat attempts).

End ParserLoop.

(* ===================================================================== *)
(** * Part VI. The vocabulary of the statements *)
(* ===================================================================== *)

(** The notions the theorems are stated with, each defined from the model
    above. *)

Section Vocabulary.
Context `{Runtime}.

(** A string of blanks only. *)
Definition all_space (s : ustr) : bool := forallb is_space s.

(** Whether the loop of [_sanitize_judge_meta] keeps an item. *)
Definition item_kept (doc_text : ustr) (item : pyval) : bool :=
  match item with
  | PDict d => evidence_ok (_normalize_ws doc_text) d
  | _ => true
  end.

(** The list the loop runs over: [judge_meta.get("missing") or []], and
    [[]] when that is not a list. *)
Definition missing_in (jm : gmap ustr pyval) : list pyval :=
  match py_or (dict_get jm k_missing PNone) (PList []) with
  | PList l => l
  | _ => []
  end.

(** The number of items the loop removes. *)
Definition removed_count (doc_text : ustr) (items : list pyval) : Z :=
  Z.of_nat (length (List.filter (fun i => negb (item_kept doc_text i)) items)).

(** Whether the verdict is flipped. *)
Definition flips (doc_text : ustr) (jm : gmap ustr pyval) : bool :=
  negb (py_truthy (dict_get jm k_ok (PBool false)))
  && is_empty (List.filter (item_kept doc_text) (missing_in jm))
  && is_list (dict_get jm k_missing PNone).

(** The world with the call log [h]. *)
Definition with_calls (w : World) (h : list Call) : World :=
  {| cwd := cwd w; files := files w; cards_md := cards_md w; calls := h |}.

(** The cards a generation call leaves in [raw_cards]: its answer, or [[]]
    when it raised. *)
Definition gen_answer (r : Result (list CardDraft)) : list CardDraft :=
  match r with Ok cs => cs | Raise _ => [] end.

(** The quality report of the placeholder branch. *)
Definition placeholder_quality : Quality :=
  {| judge := generation_failed_report;
     refinement_applied := None; refinement_error := None |}.

(** The sanitized verdict on the cards of [jp], asked after the calls [h]. *)
Definition judge_verdict (ctx : ToolContext) (doc_text : ustr) (h : list Call)
    (jp : JudgePrompt) : gmap ustr pyval :=
  _sanitize_judge_meta doc_text
    (match llm_judge ctx h jp with
     | Ok j => dump_judge_result j
     | Raise e => judge_error_report e
     end).

(** Whether the first generation is followed by the retry. *)
Definition needs_retry (cards : list CardDraft) : bool :=
  is_empty cards || _cards_have_generation_error cards.

Definition is_judge_call (c : Call) : bool :=
  match c with CallJudge _ => true | CallWriter _ => false end.

(** The number of validator calls in a log. *)
Definition judge_calls (l : list Call) : nat := length (List.filter is_judge_call l).

(** A generation call that is not a refinement: it hands over no cards. *)
Definition plain_generation (c : Call) : Prop :=
  match c with
  | CallWriter p => wp_existing_cards p = None
  | CallJudge _ => False
  end.

(** [unlink] with its failure passed over, on the directory alone. *)
Definition try_unlink (D : gmap ustr CardNode) (name : ustr) : gmap ustr CardNode :=
  match D !! name with
  | Some n => if unlink_fails n then D else delete name D
  | None => D
  end.

(** [write_text] on the directory alone. *)
Definition put_card (D : gmap ustr CardNode) (f : ustr * ustr) : gmap ustr CardNode :=
  <[fst f := {| card_content := Ok (snd f);
                unlink_fails := match D !! fst f with
                                | Some n => unlink_fails n
                                | None => false
                                end |}]> D.

(** The names and texts [write_cards] writes, in order. *)
Fixpoint card_files (ctx : ToolContext) (origin md_hash doc_title stem : ustr)
    (idx : nat) (raw_cards : list CardDraft) : list (ustr * ustr) :=
  match raw_cards with
  | [] => []
  | rc :: rest =>
      card_file ctx origin md_hash doc_title stem idx rc
      :: card_files ctx origin md_hash doc_title stem (S idx) rest
  end.

(** The path [write_cards] reports for a file name. *)
Definition created_path (ctx : ToolContext) (name : ustr) : ustr :=
  path_str (joinpath (cards_md_dir (kb ctx)) (path_of_str name)).

(** What [kb_upsert_cards_for_markdown] reads before it changes anything:
    the resolved path of the document, its text and its fingerprint. *)
Definition load_doc (ctx : ToolContext) (origin_rel_path : ustr) : M (Path * ustr * ustr) :=
  if negb (py_truthy (PStr origin_rel_path))
  then raise (Exc s_ValueError (u "origin_rel_path is required"))
  else
    do md_path <- _resolve_origin ctx origin_rel_path;
    do md_text <- read_text md_path;
    do md_hash <- file_sha256 md_path;
    ret (md_path, md_text, md_hash).

(** The card directory after the old files of a document are removed. *)
Definition cleaned (w : World) (stem : ustr) : gmap ustr CardNode :=
  fold_left try_unlink (map fst (glob_cards w (card_pattern stem))) (cards_md w).


(** The layout of a card file: the description between the delimiters, a
    blank line, the body, a blank line, and the provenance comment with the
    directory name of the corpus, the relative path and the fingerprint. *)
Definition card_layout (origin_dir rel digest description body : ustr) : ustr :=
  s_wrap_open ++ description ++ s_wrap_close
  ++ body ++ s_nlnl
  ++ s_footer_source ++ origin_dir ++ s_slash ++ rel
  ++ s_footer_sha ++ digest ++ s_footer_close.

(** A card file is current for the fingerprint [h] when reading and parsing
    it gives [h]. *)
Definition card_current (h : ustr) (node : CardNode) : bool :=
  match card_sha node with
  | Ok (Some s) => ustr_eqb s h
  | _ => false
  end.

(** The first card file, in scan order, that is not current. *)
Definition first_bad (h : ustr) (card_files : list (ustr * CardNode))
  : option (ustr * CardNode) :=
  List.find (fun e => negb (card_current h (snd e))) card_files.

(** A string without whitespace. *)
Definition no_space (s : ustr) : bool := forallb (fun c => negb (is_space c)) s.

(** A word of [s.split()]: not empty, and without whitespace. *)
Definition is_word (s : ustr) : Prop := s ≠ [] ∧ no_space s = true.

(** A lower-case hexadecimal digit, and the shape of a SHA-256 hex digest
    as the coverage analysis needs it: hexadecimal digits, at least 32. *)
Definition is_hex (c : N) : bool :=
  ((48 <=? c) && (c <=? 57)) || ((97 <=? c) && (c <=? 102)).

Definition hex_digest (h : ustr) : Prop :=
  forallb is_hex h = true ∧ (32 ≤ length h)%nat.

(** A file name as a directory holds it: not empty, not [.] or [..], and
    without a slash. *)
Definition valid_name (c : ustr) : Prop :=
  c ≠ [] ∧ c ≠ s_dot ∧ c ≠ s_dotdot ∧ c_slash ∉ c.



End Vocabulary.

(* ===================================================================== *)
(** * Part VII. Concrete inputs *)
(* ===================================================================== *)

(** A runtime to run the model with.  [demo_lower] is [str.lower] on Basic
    Latin and on the Cyrillic block, the scripts of the program's phrases;
    [demo_digest] stands in for SHA-256 and has its shape, 64 hexadecimal
    digits; [demo_glob] matches the wildcards [*] and [?], the only ones in
    the patterns below; [repr] of a container is not needed by any run. *)
Definition lower_cp (c : N) : N :=
  if (65 <=? c) && (c <=? 90) then c + 32
  else if (1040 <=? c) && (c <=? 1071) then c + 32
  else if (1024 <=? c) && (c <=? 1039) then c + 80
  else c.

Definition demo_lower (s : ustr) : ustr := map lower_cp s.

Definition hexdigit (n : N) : N := if n <? 10 then 48 + n else 87 + n.

Fixpoint demo_digest_go (k : nat) (acc : N) (bs : list N) : ustr :=
  match k with
  | O => []
  | S k' =>
      let v := fold_left (fun a b => (a * 31 + b + N.of_nat k) mod 65521) bs acc in
      hexdigit (v mod 16) :: demo_digest_go k' v bs
  end.

Definition demo_digest (bs : list N) : ustr := demo_digest_go 64 7 bs.

Fixpoint wildcard_go (fuel : nat) (name pat : ustr) : bool :=
  match fuel with
  | O => false
  | S f =>
      match pat, name with
      | [], [] => true
      | [], _ :: _ => false
      | 42 :: p', [] => wildcard_go f [] p'
      | 42 :: p', _ :: n' => wildcard_go f name p' || wildcard_go f n' pat
      | 63 :: p', _ :: n' => wildcard_go f n' p'
      | c :: p', d :: n' => (c =? d) && wildcard_go f n' p'
      | _ :: _, [] => false
      end
  end.

Definition demo_glob (name pat : ustr) : bool :=
  wildcard_go (S (length name + length pat)) name pat.

Definition demo_runtime : Runtime :=
  {| py_repr := fun _ => [];
     str_lower := demo_lower;
     sha256_hexdigest := demo_digest;
     glob_match := demo_glob |}.

(** The knowledge base [/home/kb], run from [/home]. *)
Definition demo_kb : KBPaths :=
  {| root := path_of_str (u "kb");
     origins_dir := path_of_str (u "kb/origins");
     cards_dir := path_of_str (u "kb/cards");
     cards_md_dir := path_of_str (u "kb/cards_md") |}.

Definition demo_origin (name : string) : list ustr :=
  [u "home"; u "kb"; u "origins"; u name].

Definition demo_doc_bytes : string := "# Intro
Acme does X.".

Definition demo_world (fs : gmap (list ustr) FileNode) (cs : gmap ustr CardNode) : World :=
  {| cwd := [u "home"]; files := fs; cards_md := cs; calls := [] |}.

(** One document, [intro.md], and no card. *)
Definition world_intro : World :=
  demo_world (<[demo_origin "intro.md" := FileBytes demo_doc_bytes]> ∅) ∅.

Definition card_acme : CardDraft :=
  {| title := u "Acme";
     description := u "Acme overview.";
     content_md := u "Acme does X.";
     key_terms := [];
     entities := [u "Acme"] |}.


(** A card with no description. *)
Definition card_blank : CardDraft :=
  {| title := u "Acme";
     description := [];
     content_md := u "Acme does X.";
     key_terms := [];
     entities := [] |}.

Definition verdict_ok : JudgeResult :=
  {| ok := true; missing := []; suggested_card_titles := [] |}.


(** A service that gives the same answers whatever was asked before. *)
Definition demo_ctx (cards : list CardDraft) (verdict : Result JudgeResult) : ToolContext :=
  {| kb := demo_kb;
     llm_writer := fun _ _ => Ok cards;
     llm_judge := fun _ _ => verdict;
     role := u "agent" |}.

Definition ctx_acme : ToolContext := demo_ctx [card_acme] (Ok verdict_ok).
Definition ctx_blank : ToolContext := demo_ctx [card_blank] (Ok verdict_ok).

Definition demo_text : ustr := Eval vm_compute in u demo_doc_bytes.

(** The evidence example of the specification: a document of one sentence,
    and a report with a gap that is not in the document, a gap that is (its
    quotation spaced differently), and a plain note. *)
Definition doc_acme : ustr := Eval vm_compute in u "The tool is called Acme".

Definition item_acme : pyval :=
  dump_missing_item {| what := u "the name of the tool";
                       evidence := u "The tool is  called Acme" |}.

Definition item_zenith : pyval :=
  dump_missing_item {| what := u "the name of the tool";
                       evidence := u "The tool is called Zenith" |}.

Definition report_acme : gmap ustr pyval :=
  <[k_ok := PBool false]>
    (<[k_missing := PList [item_zenith; item_acme; PStr (u "note")]]>
      (<[k_suggested_card_titles := PList []]> ∅)).

(** The verdict [_judge_once] returns when the validator call raised a
    [ValueError]. *)
Definition report_judge_failed : gmap ustr pyval :=
  <[k_ok := PBool false]>
    (<[k_missing := PList [PStr (s_judge_parse_error ++ s_ValueError)%list]]>
      (<[k_suggested_card_titles := PList []]> ∅)).





(** A file beside the corpus root, in a directory whose name starts with
    the name of the root. *)
Definition world_sibling : World :=
  demo_world (<[[u "home"; u "kb"; u "origins_evil"; u "x.md"] := FileBytes "secret"]>
                (<[demo_origin "intro.md" := FileBytes demo_doc_bytes]> ∅)) ∅.

Definition md_intro : Path := mkPath true (demo_origin "intro.md").

(** The document [intro.md] with another text. *)
Definition changed_doc_bytes : string := "# Intro
Acme does Y.".

(** A world in which [intro.md] holds [changed_doc_bytes]; the rest is as
    in [w]. *)
Definition with_changed_intro (w : World) : World :=
  {| cwd := cwd w;
     files := <[demo_origin "intro.md" := FileBytes changed_doc_bytes]> (files w);
     cards_md := cards_md w;
     calls := calls w |}.

(** A service whose validator is down, and one whose validator reports a
    gap with a quotation that is not in the document. *)
Definition ctx_judge_down : ToolContext :=
  demo_ctx [card_acme] (Raise (Exc (u "TimeoutError") [])).

Definition verdict_unquoted : JudgeResult :=
  {| ok := false;
     missing := [ {| what := u "what Acme costs"; evidence := u "Acme costs 5." |} ];
     suggested_card_titles := [] |}.

Definition ctx_unquoted : ToolContext := demo_ctx [card_acme] (Ok verdict_unquoted).

(** A chat model that cannot be reached, and one that answers every prompt
    with the same text. *)
Definition chat_offline : ChatModel :=
  {| invoke := fun _ _ => Raise (Exc (u "ConnectionError") []) |}.

Definition chat_babble : ChatModel :=
  {| invoke := fun _ _ => Ok (PStr (u "hello")) |}.

(** A parser that accepts every text as it is, one that refuses every
    text, and a [json.loads] for answers that are no JSON. *)
Definition parse_any (t : ustr) : Result ustr := Ok t.

Definition parse_none (t : ustr) : Result ustr :=
  Raise (Exc (u "OutputParserException") t).

Definition no_json (t : ustr) : Result pyval := Raise (Exc s_JSONDecodeError []).

(** A corpus of two documents whose stems end alike: [a_x.md] and [x.md]. *)
Definition world_ax : World :=
  demo_world (<[demo_origin "a_x.md" := FileBytes demo_doc_bytes]>
                (<[demo_origin "x.md" := FileBytes demo_doc_bytes]> ∅)) ∅.

(** The name of the card file written for [a_x.md]. *)
Definition card_name_a_x : ustr :=
  md_filename
    (take 12 (demo_digest
                (utf8_encode (u "a_x.md" ++ s_colon ++ demo_digest (bytes_of demo_doc_bytes)
                              ++ s_colon ++ str_of_Z 0 ++ s_colon ++ u "Acme")%list)))
    (u "a_x").

(* ===================================================================== *)
(** * Part VIII. Lemmas and theorems *)
(* ===================================================================== *)

(** ** Strings *)

Lemma startswith_spec (s p : ustr) : startswith s p = true ↔ ∃ t, s = p ++ t.
Proof.
  revert s. induction p as [|a p IH]; intros s; simpl.
  - split; [intros _; by exists s | done].
  - destruct s as [|b s].
    + split; [done | intros [t Ht]; discriminate].
    + rewrite andb_true_iff, N.eqb_eq, IH. split.
      * intros [-> [t ->]]. by exists t.
      * intros [t Ht]. simplify_eq. split; [done | by exists t].
Qed.

Lemma str_in_spec (p s : ustr) : str_in p s = true ↔ ∃ a b, s = a ++ p ++ b.
Proof.
  induction s as [|c s IH].
  - simpl. rewrite orb_false_r, startswith_spec. split.
    + intros [t Ht]. exists [], t. done.
    + intros (a & b & Hab). symmetry in Hab.
      apply app_eq_nil in Hab as [-> Hab]. apply app_eq_nil in Hab as [-> ->].
      by exists [].
  - change (str_in p (c :: s)) with (startswith (c :: s) p || str_in p s).
    rewrite orb_true_iff, startswith_spec, IH. split.
    + intros [[t Ht] | (a & b & Hab)].
      * exists [], t. done.
      * exists (c :: a), b. by rewrite Hab.
    + intros (a & b & Hab). destruct a as [|c' a].
      * left. by exists b.
      * right. simpl in Hab. simplify_eq. by exists a, b.
Qed.

Lemma lstrip_nil_iff s : lstrip s = [] ↔ all_space s = true.
Proof.
  induction s as [|c s IH]; simpl; [done|].
  destruct (is_space c); simpl; [done | split; done].
Qed.

Lemma lstrip_decomp s : ∃ t, s = t ++ lstrip s ∧ all_space t = true.
Proof.
  induction s as [|c s (t & Ht & Hs)]; simpl.
  - by exists [].
  - destruct (is_space c) eqn:Hc.
    + exists (c :: t). simpl. rewrite Hc, Hs. split; [by f_equal | done].
    + by exists [].
Qed.

Lemma all_space_app s t : all_space (s ++ t) = all_space s && all_space t.
Proof. apply forallb_app. Qed.

Lemma all_space_rev s : all_space (rev s) = all_space s.
Proof.
  induction s as [|c s IH]; simpl; [done|].
  rewrite all_space_app, IH. simpl. rewrite andb_true_r. apply andb_comm.
Qed.

Lemma rstrip_decomp s : ∃ t, s = rstrip s ++ t ∧ all_space t = true.
Proof.
  destruct (lstrip_decomp (rev s)) as (t & Ht & Hs).
  exists (rev t). split; [| by rewrite all_space_rev].
  unfold rstrip. rewrite <- rev_app_distr, <- Ht. by rewrite rev_involutive.
Qed.

Lemma strip_nil_iff s : strip s = [] ↔ all_space s = true.
Proof.
  unfold strip. split.
  - intros Hs. destruct (rstrip_decomp (lstrip s)) as (t & Ht & Hsp).
    rewrite Hs in Ht. simpl in Ht.
    destruct (lstrip_decomp s) as (t' & Ht' & Hsp').
    rewrite Ht'. rewrite all_space_app, Hsp'. simpl. by rewrite Ht.
  - intros Hs. apply lstrip_nil_iff in Hs. by rewrite Hs.
Qed.

Lemma split_go_nil_iff w s : split_go w s = [] ↔ w = [] ∧ all_space s = true.
Proof.
  revert w. induction s as [|c s IH]; intros w; simpl.
  - destruct w; split; try done. by intros [? _].
  - destruct (is_space c); simpl.
    + destruct w.
      * rewrite IH. tauto.
      * split; [done | by intros [? _]].
    + rewrite IH. split; [by intros [? _] | by intros [_ ?]].
Qed.

Lemma split_go_nonempty w s : Forall (fun x => x ≠ []) (split_go w s).
Proof.
  revert w. induction s as [|c s IH]; intros w; simpl.
  - destruct w as [|a w]; [constructor|]. constructor; [|constructor].
    simpl. intros Hn. apply app_eq_nil in Hn as [_ ?]. done.
  - destruct (is_space c); [|apply IH].
    destruct w as [|a w]; [apply IH|]. constructor; [|apply IH].
    simpl. intros Hn. apply app_eq_nil in Hn as [_ ?]. done.
Qed.

Lemma join_nil_iff (sep : ustr) (l : list ustr) :
  Forall (fun x => x ≠ []) l → join sep l = [] ↔ l = [].
Proof.
  intros Hl. destruct l as [|p l]; [done|]. split; [|done].
  inversion Hl as [|? ? Hp _]; subst. simpl.
  destruct l; [done|]. intros Hn. apply app_eq_nil in Hn as [? _]. done.
Qed.

Lemma normalize_nil_iff s : _normalize_ws s = [] ↔ all_space s = true.
Proof.
  unfold _normalize_ws, split_ws.
  rewrite join_nil_iff by apply split_go_nonempty.
  rewrite split_go_nil_iff. tauto.
Qed.

Lemma split_go_lstrip s : split_go [] (lstrip s) = split_go [] s.
Proof.
  induction s as [|c s IH]; simpl; [done|].
  destruct (is_space c) eqn:Hc; [done|]. simpl. by rewrite Hc.
Qed.

Lemma split_go_spaces w t :
  all_space t = true → split_go w t = match w with [] => [] | _ => [rev w] end.
Proof.
  revert w. induction t as [|c t IH]; intros w Ht; simpl; [done|].
  simpl in Ht. apply andb_true_iff in Ht as [Hc Ht]. rewrite Hc.
  rewrite (IH [] Ht). by destruct w.
Qed.

Lemma split_go_app_spaces w s t :
  all_space t = true → split_go w (s ++ t) = split_go w s.
Proof.
  intros Ht. revert w. induction s as [|c s IH]; intros w; simpl.
  - by apply split_go_spaces.
  - destruct (is_space c); [|apply IH]. rewrite IH. done.
Qed.

Lemma normalize_strip s : _normalize_ws (strip s) = _normalize_ws s.
Proof.
  unfold _normalize_ws, split_ws, strip. f_equal.
  destruct (rstrip_decomp (lstrip s)) as (t & Ht & Hsp).
  rewrite <- (split_go_lstrip s). rewrite Ht at 2.
  by rewrite split_go_app_spaces.
Qed.
(** ** The sanitizer *)

Section SanitizerFacts.
Context `{Runtime}.

Lemma keys_distinct :
  k_missing ≠ k_ok ∧ k_missing_sanitized_removed ≠ k_ok
  ∧ k_missing ≠ k_missing_sanitized_removed
  ∧ k_ok_sanitized_overridden ≠ k_ok
  ∧ k_ok_sanitized_overridden ≠ k_missing
  ∧ k_ok_sanitized_overridden ≠ k_missing_sanitized_removed.
Proof. repeat split; discriminate. Qed.

Lemma missing_in_list jm items :
  jm !! k_missing = Some (PList items) → missing_in jm = items.
Proof.
  intros Hm. unfold missing_in, dict_get, py_or. rewrite Hm. simpl.
  by destruct items.
Qed.

Lemma sanitize_loop doc_text items kept r :
  fold_left (sanitize_step (_normalize_ws doc_text)) items (kept, r)
  = (kept ++ List.filter (item_kept doc_text) items,
     (r + Z.of_nat (length (List.filter (fun i => negb (item_kept doc_text i)) items)))%Z).
Proof.
  revert kept r. induction items as [|item items IH]; intros kept r; simpl.
  - by rewrite app_nil_r, Z.add_0_r.
  - destruct item; simpl; rewrite ?IH, <- ?app_assoc; simpl; try done.
    destruct (evidence_ok _ d); simpl; rewrite IH, <- ?app_assoc; simpl; [done|].
    f_equal. lia.
Qed.

(** [_sanitize_judge_meta] on a dict, in closed form. *)
Lemma sanitize_dict doc_text jm :
  _sanitize_judge_meta doc_text (PDict jm) =
  let kept := List.filter (item_kept doc_text) (missing_in jm) in
  let n := removed_count doc_text (missing_in jm) in
  let out := <[k_missing := PList kept]> jm in
  let out := if negb (n =? 0)%Z then <[k_missing_sanitized_removed := PInt n]> out else out in
  if flips doc_text jm
  then <[k_ok_sanitized_overridden := PBool true]> (<[k_ok := PBool true]> out)
  else out.
Proof.
  destruct keys_distinct as (K1 & K2 & _).
  unfold _sanitize_judge_meta. fold (missing_in jm).
  rewrite sanitize_loop. simpl. rewrite Z.add_0_l. fold (removed_count doc_text (missing_in jm)).
  set (kept := List.filter _ _). set (n := removed_count _ _).
  assert (Hok : ∀ out' : gmap ustr pyval,
    out' = (if negb (n =? 0)%Z
            then <[k_missing_sanitized_removed := PInt n]> (<[k_missing := PList kept]> jm)
            else <[k_missing := PList kept]> jm) →
    dict_get out' k_ok (PBool false) = dict_get jm k_ok (PBool false)).
  { intros out' ->. unfold dict_get.
    destruct (negb (n =? 0)%Z); by rewrite ?lookup_insert_ne by done. }
  rewrite (Hok _ eq_refl). unfold flips. fold kept.
  clearbody kept. by destruct kept.
Qed.

Lemma filter_negb_length {A} (f : A → bool) (l : list A) :
  length (List.filter (fun x => negb (f x)) l) = (length l - length (List.filter f l))%nat.
Proof.
  assert (Hle : ∀ l', (length (List.filter f l') ≤ length l')%nat).
  { induction l' as [|y l' IH]; simpl; [lia|]. destruct (f y); simpl; lia. }
  induction l as [|x l IH]; simpl; [done|].
  specialize (Hle l). destruct (f x); simpl; lia.
Qed.

(** A structured item whose evidence is the string [e] is kept exactly when
    [e], normalized, is not empty and occurs in the normalized document. *)
Lemma item_kept_evidence doc_text d e :
  d !! k_evidence = Some (PStr e) →
  item_kept doc_text (PDict d) = true
  ↔ (_normalize_ws e ≠ []
     ∧ ∃ a b, _normalize_ws doc_text = a ++ _normalize_ws e ++ b).
Proof.
  intros He. unfold item_kept, evidence_ok, dict_get. rewrite He. simpl.
  assert (Hev : py_str (py_or (PStr e) (PStr [])) = e) by by destruct e.
  rewrite Hev, andb_true_iff, normalize_strip, str_in_spec.
  assert (Hne : match strip e with [] => false | _ :: _ => true end = true
                ↔ _normalize_ws e ≠ []).
  { rewrite normalize_nil_iff, <- strip_nil_iff. by destruct (strip e). }
  by rewrite Hne.
Qed.

End SanitizerFacts.

Section SanitizerTheorems.
Context `{Runtime}.

(** C3. Evidence sanitization.  For a report whose [missing] is the list
    [items], the sanitized report holds under [missing] exactly the items
    the loop keeps, in their order.  A structured item whose evidence is a
    string is kept if and only if that string, with its whitespace
    normalized, is a non-empty literal substring of the document normalized
    the same way; every item that is not a dict is kept as it is; and the
    number of dropped items, when there is one, is recorded under
    [missing_sanitized_removed]. *)
Theorem c3_evidence_sanitization (doc_text : ustr) (jm : gmap ustr pyval)
    (items : list pyval) :
  jm !! k_missing = Some (PList items) →
  let out := _sanitize_judge_meta doc_text (PDict jm) in
  let kept := List.filter (item_kept doc_text) items in
  out !! k_missing = Some (PList kept)
  ∧ (∀ d e, d !! k_evidence = Some (PStr e) →
       item_kept doc_text (PDict d) = true
       ↔ (_normalize_ws e ≠ []
          ∧ ∃ a b, _normalize_ws doc_text = a ++ _normalize_ws e ++ b))
  ∧ (∀ d, d !! k_evidence = None → item_kept doc_text (PDict d) = false)
  ∧ (∀ v, is_dict v = false → item_kept doc_text v = true)
  ∧ (let n := (length items - length kept)%nat in
     out !! k_missing_sanitized_removed =
       if (0 <? n)%nat then Some (PInt (Z.of_nat n))
       else jm !! k_missing_sanitized_removed).
Proof.
  intros Hm out kept. destruct keys_distinct as (K1 & K2 & K3 & K4 & K5 & K6).
  assert (Hout : out =
    let n := removed_count doc_text items in
    let o := <[k_missing := PList kept]> jm in
    let o := if negb (n =? 0)%Z then <[k_missing_sanitized_removed := PInt n]> o else o in
    if flips doc_text jm
    then <[k_ok_sanitized_overridden := PBool true]> (<[k_ok := PBool true]> o)
    else o).
  { unfold out. rewrite sanitize_dict. by rewrite (missing_in_list _ _ Hm). }
  assert (Hn : removed_count doc_text items = Z.of_nat (length items - length kept)).
  { unfold removed_count, kept. by rewrite filter_negb_length. }
  refine (conj _ (conj _ (conj _ (conj _ _)))).
  - rewrite Hout. simpl.
    destruct (flips doc_text jm), (negb (removed_count doc_text items =? 0)%Z);
      repeat first [rewrite lookup_insert_eq | rewrite lookup_insert_ne by done]; done.
  - intros d e He. by apply item_kept_evidence.
  - intros d Hd. unfold item_kept, evidence_ok, dict_get. by rewrite Hd.
  - intros v Hv. by destruct v.
  - rewrite Hout, Hn. simpl.
    set (n := (length items - length kept)%nat).
    destruct (0 <? n)%nat eqn:Hpos.
    + apply Nat.ltb_lt in Hpos.
      replace (negb (Z.of_nat n =? 0)%Z) with true
        by (symmetry; apply negb_true_iff, Z.eqb_neq; lia).
      destruct (flips doc_text jm);
        repeat first [rewrite lookup_insert_eq | rewrite lookup_insert_ne by done]; done.
    + apply Nat.ltb_ge in Hpos.
      replace (negb (Z.of_nat n =? 0)%Z) with false
        by (symmetry; apply negb_false_iff, Z.eqb_eq; lia).
      destruct (flips doc_text jm);
        repeat first [rewrite lookup_insert_eq | rewrite lookup_insert_ne by done]; done.
Qed.

(** C4 (amended). The verdict flip.  The sanitizer sets [ok] to [True] and
    the flag [ok_sanitized_overridden] exactly when the verdict it was given
    is falsy, [missing] is a list, and no item at all survives the filter,
    neither a structured one nor a plain string; otherwise both keys are
    left as they were.  So a negative verdict stays negative whenever an
    item survives, and also when the report carries no [missing] list. *)
Theorem c4_verdict_flip (doc_text : ustr) (jm : gmap ustr pyval) :
  let out := _sanitize_judge_meta doc_text (PDict jm) in
  (flips doc_text jm = true
   ↔ (py_truthy (dict_get jm k_ok (PBool false)) = false
      ∧ ∃ items, jm !! k_missing = Some (PList items)
                 ∧ List.filter (item_kept doc_text) items = []))
  ∧ (flips doc_text jm = true →
       out !! k_ok = Some (PBool true)
       ∧ out !! k_ok_sanitized_overridden = Some (PBool true))
  ∧ (flips doc_text jm = false →
       out !! k_ok = jm !! k_ok
       ∧ out !! k_ok_sanitized_overridden = jm !! k_ok_sanitized_overridden)
  ∧ (py_truthy (dict_get out k_ok (PBool false)) = false →
       (∃ v, In v (missing_in jm) ∧ item_kept doc_text v = true)
       ∨ is_list (dict_get jm k_missing PNone) = false).
Proof.
  intros out. destruct keys_distinct as (K1 & K2 & K3 & K4 & K5 & K6).
  assert (Hout : out = _sanitize_judge_meta doc_text (PDict jm)) by done.
  rewrite sanitize_dict in Hout. simpl in Hout.
  assert (Hflip : flips doc_text jm = true
   ↔ (py_truthy (dict_get jm k_ok (PBool false)) = false
      ∧ ∃ items, jm !! k_missing = Some (PList items)
                 ∧ List.filter (item_kept doc_text) items = [])).
  { unfold flips. rewrite !andb_true_iff, negb_true_iff. split.
    - intros [[Hok Hk] Hl]. split; [done|].
      unfold dict_get in Hl. destruct (jm !! k_missing) as [[| | | |items|]|] eqn:Hm;
        try discriminate.
      exists items. split; [done|]. rewrite (missing_in_list _ _ Hm) in Hk.
      by destruct (List.filter _ items).
    - intros [Hok (items & Hm & Hk)]. rewrite (missing_in_list _ _ Hm), Hk.
      unfold dict_get. by rewrite Hm. }
  split; [exact Hflip|]. split; [|split].
  - intros Hf. rewrite Hout, Hf.
    rewrite lookup_insert_ne by done. by rewrite !lookup_insert_eq.
  - intros Hf. rewrite Hout, Hf.
    destruct (negb (removed_count doc_text (missing_in jm) =? 0)%Z);
      by rewrite !lookup_insert_ne by done.
  - intros Hneg. destruct (flips doc_text jm) eqn:Hf.
    + exfalso. rewrite Hout in Hneg. unfold dict_get in Hneg.
      rewrite lookup_insert_ne, lookup_insert_eq in Hneg by done. done.
    + assert (Hok : py_truthy (dict_get jm k_ok (PBool false)) = false).
      { rewrite Hout in Hneg. unfold dict_get in *.
        destruct (negb (removed_count doc_text (missing_in jm) =? 0)%Z);
          by rewrite !lookup_insert_ne in Hneg by done. }
      unfold flips in Hf. rewrite Hok in Hf. simpl in Hf.
      apply andb_false_iff in Hf as [Hk | Hl]; [left | by right].
      destruct (List.filter (item_kept doc_text) (missing_in jm)) as [|v l] eqn:Hk'; [done|].
      assert (Hin : In v (List.filter (item_kept doc_text) (missing_in jm)))
        by (rewrite Hk'; by left).
      apply filter_In in Hin. by exists v.
Qed.


End SanitizerTheorems.

(** ** The synthesis pipeline *)

Section PipelineFacts.
Context `{Runtime}.

(** [synthesize] in closed form: the answers of the service decide the
    path, and every path returns. *)
Lemma synthesize_closed ctx origin doc title w :
  synthesize ctx origin doc title w =
  let h0 := calls w in
  let p0 := _writer_prompt ctx origin doc None None in
  let c0 := gen_answer (llm_writer ctx h0 p0) in
  let h1 := h0 ++ [CallWriter p0] in
  let p1 := _writer_prompt ctx origin doc (Some s_retry_guidance) None in
  let c1 := if needs_retry c0 then gen_answer (llm_writer ctx h1 p1) else c0 in
  let h2 := if needs_retry c0 then h1 ++ [CallWriter p1] else h1 in
  if is_empty c1 then (Ok ([placeholder_card title], placeholder_quality), with_calls w h2)
  else
    let jp := _judge_prompt origin doc c1 in
    let jm := judge_verdict ctx doc h2 jp in
    let h3 := h2 ++ [CallJudge jp] in
    if negb (py_truthy (dict_get jm k_ok (PBool false))) then
      let rp := _writer_prompt ctx origin doc (Some (refine_guidance jm)) (Some c1) in
      let h4 := h3 ++ [CallWriter rp] in
      match llm_writer ctx h3 rp with
      | Ok (c :: cs) =>
          (Ok (c :: cs, {| judge := jm; refinement_applied := Some true;
                           refinement_error := None |}), with_calls w h4)
      | Ok [] =>
          (Ok (c1, {| judge := jm; refinement_applied := Some false;
                      refinement_error := None |}), with_calls w h4)
      | Raise e =>
          (Ok (c1, {| judge := jm; refinement_applied := Some false;
                      refinement_error := Some (exc_kind e) |}), with_calls w h4)
      end
    else (Ok (c1, {| judge := jm; refinement_applied := Some false;
                     refinement_error := None |}), with_calls w h3).
Proof.
  unfold synthesize, _judge_once, _generate_cards_once, llm_parse_writer,
    llm_parse_judge, bind, try_except, ret, judge_verdict, needs_retry.
  cbv zeta. cbn [calls log_call].
  destruct (llm_writer ctx (calls w) (_writer_prompt ctx origin doc None None))
    as [c0|e0]; cbn [gen_answer is_empty orb calls log_call].
  - destruct (is_empty c0 || _cards_have_generation_error c0);
      cbn [gen_answer is_empty orb calls log_call].
    + destruct (llm_writer ctx _ (_writer_prompt ctx origin doc (Some s_retry_guidance) None))
        as [[|c c1]|e1]; cbn [gen_answer is_empty orb calls log_call]; try done.
      destruct (llm_judge ctx _ _); cbn [calls log_call];
        (destruct (negb _); [|done]);
        by destruct (llm_writer ctx _ _) as [[|r rs]|er].
    + destruct c0 as [|c c0]; cbn [gen_answer is_empty orb calls log_call]; try done.
      destruct (llm_judge ctx _ _); cbn [calls log_call];
        (destruct (negb _); [|done]);
        by destruct (llm_writer ctx _ _) as [[|r rs]|er].
  - destruct (llm_writer ctx _ (_writer_prompt ctx origin doc (Some s_retry_guidance) None))
      as [[|c c1]|e1]; cbn [gen_answer is_empty orb calls log_call]; try done.
    destruct (llm_judge ctx _ _); cbn [calls log_call];
      (destruct (negb _); [|done]);
      by destruct (llm_writer ctx _ _) as [[|r rs]|er].
Qed.

End PipelineFacts.

Section PipelineTheorems.
Context `{Runtime}.

Lemma refine_guidance_nonempty jm : refine_guidance jm ≠ [].
Proof.
  unfold refine_guidance. intros Hn.
  apply app_eq_nil in Hn as [_ Hn]. apply app_eq_nil in Hn as [_ Hn]. discriminate.
Qed.

Lemma writer_prompt_guidance ctx origin doc g ex :
  g ≠ [] → wp_guidance (_writer_prompt ctx origin doc (Some g) ex) = Some g.
Proof. intros Hg. simpl. by destruct g. Qed.

Lemma cards_have_generation_error_spec cards :
  _cards_have_generation_error cards = true
  ↔ ∃ c, In c cards
         ∧ (str_in _FALLBACK_MARKER (description c) = true
            ∨ str_in _FALLBACK_MARKER (content_md c) = true
            ∨ ∃ p, In p bad_phrases
                   ∧ str_in p (str_lower (description c ++ s_nl ++ content_md c)) = true).
Proof.
  unfold _cards_have_generation_error. rewrite existsb_exists.
  split; intros (c & Hc & Hbad); exists c; (split; [done|]).
  - unfold card_has_generation_error in Hbad.
    rewrite !orb_true_iff, existsb_exists in Hbad. tauto.
  - unfold card_has_generation_error.
    rewrite !orb_true_iff, existsb_exists. tauto.
Qed.

(** C2. The refinement bound.  In every run of the synthesis of one
    document the validator is called at most once.  The calls of a run are
    one or two plain generation calls, then, unless the run ends with the
    placeholder, one validator call, and then, exactly when the sanitized
    verdict is not ok, one more generation call that is handed the candidate
    cards; nothing follows it.  The answer of that call decides the outcome:
    a non-empty list replaces the candidate cards with
    [refinement_applied = True]; an empty list leaves them with
    [refinement_applied = False]; an exception leaves them with
    [refinement_applied = False] and its kind under [refinement_error]. *)
Theorem c2_refinement_bound (ctx : ToolContext) (origin doc doc_title : ustr) (w : World) :
  ∃ cards q w' gens,
    synthesize ctx origin doc doc_title w = (Ok (cards, q), w')
    ∧ Forall plain_generation gens
    ∧ (judge_calls (drop (length (calls w)) (calls w')) ≤ 1)%nat
    ∧ let h := calls w ++ gens in
      (calls w' = h ∧ q = placeholder_quality)
      ∨ ∃ jp, jp_cards jp ≠ []
          ∧ judge q = judge_verdict ctx doc h jp
          ∧ ((py_truthy (dict_get (judge q) k_ok (PBool false)) = true
              ∧ calls w' = h ++ [CallJudge jp]
              ∧ cards = jp_cards jp
              ∧ refinement_applied q = Some false
              ∧ refinement_error q = None)
             ∨ (py_truthy (dict_get (judge q) k_ok (PBool false)) = false
                ∧ ∃ rp, calls w' = h ++ [CallJudge jp; CallWriter rp]
                   ∧ wp_existing_cards rp = Some (jp_cards jp)
                   ∧ wp_guidance rp = Some (refine_guidance (judge q))
                   ∧ match llm_writer ctx (h ++ [CallJudge jp]) rp with
                     | Ok (c :: cs) =>
                         cards = c :: cs
                         ∧ refinement_applied q = Some true
                         ∧ refinement_error q = None
                     | Ok [] =>
                         cards = jp_cards jp
                         ∧ refinement_applied q = Some false
                         ∧ refinement_error q = None
                     | Raise e =>
                         cards = jp_cards jp
                         ∧ refinement_applied q = Some false
                         ∧ refinement_error q = Some (exc_kind e)
                     end)).
Proof.
  rewrite synthesize_closed. cbv zeta.
  set (p0 := _writer_prompt ctx origin doc None None).
  set (p1 := _writer_prompt ctx origin doc (Some s_retry_guidance) None).
  set (c0 := gen_answer (llm_writer ctx (calls w) p0)).
  set (gens := if needs_retry c0 then [CallWriter p0; CallWriter p1] else [CallWriter p0]).
  set (c1 := if needs_retry c0 then gen_answer _ else c0).
  assert (Hh : (if needs_retry c0
                then (calls w ++ [CallWriter p0]) ++ [CallWriter p1]
                else calls w ++ [CallWriter p0]) = calls w ++ gens).
  { unfold gens. destruct (needs_retry c0); by rewrite <- ?app_assoc. }
  rewrite Hh.
  assert (Hgens : Forall plain_generation gens).
  { unfold gens. destruct (needs_retry c0); repeat constructor. }
  assert (Hjg : ∀ post, judge_calls (drop (length (calls w)) (calls w ++ gens ++ post))
                        = judge_calls post).
  { intros post. rewrite drop_app_length. unfold judge_calls.
    rewrite List.filter_app, length_app.
    replace (List.filter is_judge_call gens) with (@nil Call); [done|].
    unfold gens. by destruct (needs_retry c0). }
  destruct (is_empty c1) eqn:Hc1.
  - eexists _, _, _, gens. split; [done|]. split; [done|]. split.
    + cbn [calls with_calls]. rewrite <- (app_nil_r gens), Hjg. unfold judge_calls; simpl; lia.
    + by left.
  - set (jp := _judge_prompt origin doc c1).
    set (jm := judge_verdict ctx doc (calls w ++ gens) jp).
    assert (Hjp : jp_cards jp ≠ []) by (simpl; by destruct c1).
    destruct (negb (py_truthy (dict_get jm k_ok (PBool false)))) eqn:Hv.
    + apply negb_true_iff in Hv.
      set (rp := _writer_prompt ctx origin doc (Some (refine_guidance jm)) (Some c1)).
      assert (Hex : wp_existing_cards rp = Some (jp_cards jp)) by (simpl; by destruct c1).
      assert (Hg : wp_guidance rp = Some (refine_guidance jm))
        by apply writer_prompt_guidance, refine_guidance_nonempty.
      destruct (llm_writer ctx ((calls w ++ gens) ++ [CallJudge jp]) rp)
        as [[|c cs]|e] eqn:Ha.
      all: eexists _, _, _, gens; split; [done|]; split; [done|]; split;
        [ cbn [calls with_calls]; rewrite <- !app_assoc, Hjg; unfold judge_calls; simpl; lia | ].
      all: right; exists jp; split; [done|]; split; [done|]; right.
      all: cbn [judge]; split; [done|]; exists rp.
      all: cbn [calls with_calls]; rewrite <- !app_assoc; split; [done|].
      all: split; [done|]; split; [done|].
      all: rewrite !app_assoc, Ha; done.
    + apply negb_false_iff in Hv. eexists _, _, _, gens.
      split; [done|]. split; [done|]. split.
      * cbn [calls with_calls]. rewrite <- !app_assoc, Hjg. unfold judge_calls; simpl; lia.
      * right. exists jp. split; [done|]. split; [done|]. left. done.
Qed.


End PipelineTheorems.

(** ** The card directory *)

Section DirectoryFacts.
Context `{Runtime}.

Lemma cleanup_loop (l : list (ustr * CardNode)) (w : World) :
  for_each (fun e => try_except (unlink_card (fst e)) (fun _ => ret tt)) l w
  = (Ok (map (fun _ => tt) l),
     set_cards_md w (fold_left try_unlink (map fst l) (cards_md w))).
Proof.
  revert w. induction l as [|[name node] l IH]; intros w.
  - by destruct w.
  - cbn [for_each map fold_left fst]. unfold bind, try_except at 1, unlink_card at 1.
    unfold try_unlink at 2.
    destruct (cards_md w !! name) as [n|] eqn:Hn.
    + destruct (unlink_fails n); cbn [ret]; rewrite IH; cbn [ret]; by destruct w.
    + cbn [ret]. rewrite IH. cbn [ret]. by destruct w.
Qed.

Lemma cleanup_cards_run stem w :
  cleanup_cards stem w
  = (Ok tt, set_cards_md w
              (fold_left try_unlink (map fst (glob_cards w (card_pattern stem))) (cards_md w))).
Proof. unfold cleanup_cards, bind. by rewrite cleanup_loop. Qed.

Lemma try_unlink_fold_lookup names D k :
  fold_left try_unlink names D !! k
  = match D !! k with
    | Some n => if bool_decide (k ∈ names) && negb (unlink_fails n) then None else Some n
    | None => None
    end.
Proof.
  revert D. induction names as [|a names IH]; intros D; cbn [fold_left].
  - destruct (D !! k); [|done]. by rewrite bool_decide_eq_false_2 by apply not_elem_of_nil.
  - rewrite IH. unfold try_unlink.
    destruct (decide (a = k)) as [->|Hne].
    + destruct (D !! k) as [n|] eqn:Hk; [|by rewrite Hk].
      destruct (unlink_fails n) eqn:Hu.
      * rewrite Hk, Hu. by rewrite !andb_false_r.
      * rewrite lookup_delete_eq.
        rewrite bool_decide_eq_true_2 by by left. done.
    + assert (Hin : bool_decide (k ∈ a :: names) = bool_decide (k ∈ names)).
      { apply bool_decide_ext. rewrite elem_of_cons. naive_solver. }
      rewrite Hin.
      destruct (D !! a) as [n|]; [|done].
      destruct (unlink_fails n); [done|]. by rewrite lookup_delete_ne.
Qed.

Lemma write_cards_run ctx origin md_hash doc_title stem idx raw_cards w :
  write_cards ctx origin md_hash doc_title stem idx raw_cards w
  = (Ok (map (fun f => created_path ctx (fst f))
            (card_files ctx origin md_hash doc_title stem idx raw_cards)),
     set_cards_md w
       (fold_left put_card (card_files ctx origin md_hash doc_title stem idx raw_cards)
                  (cards_md w))).
Proof.
  revert idx w. induction raw_cards as [|rc rest IH]; intros idx w.
  - by destruct w.
  - cbn [write_cards card_files map fold_left].
    destruct (card_file ctx origin md_hash doc_title stem idx rc) as [name body] eqn:Hf.
    unfold bind, write_card at 1. rewrite IH. cbn [ret fst]. by destruct w.
Qed.

Lemma put_card_fold_dom files D :
  dom (fold_left put_card files D) = dom D ∪ list_to_set (map fst files).
Proof.
  revert D. induction files as [|f files IH]; intros D; cbn [fold_left map list_to_set].
  - set_solver.
  - rewrite IH. unfold put_card. rewrite dom_insert_L. set_solver.
Qed.

(** Every file written holds the text of one of the cards written under its
    name, and the other entries of the directory are as they were. *)
Lemma put_card_fold_lookup files D name :
  (name ∈ map fst files →
     ∃ body n, (name, body) ∈ files
               ∧ fold_left put_card files D !! name = Some n
               ∧ card_content n = Ok body)
  ∧ (name ∉ map fst files → fold_left put_card files D !! name = D !! name).
Proof.
  revert D. induction files as [|[nm bd] files IH]; intros D; cbn [fold_left map fst].
  - split; [by intros ?%elem_of_nil | done].
  - destruct (IH (put_card D (nm, bd))) as [IH1 IH2]. split.
    + intros Hin. destruct (decide (name ∈ map fst files)) as [Hlater|Hnot].
      * destruct (IH1 Hlater) as (body & n & Hb & Hl & Hc).
        exists body, n. split; [by right | done].
      * apply elem_of_cons in Hin as [->|?]; [|done].
        rewrite (IH2 Hnot). unfold put_card. cbn [fst snd]. rewrite lookup_insert_eq.
        eexists bd, _. split; [by left | done].
    + intros Hnot. apply not_elem_of_cons in Hnot as [Hne Hnot].
      rewrite (IH2 Hnot). unfold put_card. cbn [fst]. by rewrite lookup_insert_ne.
Qed.

End DirectoryFacts.

(** ** One document *)

Section UpsertFacts.
Context `{Runtime}.

#[local] Opaque resolve path_of_str joinpath path_str startswith decode_text
  bytes_of u py_truthy.

Lemma load_doc_world ctx rel w : snd (load_doc ctx rel w) = w.
Proof.
  unfold load_doc, raise. destruct (negb _); [done|].
  unfold bind, _resolve_origin, read_text, file_sha256, ret. simpl.
  destruct (negb (startswith _ _)); [done|]. simpl.
  destruct (files w !! _) as [[b|e]|] eqn:Hfile; try done.
  destruct (decode_text b); [|done]. simpl. by rewrite Hfile.
Qed.

Lemma load_doc_ext ctx rel w w' :
  cwd w = cwd w' → files w = files w' →
  fst (load_doc ctx rel w) = fst (load_doc ctx rel w').
Proof.
  intros Hc Hf. unfold load_doc, raise. destruct (negb _); [done|].
  unfold bind, _resolve_origin, read_text, file_sha256, ret. simpl. rewrite Hc.
  destruct (negb (startswith _ _)); [done|]. simpl. rewrite Hf.
  destruct (files w' !! _) as [[b|e]|] eqn:Hfile; try done.
  destruct (decode_text b); [|done]. simpl. by rewrite Hf, Hfile.
Qed.

Lemma synthesize_ok ctx origin doc doc_title w :
  ∃ cq h, synthesize ctx origin doc doc_title w = (Ok cq, with_calls w h).
Proof.
  rewrite synthesize_closed. cbv zeta.
  destruct (is_empty _); [by eexists _, _|].
  destruct (negb _); [|by eexists _, _].
  match goal with
  | |- context [llm_writer ?c ?h ?p] => destruct (llm_writer c h p) as [[|r rs]|e]
  end; by eexists _, _.
Qed.

(** [kb_upsert_cards_for_markdown] in closed form. *)
Lemma upsert_closed ctx rel force w :
  kb_upsert_cards_for_markdown ctx rel force w =
  match fst (load_doc ctx rel w) with
  | Raise e => (Raise e, w)
  | Ok (p, md_text, md_hash) =>
      let stem := path_stem (path_of_str rel) in
      let doc_title := extract_title md_text stem in
      match synthesize ctx rel md_text doc_title (set_cards_md w (cleaned w stem)) with
      | (Ok (raw_cards, q), w2) =>
          let fs := card_files ctx rel md_hash doc_title stem 0 raw_cards in
          (Ok {| up_ok := true; up_skipped := false; up_origin := rel;
                 cards_md_count := length fs;
                 cards_md_files := map (fun f => created_path ctx (fst f)) fs;
                 quality := q |},
           set_cards_md w2 (fold_left put_card fs (cards_md w2)))
      | (Raise e, w2) => (Raise e, w2)
      end
  end.
Proof.
  unfold kb_upsert_cards_for_markdown, load_doc, raise.
  destruct (negb (py_truthy (PStr rel))); [done|].
  unfold bind at 1 2 3 4 5 6. unfold bind at 1 2 3.
  unfold _resolve_origin, read_text, file_sha256. simpl.
  destruct (negb (startswith _ _)); [done|]. simpl.
  destruct (files w !! _) as [[b|e]|] eqn:Hfile; try done.
  destruct (decode_text b) as [md_text|e]; [|done]. simpl.
  rewrite Hfile. simpl. rewrite cleanup_cards_run. fold (cleaned w (path_stem (path_of_str rel))).
  cbv zeta.
  destruct (synthesize_ok ctx rel md_text
              (extract_title md_text (path_stem (path_of_str rel)))
              (set_cards_md w (cleaned w (path_stem (path_of_str rel)))))
    as ([cards q] & h & ->).
  unfold bind. rewrite write_cards_run. cbn [ret]. by rewrite length_map.
Qed.

Lemma upsert_frame ctx rel force w :
  cwd (snd (kb_upsert_cards_for_markdown ctx rel force w)) = cwd w
  ∧ files (snd (kb_upsert_cards_for_markdown ctx rel force w)) = files w.
Proof.
  rewrite upsert_closed. destruct (fst (load_doc ctx rel w)) as [[[p t] h]|e]; [|done].
  cbv zeta.
  destruct (synthesize_ok ctx rel t (extract_title t (path_stem (path_of_str rel)))
              (set_cards_md w (cleaned w (path_stem (path_of_str rel)))))
    as ([cards q] & h' & ->).
  done.
Qed.


#[local] Transparent resolve path_of_str joinpath path_str startswith decode_text
  bytes_of u py_truthy.

End UpsertFacts.

Section UpsertInversion.
Context `{Runtime}.

Lemma load_doc_inv ctx rel w p md_text md_hash :
  fst (load_doc ctx rel w) = Ok (p, md_text, md_hash) →
  rel ≠ []
  ∧ fst (_resolve_origin ctx rel w) = Ok p
  ∧ ∃ b, files w !! parts p = Some (FileBytes b)
         ∧ decode_text b = Ok md_text
         ∧ md_hash = sha256_hexdigest (bytes_of b).
Proof.
  unfold load_doc, raise. destruct rel as [|c rel]; [done|]. cbn [py_truthy negb].
  unfold bind, _resolve_origin, read_text, file_sha256, ret. cbv zeta.
  destruct (negb (startswith _ _)); [done|]. cbv beta iota.
  destruct (files w !! _) as [[b|e]|] eqn:Hfile; try done.
  destruct (decode_text b) as [t|e] eqn:Hd; [|done]. cbv beta iota. rewrite Hfile.
  cbn [fst]. intros [= <- <- <-]. split; [done|]. split; [done|]. by exists b.
Qed.

Lemma card_files_elem ctx origin md_hash doc_title stem idx raw_cards f :
  f ∈ card_files ctx origin md_hash doc_title stem idx raw_cards →
  ∃ i rc, raw_cards !! i = Some rc
          ∧ f = card_file ctx origin md_hash doc_title stem (idx + i) rc.
Proof.
  revert idx. induction raw_cards as [|rc rest IH]; intros idx; cbn [card_files].
  - by intros ?%elem_of_nil.
  - intros [->|Hin]%elem_of_cons.
    + exists 0%nat, rc. by rewrite Nat.add_0_r.
    + destruct (IH _ Hin) as (i & rc' & Hi & ->).
      exists (S i), rc'. split; [done|]. f_equal. lia.
Qed.

Lemma glob_cards_names w pat name :
  name ∈ map fst (glob_cards w pat)
  ↔ ∃ n, cards_md w !! name = Some n ∧ glob_match name pat = true.
Proof.
  unfold glob_cards. rewrite list_elem_of_In, in_map_iff. split.
  - intros ([nm n] & <- & Hin). apply filter_In in Hin as [Hin Hm].
    apply list_elem_of_In, elem_of_map_to_list in Hin. by exists n.
  - intros (n & Hl & Hm). exists (name, n). split; [done|].
    apply filter_In. split; [|done]. by apply list_elem_of_In, elem_of_map_to_list.
Qed.

Lemma cleaned_subseteq w stem : dom (cleaned w stem) ⊆ dom (cards_md w).
Proof.
  intros k Hk. apply elem_of_dom in Hk as [n Hn]. apply elem_of_dom.
  unfold cleaned in Hn. rewrite try_unlink_fold_lookup in Hn.
  destruct (cards_md w !! k) as [c|]; [by exists c | discriminate Hn].
Qed.

(** What the cleanup leaves of the files that match the pattern: those
    whose removal failed. *)
Lemma cleaned_match w stem name n :
  cleaned w stem !! name = Some n →
  glob_match name (card_pattern stem) = true →
  cards_md w !! name = Some n ∧ unlink_fails n = true.
Proof.
  unfold cleaned. rewrite try_unlink_fold_lookup.
  destruct (cards_md w !! name) as [n'|] eqn:Hn; [|done]. intros Hl Hm.
  assert (Hin : name ∈ map fst (glob_cards w (card_pattern stem))).
  { apply glob_cards_names. by exists n'. }
  rewrite bool_decide_eq_true_2 in Hl by done. cbn [andb] in Hl.
  destruct (unlink_fails n') eqn:Hu; [|done]. simpl in Hl. by simplify_eq.
Qed.

(** With a service whose answers do not depend on the calls made before,
    the cards and the quality report of a synthesis do not depend on the
    world it runs in. *)
Lemma synthesize_fixed ctx origin doc doc_title w w' :
  (∀ h h' p, llm_writer ctx h p = llm_writer ctx h' p) →
  (∀ h h' p, llm_judge ctx h p = llm_judge ctx h' p) →
  fst (synthesize ctx origin doc doc_title w) = fst (synthesize ctx origin doc doc_title w').
Proof.
  intros Hw Hj. rewrite !synthesize_closed. cbv zeta.
  rewrite (Hw (calls w') (calls w)).
  rewrite (Hw (calls w' ++ _) (calls w ++ [CallWriter (_writer_prompt ctx origin doc None None)])).
  set (c0 := gen_answer _). set (c1 := if needs_retry c0 then _ else _).
  destruct (is_empty c1); [done|].
  unfold judge_verdict.
  set (h2 := if needs_retry c0 then _ else _).
  set (h2' := if needs_retry c0 then _ else _).
  rewrite (Hj h2' h2).
  set (jm := _sanitize_judge_meta doc _).
  destruct (negb _); [|done].
  rewrite (Hw (h2' ++ _) (h2 ++ [CallJudge (_judge_prompt origin doc c1)])).
  match goal with
  | |- context [llm_writer ?c (?h ++ [CallJudge ?j]) ?p] =>
      destruct (llm_writer c (h ++ [CallJudge j]) p) as [[|r rs]|e]
  end; done.
Qed.

End UpsertInversion.

(** ** Path containment *)

(** What [_resolve_origin] checks: the string of the resolved path starts
    with the string of the resolved root.  The world is never changed. *)
Lemma resolve_origin_check (ctx : ToolContext) (rel_path : ustr) (w : World) :
  let p := resolve (cwd w) (joinpath (origins_dir (kb ctx)) (path_of_str rel_path)) in
  let root := resolve (cwd w) (origins_dir (kb ctx)) in
  snd (_resolve_origin ctx rel_path w) = w
  ∧ (startswith (path_str p) (path_str root) = true →
       fst (_resolve_origin ctx rel_path w) = Ok p)
  ∧ (startswith (path_str p) (path_str root) = false →
       fst (_resolve_origin ctx rel_path w)
       = Raise (Exc s_ValueError (u "Path escapes origins_dir"))).
Proof.
  intros p root. unfold _resolve_origin. fold p root.
  destruct (startswith (path_str p) (path_str root)); by repeat split.
Qed.

(** ** The corpus *)

Section SyncFacts.
Context `{Runtime}.

Lemma origin_rel_world ctx md w : snd (_origin_rel ctx md w) = w.
Proof. unfold _origin_rel. by destruct (relative_to _ _). Qed.

Lemma origin_rel_ext ctx md w w' :
  cwd w = cwd w' → fst (_origin_rel ctx md w) = fst (_origin_rel ctx md w').
Proof. intros Hc. unfold _origin_rel. rewrite Hc. by destruct (relative_to _ _). Qed.




End SyncFacts.

Section CorpusTheorems.
Context `{Runtime}.


End CorpusTheorems.

(** ** Card files *)

Section CardFileTheorems.
Context `{Runtime}.

(** The three forms of a written description. *)
Lemma card_description_form rc :
  let d := strip (description rc) in
  (d = [] ∧ card_description rc = [])
  ∨ (d ≠ [] ∧ startswith (str_lower d) s_lead_in_lower = true
     ∧ card_description rc = d)
  ∨ (d ≠ [] ∧ startswith (str_lower d) s_lead_in_lower = false
     ∧ card_description rc = s_lead_in ++ s_space ++ rstrip_char c_dot d ++ s_dot).
Proof.
  intros d. unfold card_description. fold d.
  destruct d as [|c d']; [by left|]. right. cbn [py_truthy andb].
  destruct (startswith _ _); [by left | by right].
Qed.

(** C8 (amended). Card file serialization.  Every file that a synthesis
    reports as written holds one of its cards in the fixed layout: the
    description between [--] delimiters, a blank line, the stripped body, a
    blank line, and the provenance comment
    [<!-- source: <origin-dir>/<relative-path> source_sha256: <digest> -->]
    with the SHA-256 digest of the bytes of the source document.  The
    description written is the stripped description of the card, which is
    given the lead-in (and one final full stop) when it is not empty and
    does not already start with the lead-in, compared in lower case; an
    empty description is written empty, without the lead-in. *)
Theorem c8_card_file_serialization (ctx : ToolContext) (rel : ustr) (force : bool)
    (w w' : World) (r : UpsertResult) :
  kb_upsert_cards_for_markdown ctx rel force w = (Ok r, w') →
  ∃ p md_text b,
    fst (_resolve_origin ctx rel w) = Ok p
    ∧ files w !! parts p = Some (FileBytes b)
    ∧ decode_text b = Ok md_text
    ∧ ∀ path, path ∈ cards_md_files r →
        ∃ name rc n,
          path = created_path ctx name
          ∧ cards_md w' !! name = Some n
          ∧ card_content n
            = Ok (card_layout (path_name (origins_dir (kb ctx))) rel
                    (sha256_hexdigest (bytes_of b))
                    (card_description rc) (strip (content_md rc)))
          ∧ let d := strip (description rc) in
            (d = [] ∧ card_description rc = [])
            ∨ (d ≠ [] ∧ startswith (str_lower d) s_lead_in_lower = true
               ∧ card_description rc = d)
            ∨ (d ≠ [] ∧ startswith (str_lower d) s_lead_in_lower = false
               ∧ card_description rc
                 = s_lead_in ++ s_space ++ rstrip_char c_dot d ++ s_dot).
Proof.
  intros Hup. rewrite upsert_closed in Hup.
  destruct (fst (load_doc ctx rel w)) as [[[p t] h]|e] eqn:Hl; [|done].
  cbv zeta in Hup.
  destruct (synthesize_ok ctx rel t (extract_title t (path_stem (path_of_str rel)))
              (set_cards_md w (cleaned w (path_stem (path_of_str rel)))))
    as ([cards q] & h' & Hs).
  rewrite Hs in Hup. injection Hup as <- <-.
  apply load_doc_inv in Hl as (_ & Hres & b & Hfile & Hdec & ->).
  exists p, t, b. split; [done|]. split; [done|]. split; [done|].
  intros path Hpath. cbn [cards_md_files] in Hpath.
  apply list_elem_of_fmap in Hpath as ([name body0] & -> & Hf).
  set (fs := card_files _ _ _ _ _ _ _) in *.
  assert (Hname : name ∈ map fst fs).
  { apply list_elem_of_fmap. by exists (name, body0). }
  destruct (put_card_fold_lookup fs (cleaned w (path_stem (path_of_str rel))) name)
    as [Hput _].
  destruct (Hput Hname) as (body & n & Hb & Hlook & Hcont).
  apply card_files_elem in Hb as (i & rc & _ & Hfile').
  exists name, rc, n. split; [done|]. split; [done|]. split.
  - rewrite Hcont. unfold card_file in Hfile'. by injection Hfile' as _ ->.
  - apply card_description_form.
Qed.

(** C6. Idempotence.  The file name of a card is
    [card_<id>_<stem>.md], where the id is [card_id] of the relative path,
    the fingerprint of the document, the index and the title of the card:
    the first twelve digits of the digest of
    [<relative path>:<fingerprint>:<index>:<title>], a function of that
    tuple alone.  With a generator and a validator whose answers do not
    depend on the calls made before, running the synthesis of a document a
    second time, on the world the first run left, returns the same file
    paths and the same quality report; the card directory gains no entry;
    and an entry that matches the pattern of the document and was not
    written again is one whose removal failed. *)
Theorem c6_idempotence (ctx : ToolContext) (rel : ustr) (force : bool)
    (w w1 : World) (r1 : UpsertResult) :
  (∀ h h' p, llm_writer ctx h p = llm_writer ctx h' p) →
  (∀ h h' p, llm_judge ctx h p = llm_judge ctx h' p) →
  kb_upsert_cards_for_markdown ctx rel force w = (Ok r1, w1) →
  ∃ (r2 : UpsertResult) (w2 : World) (fs : list (ustr * ustr)) p md_text md_hash,
    kb_upsert_cards_for_markdown ctx rel force w1 = (Ok r2, w2)
    ∧ r2 = r1
    ∧ cards_md_files r1 = map (fun f => created_path ctx (fst f)) fs
    ∧ fst (load_doc ctx rel w) = Ok (p, md_text, md_hash)
    ∧ (∀ f, f ∈ fs → ∃ idx rc,
         let stem := path_stem (path_of_str rel) in
         fst f = md_filename
                   (card_id rel md_hash idx
                      (card_title (extract_title md_text stem) idx rc))
                   stem)
    ∧ list_to_set (map fst fs) ⊆ dom (cards_md w2)
    ∧ dom (cards_md w2) ⊆ dom (cards_md w1)
    ∧ ∀ name n, cards_md w2 !! name = Some n →
        glob_match name (card_pattern (path_stem (path_of_str rel))) = true →
        name ∈ map fst fs
        ∨ (cards_md w1 !! name = Some n ∧ unlink_fails n = true).
Proof.
  intros Hw Hj Hup. rewrite upsert_closed in Hup.
  destruct (fst (load_doc ctx rel w)) as [[[p t] h]|e] eqn:Hl; [|done].
  cbv zeta in Hup.
  set (stem := path_stem (path_of_str rel)) in *.
  set (doc_title := extract_title t stem) in *.
  destruct (synthesize_ok ctx rel t doc_title (set_cards_md w (cleaned w stem)))
    as ([cards q] & h' & Hs).
  rewrite Hs in Hup. injection Hup as <- <-.
  set (fs := card_files ctx rel h doc_title stem 0 cards).
  set (w1 := set_cards_md _ _).
  assert (Hl1 : fst (load_doc ctx rel w1) = Ok (p, t, h)).
  { rewrite <- Hl. by apply load_doc_ext. }
  destruct (synthesize_ok ctx rel t doc_title (set_cards_md w1 (cleaned w1 stem)))
    as ([cards2 q2] & h2 & Hs2).
  assert (Hsame : (cards2, q2) = (cards, q)).
  { pose proof (synthesize_fixed ctx rel t doc_title
                  (set_cards_md w1 (cleaned w1 stem)) (set_cards_md w (cleaned w stem))
                  Hw Hj) as Hfx.
    rewrite Hs, Hs2 in Hfx. cbn [fst] in Hfx. congruence. }
  injection Hsame as -> ->.
  eexists _, _, fs, p, t, h.
  rewrite upsert_closed, Hl1. cbv zeta. fold stem doc_title. rewrite Hs2.
  fold fs. split; [reflexivity|]. split; [done|]. split; [done|]. split; [done|].
  cbn [cards_md set_cards_md with_calls].
  split; [|split; [|split]].
  - intros f Hf. apply card_files_elem in Hf as (i & rc & _ & ->).
    unfold card_file. cbn [fst]. by eexists _, _.
  - rewrite put_card_fold_dom. set_solver.
  - rewrite put_card_fold_dom.
    assert (Hd1 : dom (cards_md w1) = dom (cleaned w stem) ∪ list_to_set (map fst fs)).
    { unfold w1. cbn [cards_md set_cards_md with_calls]. apply put_card_fold_dom. }
    pose proof (cleaned_subseteq w1 stem). set_solver.
  - intros name n Hlook Hmatch.
    destruct (decide (name ∈ map fst fs)) as [Hin|Hnot]; [by left | right].
    destruct (put_card_fold_lookup fs (cleaned w1 stem) name) as [_ Hkeep].
    rewrite (Hkeep Hnot) in Hlook. by apply (cleaned_match w1 stem).
Qed.

End CardFileTheorems.

(** ** Coverage *)

Lemma extract_sha_length text s :
  _extract_sha_from_md_card text = Ok (Some s) → (32 ≤ length s)%nat.
Proof.
  unfold _extract_sha_from_md_card.
  destruct (after_last _ _); [|done].
  destruct (split_ws _) as [|tok ?]; [done|].
  destruct (32 <=? length (strip tok))%nat eqn:Hl; [|done].
  intros [= <-]. by apply Nat.leb_le.
Qed.

Lemma card_current_iff h node :
  card_current h node = true ↔ card_sha node = Ok (Some h).
Proof.
  unfold card_current. destruct (card_sha node) as [[s|]|e]; try (split; done).
  unfold ustr_eqb. rewrite bool_decide_eq_true. split; [by intros -> | by intros [= ->]].
Qed.

Lemma sha_mismatch_current h node sha :
  card_sha node = Ok sha → sha_mismatch sha h = negb (card_current h node).
Proof.
  intros Hs. unfold card_current. rewrite Hs. destruct sha as [s|]; [|done].
  unfold sha_mismatch. assert (Hlen : (32 ≤ length s)%nat).
  { unfold card_sha in Hs. destruct (read_card node); [|done].
    by apply extract_sha_length in Hs. }
  destruct s; [simpl in Hlen; lia|]. done.
Qed.

Lemma scan_cards_first_bad rel h card_files :
  scan_cards rel h card_files
  = match first_bad h card_files with
    | Some (name, node) =>
        (true, match card_sha node with
               | Raise e => [invalid_entry rel name e]
               | Ok _ => []
               end)
    | None => (false, [])
    end.
Proof.
  unfold first_bad. induction card_files as [|[name node] rest IH]; [done|].
  cbn [scan_cards find snd].
  destruct (card_sha node) as [sha|e] eqn:Hs.
  - rewrite (sha_mismatch_current h node sha Hs).
    destruct (negb (card_current h node)); [|done]. by rewrite Hs.
  - unfold card_current. rewrite Hs. cbn [negb]. by rewrite Hs.
Qed.

Section CoverageTheorems.
Context `{Runtime}.


End CoverageTheorems.

(* ===================================================================== *)
(** * Part VIII-b. Further properties of the code *)
(* ===================================================================== *)

(** ** Whitespace normalization *)

Lemma split_go_word_prefix h w s :
  no_space h = true → split_go w (h ++ s) = split_go (rev h ++ w) s.
Proof.
  revert w. induction h as [|c h IH]; intros w Hh; [done|].
  cbn [no_space forallb] in Hh. apply andb_true_iff in Hh as [Hc Hh].
  apply negb_true_iff in Hc. cbn [app split_go]. rewrite Hc, IH by done.
  cbn [rev]. by rewrite <- app_assoc.
Qed.

Lemma split_go_words w s :
  no_space w = true → Forall is_word (split_go w s).
Proof.
  assert (Hrev : ∀ a x, no_space (a :: x) = true → is_word (rev (a :: x))).
  { intros a x Hx. split.
    - cbn [rev]. intros Hn. by apply app_eq_nil in Hn as [_ ?].
    - unfold no_space in *. rewrite forallb_forall in *. intros c Hc.
      apply Hx. by apply in_rev. }
  revert w. induction s as [|c s IH]; intros w Hw; cbn [split_go].
  - destruct w as [|a w]; [constructor|]. constructor; [by apply Hrev | constructor].
  - destruct (is_space c) eqn:Hc.
    + destruct w as [|a w]; [by apply IH|]. constructor; [by apply Hrev | by apply IH].
    + apply IH. cbn [no_space forallb]. by rewrite Hc.
Qed.

Lemma join_cons2 (sep p q : ustr) (l : list ustr) :
  join sep (p :: q :: l) = p ++ sep ++ join sep (q :: l).
Proof. done. Qed.

Lemma split_ws_join ws :
  Forall is_word ws → split_ws (join s_space ws) = ws.
Proof.
  unfold split_ws. induction 1 as [|p ws [Hne Hp] Hws IH]; [done|].
  assert (Hrp : rev p ≠ []).
  { intros Hn. apply Hne. by rewrite <- (rev_involutive p), Hn. }
  destruct ws as [|q ws].
  - cbn [join]. pose proof (split_go_word_prefix p [] [] Hp) as Hs.
    rewrite !app_nil_r in Hs. rewrite Hs. cbn [split_go].
    destruct (rev p) eqn:Hr; [done|].
    cbv iota. by rewrite <- Hr, rev_involutive.
  - rewrite join_cons2, split_go_word_prefix by done. rewrite app_nil_r.
    cbn [s_space app split_go].
    replace (is_space 32) with true by done. cbv iota.
    destruct (rev p) eqn:Hr; [done|]. cbv iota. rewrite <- Hr, rev_involutive.
    by rewrite IH.
Qed.

(** X1. [_normalize_ws] is idempotent: normalizing a normalized text
    changes nothing. *)
Theorem normalize_ws_idempotent (s : ustr) :
  _normalize_ws (_normalize_ws s) = _normalize_ws s.
Proof.
  unfold _normalize_ws at 1 2. rewrite split_ws_join; [done|].
  by apply split_go_words.
Qed.

Lemma split_go_nil_spaces ws b :
  all_space ws = true → split_go [] (ws ++ b) = split_go [] b.
Proof.
  induction ws as [|c ws IH]; intros Hws; [done|].
  cbn [all_space forallb] in Hws. apply andb_true_iff in Hws as [Hc Hws].
  cbn [app split_go]. rewrite Hc. by apply IH.
Qed.

Lemma split_go_space_run w a ws b :
  all_space ws = true → ws ≠ [] →
  split_go w (a ++ ws ++ b) = split_go w (a ++ 32 :: b).
Proof.
  intros Hws Hne. revert w. induction a as [|c a IH]; intros w.
  - destruct ws as [|c ws]; [done|].
    cbn [all_space forallb] in Hws. apply andb_true_iff in Hws as [Hc Hws].
    cbn [app split_go]. rewrite Hc. replace (is_space 32) with true by done.
    by rewrite split_go_nil_spaces.
  - cbn [app split_go]. by rewrite !IH.
Qed.

Lemma join_length_cons (sep p : ustr) (l : list ustr) :
  (length (join sep (p :: l)) ≤ length p + length sep + length (join sep l))%nat.
Proof.
  destruct l as [|q l]; [cbn [join]; lia|].
  rewrite join_cons2, !length_app. lia.
Qed.

Lemma split_go_join_length w s :
  (length (join s_space (split_go w s)) ≤ length w + length s)%nat.
Proof.
  revert w. induction s as [|c s IH]; intros w; cbn [split_go].
  - destruct w as [|a w]; [cbn; lia|]. cbn [join]. rewrite length_rev. lia.
  - destruct (is_space c).
    + destruct w as [|a w].
      * specialize (IH []). cbn [length] in *. lia.
      * pose proof (join_length_cons s_space (rev (a :: w)) (split_go [] s)) as Hj.
        specialize (IH []). rewrite length_rev in Hj. cbn [length s_space] in *. lia.
    + specialize (IH (c :: w)). cbn [length] in *. lia.
Qed.

Lemma lstrip_clean (s : ustr) :
  (∀ c x, s = c :: x → is_space c = false) → lstrip s = s.
Proof.
  destruct s as [|c s]; [done|]. intros Hc. cbn [lstrip].
  by rewrite (Hc c s eq_refl).
Qed.

Lemma no_space_clean (s : ustr) :
  no_space s = true → ∀ c x, s = c :: x → is_space c = false.
Proof.
  intros Hs c x ->. cbn [no_space forallb] in Hs.
  apply andb_true_iff in Hs as [Hc _]. by apply negb_true_iff.
Qed.

Lemma no_space_rev (s : ustr) : no_space (rev s) = no_space s.
Proof.
  unfold no_space. apply eq_true_iff_eq. rewrite !forallb_forall.
  split; intros Hs c Hc; apply Hs; [by rewrite <- in_rev | by rewrite in_rev].
Qed.

Lemma join_words_nonempty (sep p : ustr) l : p ≠ [] → join sep (p :: l) ≠ [].
Proof.
  intros Hp. destruct l; [done|]. rewrite join_cons2. intros Hn.
  by apply app_eq_nil in Hn as [? _].
Qed.

Lemma join_words_clean ws :
  Forall is_word ws →
  (∀ c x, join s_space ws = c :: x → is_space c = false)
  ∧ (∀ c x, rev (join s_space ws) = c :: x → is_space c = false).
Proof.
  induction 1 as [|p ws [Hne Hp] Hws [IH1 IH2]]; [done|].
  assert (Hfirst : ∀ (y : ustr) c x, p ++ y = c :: x → is_space c = false).
  { intros y c x Hy. destruct p as [|d p]; [done|]. cbn [app] in Hy.
    injection Hy as Hd _. subst c. by eapply no_space_clean. }
  destruct ws as [|q ws].
  - cbn [join]. split.
    + intros c x Hx. apply (Hfirst [] c x). by rewrite app_nil_r.
    + apply no_space_clean. by rewrite no_space_rev.
  - rewrite join_cons2. split; [apply Hfirst|].
    rewrite !rev_app_distr, <- app_assoc. intros c x Hx.
    inversion Hws as [|? ? [Hq _] _]; subst.
    destruct (rev (join s_space (q :: ws))) as [|d y] eqn:Hr.
    + exfalso. apply (join_words_nonempty s_space q ws Hq).
      by rewrite <- (rev_involutive (join _ _)), Hr.
    + cbn [app] in Hx. injection Hx as Hd _. subst c. by apply (IH2 d y).
Qed.

Lemma strip_join_words ws :
  Forall is_word ws → strip (join s_space ws) = join s_space ws.
Proof.
  intros Hws. destruct (join_words_clean ws Hws) as [H1 H2].
  unfold strip, rstrip. rewrite (lstrip_clean _ H1), (lstrip_clean _ H2).
  apply rev_involutive.
Qed.

Lemma join_words_spaces ws c :
  Forall is_word ws → c ∈ join s_space ws → is_space c = true → c = 32.
Proof.
  induction 1 as [|p ws [Hne Hp] Hws IH]; [by intros ?%elem_of_nil|].
  assert (Hin : c ∈ p → is_space c = true → c = 32).
  { intros Hc Hsp. unfold no_space in Hp. rewrite forallb_forall in Hp.
    apply list_elem_of_In, Hp in Hc. by rewrite Hsp in Hc. }
  destruct ws as [|q ws]; [done|].
  rewrite join_cons2, !elem_of_app. intros [Hc|[Hc|Hc]]; [by apply Hin| |by apply IH].
  apply list_elem_of_singleton in Hc. by intros _.
Qed.

(** X2. The shape of a normalized text: it is stripped, its only
    whitespace characters are single spaces (U+0020), never two in a row,
    and it is no longer than the text it was made from. *)
Theorem normalize_ws_shape (s : ustr) :
  let n := _normalize_ws s in
  strip n = n
  ∧ (∀ c, c ∈ n → is_space c = true → c = 32)
  ∧ (∀ a b, n ≠ a ++ [32; 32] ++ b)
  ∧ (length n ≤ length s)%nat.
Proof.
  intros n. assert (Hws : Forall is_word (split_ws s)) by by apply split_go_words.
  split; [by apply strip_join_words|]. split; [intros c; by apply join_words_spaces|].
  split; [|apply (split_go_join_length [] s)].
  intros a b Hn.
  assert (Hid : _normalize_ws n = n).
  { unfold n, _normalize_ws at 1 2. by rewrite split_ws_join. }
  rewrite Hn in Hid at 1. unfold _normalize_ws at 1, split_ws in Hid.
  rewrite (split_go_space_run [] a [32; 32] b) in Hid by done.
  pose proof (split_go_join_length [] (a ++ 32 :: b)) as Hlen.
  rewrite Hid, Hn, !length_app in Hlen. cbn [length] in Hlen. lia.
Qed.

(** X3. Whitespace is compared by position only: replacing a non-empty run
    of whitespace characters of any kind (spaces, tabs, line breaks,
    no-break spaces) by one space does not change the normalized text. *)
Theorem normalize_ws_space_run (a ws b : ustr) :
  all_space ws = true → ws ≠ [] →
  _normalize_ws (a ++ ws ++ b) = _normalize_ws (a ++ s_space ++ b).
Proof.
  intros Hws Hne. unfold _normalize_ws, split_ws. f_equal.
  by apply split_go_space_run.
Qed.

(** ** The sanitizer, applied twice *)

Section SanitizerTwice.
Context `{Runtime}.

Lemma filter_filter_same {A} (f : A → bool) (l : list A) :
  List.filter f (List.filter f l) = List.filter f l.
Proof.
  induction l as [|x l IH]; [done|]. cbn [List.filter].
  destruct (f x) eqn:Hx; [|done]. cbn [List.filter]. by rewrite Hx, IH.
Qed.

Lemma filter_negb_filter {A} (f : A → bool) (l : list A) :
  List.filter (fun x => negb (f x)) (List.filter f l) = [].
Proof.
  induction l as [|x l IH]; [done|]. cbn [List.filter].
  destruct (f x) eqn:Hx; [|done]. cbn [List.filter]. by rewrite Hx.
Qed.

Lemma sanitized_missing doc_text jm :
  _sanitize_judge_meta doc_text (PDict jm) !! k_missing
  = Some (PList (List.filter (item_kept doc_text) (missing_in jm))).
Proof.
  destruct keys_distinct as (K1 & K2 & K3 & K4 & K5 & K6).
  rewrite sanitize_dict. cbv zeta.
  destruct (flips doc_text jm), (negb _);
    rewrite ?(lookup_insert_ne _ k_ok_sanitized_overridden) by done;
    rewrite ?(lookup_insert_ne _ k_ok) by done;
    rewrite ?(lookup_insert_ne _ k_missing_sanitized_removed) by done;
    by rewrite lookup_insert_eq.
Qed.

Lemma sanitized_ok doc_text jm :
  dict_get (_sanitize_judge_meta doc_text (PDict jm)) k_ok (PBool false)
  = if flips doc_text jm then PBool true else dict_get jm k_ok (PBool false).
Proof.
  destruct keys_distinct as (K1 & K2 & K3 & K4 & K5 & K6).
  rewrite sanitize_dict. cbv zeta. unfold dict_get.
  destruct (flips doc_text jm), (negb _);
    rewrite ?(lookup_insert_ne _ k_ok_sanitized_overridden) by done;
    rewrite ?lookup_insert_eq;
    rewrite ?(lookup_insert_ne _ k_missing_sanitized_removed) by done;
    rewrite ?(lookup_insert_ne _ k_missing) by done; done.
Qed.

(** The second pass, in terms of the first. *)
Lemma sanitize_second_pass doc_text jm :
  let out := _sanitize_judge_meta doc_text (PDict jm) in
  _sanitize_judge_meta doc_text (PDict out)
  = if flips doc_text out
    then <[k_ok_sanitized_overridden := PBool true]> (<[k_ok := PBool true]> out)
    else out.
Proof.
  intros out. rewrite (sanitize_dict doc_text out). cbv zeta.
  pose proof (sanitized_missing doc_text jm) as Hm. fold out in Hm.
  rewrite (missing_in_list out _ Hm).
  unfold removed_count. rewrite filter_filter_same, filter_negb_filter.
  cbn [length Z.of_nat Z.eqb negb]. by rewrite (insert_id out _ _ Hm).
Qed.

(** X4. The sanitizer is idempotent on a report exactly when its
    [missing] is a list or its verdict is positive.  On a negative report
    whose [missing] is absent or not a list, the first pass stores an empty
    list and leaves the verdict, and a second pass then flips it. *)
Theorem sanitize_idempotent_iff (doc_text : ustr) (jm : gmap ustr pyval) :
  let out := _sanitize_judge_meta doc_text (PDict jm) in
  (_sanitize_judge_meta doc_text (PDict out) = out
   ↔ (is_list (dict_get jm k_missing PNone) = true
      ∨ py_truthy (dict_get jm k_ok (PBool false)) = true))
  ∧ (is_list (dict_get jm k_missing PNone) = false →
     py_truthy (dict_get jm k_ok (PBool false)) = false →
     out !! k_missing = Some (PList [])
     ∧ py_truthy (dict_get out k_ok (PBool false)) = false
     ∧ _sanitize_judge_meta doc_text (PDict out) !! k_ok = Some (PBool true)).
Proof.
  intros out.
  pose proof (sanitize_second_pass doc_text jm) as H2. cbv zeta in H2. fold out in H2.
  pose proof (sanitized_missing doc_text jm) as Hm. fold out in Hm.
  pose proof (sanitized_ok doc_text jm) as Hok. fold out in Hok.
  assert (Hfl : flips doc_text out
                = negb (py_truthy (dict_get jm k_ok (PBool false)))
                  && is_empty (List.filter (item_kept doc_text) (missing_in jm))
                  && negb (is_list (dict_get jm k_missing PNone))).
  { unfold flips at 1. rewrite Hok, (missing_in_list out _ Hm), filter_filter_same.
    unfold dict_get at 2. rewrite Hm. cbn [default is_list]. rewrite andb_true_r.
    unfold flips.
    destruct (py_truthy (dict_get jm k_ok (PBool false))) eqn:Hj; cbn [negb andb];
      [by rewrite Hj|].
    destruct (is_empty _); cbn [andb]; [|by rewrite Hj].
    destruct (is_list _); cbn [negb py_truthy]; [done | by rewrite Hj]. }
  assert (Hkept : is_list (dict_get jm k_missing PNone) = false →
                  List.filter (item_kept doc_text) (missing_in jm) = []).
  { unfold missing_in, py_or. intros Hl.
    destruct (dict_get jm k_missing PNone) as [|b|z|t|l|d]; try done.
    - by destruct b.
    - by destruct z.
    - by destruct t.
    - simpl. by destruct (map_to_list d). }
  assert (Hne : flips doc_text out = true →
                _sanitize_judge_meta doc_text (PDict out) !! k_ok = Some (PBool true)).
  { intros Hf. rewrite H2, Hf.
    destruct keys_distinct as (K1 & K2 & K3 & K4 & K5 & K6).
    rewrite lookup_insert_ne by done. by rewrite lookup_insert_eq. }
  split.
  - split.
    + intros Heq.
      destruct (is_list (dict_get jm k_missing PNone)) eqn:Hl; [by left|]. right.
      destruct (py_truthy (dict_get jm k_ok (PBool false))) eqn:Hj; [done|]. exfalso.
      assert (Hf : flips doc_text out = true).
      { by rewrite Hfl, (Hkept eq_refl). }
      specialize (Hne Hf). rewrite Heq in Hne.
      assert (Hf1 : flips doc_text jm = false).
      { unfold flips. rewrite Hl. by rewrite andb_false_r. }
      rewrite Hf1 in Hok. unfold dict_get at 1 in Hok. rewrite Hne in Hok.
      cbn [default] in Hok. by rewrite <- Hok in Hj.
    + intros Hcase. rewrite H2, Hfl.
      destruct Hcase as [-> | ->]; [by rewrite andb_false_r | done].
  - intros Hl Hj. rewrite Hm, (Hkept Hl). split; [done|]. split.
    + rewrite Hok. unfold flips. rewrite Hl. by rewrite andb_false_r.
    + apply Hne. by rewrite Hfl, Hj, Hl, (Hkept Hl).
Qed.

End SanitizerTwice.

(** ** The fingerprint of a card file *)

Lemma after_last_none_iff p s : after_last p s = None ↔ str_in p s = false.
Proof.
  induction s as [|c s IH].
  - cbn [after_last str_in]. rewrite orb_false_r. by destruct (startswith [] p).
  - cbn [after_last str_in]. destruct (after_last p s) as [t|].
    + assert (Hs : str_in p s = true).
      { destruct (str_in p s); [done|]. by destruct IH as [_ IH]; specialize (IH eq_refl). }
      rewrite Hs, orb_true_r. split; done.
    + destruct IH as [IH _]. rewrite (IH eq_refl), orb_false_r.
      by destruct (startswith (c :: s) p).
Qed.

(** [after_last p s] is what follows the last occurrence of [p] in [s]. *)
Lemma after_last_spec p s t :
  p ≠ [] →
  after_last p s = Some t
  ↔ ∃ a, s = a ++ p ++ t ∧ str_in p (tail (p ++ t)) = false.
Proof.
  intros Hp. split.
  - revert t. induction s as [|c s IH]; intros t.
    + cbn [after_last]. destruct p; [done|]. done.
    + cbn [after_last]. destruct (after_last p s) as [t'|] eqn:Hs.
      * intros [= ->]. destruct (IH t eq_refl) as (a & -> & Hlast).
        by exists (c :: a).
      * destruct (startswith (c :: s) p) eqn:Hsw; [|done]. intros [= <-].
        apply startswith_spec in Hsw as [t0 Ht0]. exists [].
        rewrite Ht0, drop_app_length. split; [done|].
        rewrite <- Ht0. cbn [tail]. by apply after_last_none_iff.
  - intros (a & -> & Hlast). induction a as [|c a IH].
    + destruct (p ++ t) as [|c s] eqn:Hpt.
      { by apply app_eq_nil in Hpt as [? _]. }
      cbn [app after_last]. cbn [tail] in Hlast.
      apply after_last_none_iff in Hlast. rewrite Hlast.
      assert (Hsw : startswith (c :: s) p = true).
      { apply startswith_spec. by exists t. }
      by rewrite Hsw, <- Hpt, drop_app_length.
    + cbn [app after_last]. by rewrite IH.
Qed.

Lemma split_ws_strip s : split_ws (strip s) = split_ws s.
Proof.
  unfold split_ws, strip.
  destruct (rstrip_decomp (lstrip s)) as (t & Ht & Hsp).
  rewrite <- (split_go_lstrip s). rewrite Ht at 2.
  by rewrite split_go_app_spaces.
Qed.

Lemma strip_word tok : is_word tok → strip tok = tok.
Proof.
  intros Hw. apply (strip_join_words [tok]). by constructor.
Qed.

(** X5. The outcomes of [_extract_sha_from_md_card].  A text without the
    label gives [None].  Otherwise the text after the last label decides:
    if it is blank, [tail.split()[0]] raises [IndexError]; if not, its first
    word is returned when it has 32 characters or more, and [None] when it
    is shorter.  The function raises in no other case. *)
Theorem extract_sha_outcomes (text : ustr) :
  (str_in s_marker_sha text = false → _extract_sha_from_md_card text = Ok None)
  ∧ (∀ rest, after_last s_marker_sha text = Some rest →
       (∃ a, text = a ++ s_marker_sha ++ rest
             ∧ str_in s_marker_sha (tail (s_marker_sha ++ rest)) = false)
       ∧ if all_space rest
         then _extract_sha_from_md_card text
              = Raise (Exc s_IndexError (u "list index out of range"))
         else ∃ tok more,
                split_ws rest = tok :: more ∧ is_word tok
                ∧ _extract_sha_from_md_card text
                  = Ok (if (32 <=? length tok)%nat then Some tok else None))
  ∧ (is_ok (_extract_sha_from_md_card text) = false
     ↔ ∃ rest, after_last s_marker_sha text = Some rest ∧ all_space rest = true).
Proof.
  assert (Hcase : ∀ rest, after_last s_marker_sha text = Some rest →
    if all_space rest
    then _extract_sha_from_md_card text
         = Raise (Exc s_IndexError (u "list index out of range"))
    else ∃ tok more,
           split_ws rest = tok :: more ∧ is_word tok
           ∧ _extract_sha_from_md_card text
             = Ok (if (32 <=? length tok)%nat then Some tok else None)).
  { intros rest Hr. unfold _extract_sha_from_md_card. rewrite Hr, split_ws_strip.
    pose proof (split_go_words [] rest eq_refl) as Hw.
    pose proof (split_go_nil_iff [] rest) as Hnil. fold (split_ws rest) in Hw, Hnil.
    destruct (split_ws rest) as [|tok more].
    - destruct Hnil as [Hnil _]. destruct (Hnil eq_refl) as [_ ->]. done.
    - destruct (all_space rest).
      { by destruct Hnil as [_ Hnil]; specialize (Hnil (conj eq_refl eq_refl)). }
      inversion Hw as [|? ? Htok _]; subst. exists tok, more.
      rewrite (strip_word tok Htok). split; [done|]. split; [done|].
      by destruct (32 <=? length tok)%nat. }
  split; [|split].
  - intros Hno. apply after_last_none_iff in Hno.
    unfold _extract_sha_from_md_card. by rewrite Hno.
  - intros rest Hr. split; [by apply after_last_spec in Hr | by apply Hcase].
  - split.
    + intros Hraise. destruct (after_last s_marker_sha text) as [rest|] eqn:Hr.
      * exists rest. split; [done|]. specialize (Hcase rest eq_refl).
        destruct (all_space rest); [done|].
        destruct Hcase as (tok & more & _ & _ & Hex). by rewrite Hex in Hraise.
      * unfold _extract_sha_from_md_card in Hraise. by rewrite Hr in Hraise.
    + intros (rest & Hr & Hsp). specialize (Hcase rest Hr). rewrite Hsp in Hcase.
      by rewrite Hcase.
Qed.

Lemma universal_newlines_other c s :
  c ≠ 13 → universal_newlines (c :: s) = c :: universal_newlines s.
Proof.
  intros Hc. destruct c as [|p]; [done|].
  do 4 (try (destruct p as [p|p|]; try done)).
Qed.

Lemma universal_newlines_cr s :
  universal_newlines (13 :: s)
  = 10 :: universal_newlines
            match s with
            | d :: s' => if d =? 10 then s' else s
            | [] => s
            end.
Proof.
  destruct s as [|d s]; [done|].
  destruct (N.eqb_spec d 10) as [->|Hd]; [done|].
  destruct d as [|p]; [done|].
  do 4 (try (destruct p as [p|p|]; try done)).
Qed.

Lemma universal_newlines_clean x : 13 ∉ x → universal_newlines x = x.
Proof.
  induction x as [|c x IH]; [done|]. intros Hx.
  apply not_elem_of_cons in Hx as [Hc Hx].
  rewrite universal_newlines_other by done. by rewrite IH.
Qed.

(** Text mode leaves a tail without carriage return as it is, unless the
    tail starts with the line feed of a pair. *)
Lemma universal_newlines_app a x :
  (∀ y, x ≠ 10 :: y) → 13 ∉ x →
  universal_newlines (a ++ x) = universal_newlines a ++ x.
Proof.
  intros Hx10 Hx13.
  assert (Hind : ∀ n a, (length a ≤ n)%nat →
                        universal_newlines (a ++ x) = universal_newlines a ++ x).
  { clear a. induction n as [|n IH]; intros a Hlen.
    - destruct a; [|cbn in Hlen; lia]. by apply universal_newlines_clean.
    - destruct a as [|c a]; [by apply universal_newlines_clean|].
      cbn [length] in Hlen. destruct (decide (c = 13)) as [->|Hc].
      + cbn [app]. rewrite !universal_newlines_cr. cbn [app]. f_equal.
        destruct a as [|d a].
        * cbn [app]. destruct x as [|e x]; [done|].
          destruct (N.eqb_spec e 10) as [->|He]; [by destruct (Hx10 x)|].
          by apply universal_newlines_clean.
        * cbn [app]. destruct (d =? 10).
          -- apply IH. cbn [length] in Hlen. lia.
          -- apply (IH (d :: a)). lia.
      + cbn [app]. rewrite !universal_newlines_other by done. cbn [app]. f_equal.
        apply IH. lia. }
  by apply (Hind (length a)).
Qed.

Lemma str_in_absent (c : N) (p s : ustr) : c ∉ s → str_in (c :: p) s = false.
Proof.
  induction s as [|d s IH]; intros Hs; [done|].
  apply not_elem_of_cons in Hs as [Hd Hs]. cbn [str_in startswith].
  rewrite (IH Hs), orb_false_r.
  destruct (N.eqb_spec c d) as [->|?]; [done|]. done.
Qed.

Lemma is_hex_range c : is_hex c = true ↔ (48 ≤ c ≤ 57 ∨ 97 ≤ c ≤ 102).
Proof.
  unfold is_hex. rewrite orb_true_iff, !andb_true_iff, !N.leb_le. lia.
Qed.

Lemma is_hex_no_space c : is_hex c = true → is_space c = false.
Proof.
  intros Hc%is_hex_range. apply not_true_is_false. unfold is_space.
  rewrite !orb_true_iff, !andb_true_iff, !N.leb_le, !N.eqb_eq. lia.
Qed.

Lemma hex_word h : hex_digest h → is_word h.
Proof.
  intros [Hh Hl]. split; [destruct h; [cbn in Hl; lia | done]|].
  unfold no_space. rewrite forallb_forall in *. intros c Hc.
  by rewrite (is_hex_no_space c (Hh c Hc)).
Qed.

Lemma hex_elem h c : forallb is_hex h = true → c ∈ h → (48 ≤ c ≤ 57 ∨ 97 ≤ c ≤ 102).
Proof.
  intros Hh Hc. rewrite forallb_forall in Hh. apply is_hex_range, Hh.
  by apply list_elem_of_In.
Qed.

(** The provenance comment read back: a text that ends with the label, a
    hexadecimal digest and the close of the comment gives the digest. *)
Lemma extract_sha_footer (pre h : ustr) :
  hex_digest h →
  _extract_sha_from_md_card
    (universal_newlines (pre ++ s_footer_sha ++ h ++ s_footer_close))
  = Ok (Some h).
Proof.
  intros Hh. pose proof (hex_word h Hh) as Hword. destruct Hh as [Hhex Hlen].
  assert (H13 : 13 ∉ s_footer_sha ++ h ++ s_footer_close).
  { rewrite !elem_of_app. intros [Hc|[Hc|Hc]].
    - vm_compute in Hc. by repeat (apply elem_of_cons in Hc as [?|Hc]; [done|]);
        apply elem_of_nil in Hc.
    - pose proof (hex_elem h 13 Hhex Hc). lia.
    - vm_compute in Hc. by repeat (apply elem_of_cons in Hc as [?|Hc]; [done|]);
        apply elem_of_nil in Hc. }
  rewrite universal_newlines_app by done.
  set (rest := 32 :: h ++ s_footer_close).
  assert (Hsplit : universal_newlines pre ++ s_footer_sha ++ h ++ s_footer_close
                   = (universal_newlines pre ++ [32]) ++ s_marker_sha ++ rest).
  { by rewrite <- !app_assoc. }
  assert (Hlast : str_in s_marker_sha (tail (s_marker_sha ++ rest)) = false).
  { assert (Hno : 115 ∉ rest).
    { unfold rest. rewrite elem_of_cons, elem_of_app. intros [?|[Hc|Hc]]; [done| |].
      - pose proof (hex_elem h 115 Hhex Hc). lia.
      - vm_compute in Hc. by repeat (apply elem_of_cons in Hc as [?|Hc]; [done|]);
          apply elem_of_nil in Hc. }
    pose proof (str_in_absent 115 (tail s_marker_sha) rest Hno) as Hr.
    change (115 :: tail s_marker_sha) with s_marker_sha in Hr.
    unfold s_marker_sha at 2. cbn [app tail].
    exact Hr. }
  assert (Hafter : after_last s_marker_sha
                     (universal_newlines pre ++ s_footer_sha ++ h ++ s_footer_close)
                   = Some rest).
  { rewrite Hsplit. apply after_last_spec; [done|]. by eexists. }
  unfold _extract_sha_from_md_card. rewrite Hafter, split_ws_strip.
  unfold split_ws, rest. cbn [split_go]. replace (is_space 32) with true by done.
  cbv iota. rewrite split_go_word_prefix by apply Hword.
  rewrite app_nil_r. unfold s_footer_close. cbn [split_go].
  replace (is_space 32) with true by done. cbv iota.
  destruct (rev h) eqn:Hr.
  { destruct Hword as [Hne _]. exfalso. apply Hne.
    by rewrite <- (rev_involutive h), Hr. }
  rewrite <- Hr, rev_involutive, (strip_word h Hword).
  apply Nat.leb_le in Hlen. by rewrite Hlen.
Qed.

(** ** A synthesis, seen by the coverage analysis *)

Section FreshCards.
Context `{Runtime}.

Lemma md_body_sha ctx rel h d c unl :
  hex_digest h →
  card_sha {| card_content := Ok (md_body ctx rel h d c); unlink_fails := unl |}
  = Ok (Some h).
Proof.
  intros Hh. unfold card_sha, read_card. cbn [card_content].
  replace (md_body ctx rel h d c)
    with ((s_wrap_open ++ d ++ s_wrap_close ++ c ++ s_nlnl ++ s_footer_source
             ++ path_name (origins_dir (kb ctx)) ++ s_slash ++ rel)
          ++ s_footer_sha ++ h ++ s_footer_close)
    by (unfold md_body; by rewrite <- !app_assoc).
  by apply extract_sha_footer.
Qed.

Lemma synthesize_cards_nonempty ctx origin doc doc_title w cards q w' :
  synthesize ctx origin doc doc_title w = (Ok (cards, q), w') → cards ≠ [].
Proof.
  rewrite synthesize_closed. cbv zeta.
  match goal with
  | |- context [is_empty ?c] => destruct c as [|c1 cs1] eqn:Hc1
  end; cbn [is_empty].
  - by intros [= <- _ _].
  - destruct (negb _); [|by intros [= <- _ _]].
    match goal with
    | |- context [llm_writer ?c ?h ?p] => destruct (llm_writer c h p) as [[|r' rs]|e]
    end; by intros [= <- _ _].
Qed.

(** What a successful synthesis leaves in the card directory: the files it
    wrote, over what the cleanup left. *)
Lemma upsert_inv ctx rel force w w' r :
  kb_upsert_cards_for_markdown ctx rel force w = (Ok r, w') →
  ∃ p t h cards fs,
    fst (load_doc ctx rel w) = Ok (p, t, h)
    ∧ cards ≠ []
    ∧ fs = card_files ctx rel h (extract_title t (path_stem (path_of_str rel)))
                      (path_stem (path_of_str rel)) 0 cards
    ∧ cards_md_files r = map (fun f => created_path ctx (fst f)) fs
    ∧ cards_md_count r = length fs
    ∧ cards_md w' = fold_left put_card fs (cleaned w (path_stem (path_of_str rel)))
    ∧ cwd w' = cwd w ∧ files w' = files w.
Proof.
  intros Hup. rewrite upsert_closed in Hup.
  destruct (fst (load_doc ctx rel w)) as [[[p t] h]|e] eqn:Hl; [|done].
  cbv zeta in Hup.
  destruct (synthesize ctx rel t (extract_title t (path_stem (path_of_str rel)))
              (set_cards_md w (cleaned w (path_stem (path_of_str rel)))))
    as [[[cards q]|e] w2] eqn:Hs; [|done].
  pose proof (synthesize_cards_nonempty _ _ _ _ _ _ _ _ Hs) as Hne.
  destruct (synthesize_ok ctx rel t (extract_title t (path_stem (path_of_str rel)))
              (set_cards_md w (cleaned w (path_stem (path_of_str rel)))))
    as (cq & h' & Hs').
  rewrite Hs in Hs'. injection Hs' as _ ->.
  injection Hup as <- <-. exists p, t, h, cards. eexists. by repeat split.
Qed.

Lemma card_files_nonempty ctx rel h title stem idx cards :
  cards ≠ [] → card_files ctx rel h title stem idx cards ≠ [].
Proof. by destruct cards. Qed.

(** Every file among [fs] holds, in the directory, a text whose
    fingerprint reads back as [h]. *)
Lemma written_sha ctx rel h title stem cards D name :
  hex_digest h →
  name ∈ map fst (card_files ctx rel h title stem 0 cards) →
  ∃ n, fold_left put_card (card_files ctx rel h title stem 0 cards) D !! name = Some n
       ∧ card_sha n = Ok (Some h).
Proof.
  intros Hh Hname.
  destruct (put_card_fold_lookup (card_files ctx rel h title stem 0 cards) D name)
    as [Hput _].
  destruct (Hput Hname) as (body & n & Hb & Hlook & Hcont).
  apply card_files_elem in Hb as (i & rc & _ & Hfile).
  exists n. split; [done|]. unfold card_file in Hfile. injection Hfile as _ ->.
  destruct n as [content unl]. cbn [card_content] in Hcont. subst content.
  by apply md_body_sha.
Qed.

(** X6. The provenance comment round-trips.  When the digest of the
    document has the shape of a SHA-256 hex digest, every card file that a
    synthesis reports as written is read back by the coverage analysis with
    exactly that digest, whatever the description and the body of the card
    contain. *)
Theorem written_cards_carry_digest (ctx : ToolContext) (rel : ustr) (force : bool)
    (w w' : World) (r : UpsertResult) (p : Path) (t h : ustr) :
  fst (load_doc ctx rel w) = Ok (p, t, h) →
  hex_digest h →
  kb_upsert_cards_for_markdown ctx rel force w = (Ok r, w') →
  cards_md_files r ≠ []
  ∧ ∀ path, path ∈ cards_md_files r →
      ∃ name n, path = created_path ctx name
                ∧ cards_md w' !! name = Some n
                ∧ card_sha n = Ok (Some h).
Proof.
  intros Hl Hh Hup.
  destruct (upsert_inv _ _ _ _ _ _ Hup)
    as (p' & t' & h' & cards & fs & Hl' & Hne & -> & Hfiles & _ & Hmd & _ & _).
  rewrite Hl in Hl'. injection Hl' as <- <- <-.
  rewrite Hfiles, Hmd. split.
  - destruct cards; [done|]. done.
  - intros path Hpath. apply list_elem_of_fmap in Hpath as ([name body] & -> & Hf).
    assert (Hname : name ∈ map fst (card_files ctx rel h
                      (extract_title t (path_stem (path_of_str rel)))
                      (path_stem (path_of_str rel)) 0 cards)).
    { apply list_elem_of_fmap. by exists (name, body). }
    destruct (written_sha _ _ _ _ _ _ (cleaned w (path_stem (path_of_str rel))) _ Hh Hname)
      as (n & Hlook & Hsha).
    by exists name, n.
Qed.

End FreshCards.

Section FreshCoverage.
Context `{Runtime}.

Lemma origin_rel_run ctx md w rel :
  fst (_origin_rel ctx md w) = Ok rel → _origin_rel ctx md w = (Ok rel, w).
Proof.
  intros Hrel. pose proof (origin_rel_world ctx md w) as Hw.
  destruct (_origin_rel ctx md w) as [r w1]. cbn [fst snd] in *. by subst.
Qed.

Lemma file_sha256_ext (p : Path) (w : World) (b : string) :
  files w !! parts p = Some (FileBytes b) →
  file_sha256 p w = (Ok (sha256_hexdigest (bytes_of b)), w).
Proof. intros Hf. unfold file_sha256. by rewrite Hf. Qed.

(** The card files the coverage analysis finds for a document after its
    synthesis: at least one, when the names written match the pattern. *)
Lemma fresh_matches ctx rel h title cards D (w' : World) :
  let stem := path_stem (path_of_str rel) in
  (∀ id, glob_match (md_filename id stem) (card_pattern stem) = true) →
  cards ≠ [] →
  cards_md w' = fold_left put_card (card_files ctx rel h title stem 0 cards) D →
  cards_of w' rel ≠ [].
Proof.
  intros stem Hglob Hne Hmd. destruct cards as [|rc cards]; [done|].
  set (fs := card_files ctx rel h title stem 0 (rc :: cards)) in *.
  set (name := fst (card_file ctx rel h title stem 0 rc)).
  assert (Hname : name ∈ map fst fs) by (cbn; by left).
  destruct (put_card_fold_lookup fs D name) as [Hput _].
  destruct (Hput Hname) as (body & n & _ & Hlook & _).
  assert (Hin : name ∈ map fst (glob_cards w' (card_pattern stem))).
  { apply glob_cards_names. exists n. rewrite Hmd. split; [done|]. apply Hglob. }
  unfold cards_of. fold stem. intros Hnil. rewrite Hnil in Hin.
  by apply elem_of_nil in Hin.
Qed.

Lemma glob_cards_elem (w : World) pat e :
  In e (glob_cards w pat) →
  cards_md w !! fst e = Some (snd e) ∧ glob_match (fst e) pat = true.
Proof.
  unfold glob_cards. intros [Hin Hm]%filter_In. split; [|done].
  destruct e as [name n]. by apply elem_of_map_to_list, list_elem_of_In.
Qed.

Lemma find_all_false {A} (f : A → bool) (l : list A) :
  (∀ x, In x l → f x = false) → find f l = None.
Proof.
  induction l as [|a l IH]; intros Hl; [done|]. cbn [find].
  rewrite (Hl a) by by left. apply IH. intros x Hx. apply Hl. by right.
Qed.

(** X7. A document that was just synthesized is covered.  Assume the
    digest of the document has the shape of a SHA-256 hex digest, the file
    names written for the document match its pattern [card_*_<stem>.md],
    and every old card file matching the pattern could be removed.  Then,
    on the world the synthesis leaves, the coverage analysis adds the
    document to none of its lists, with or without the staleness check. *)
Theorem synthesized_document_is_covered (ctx : ToolContext) (rel : ustr) (force : bool)
    (w w' : World) (r : UpsertResult) (p : Path) (t h : ustr)
    (include_stale : bool) (acc : Coverage) :
  let stem := path_stem (path_of_str rel) in
  fst (load_doc ctx rel w) = Ok (p, t, h) →
  hex_digest h →
  fst (_origin_rel ctx p w) = Ok rel →
  (∀ id, glob_match (md_filename id stem) (card_pattern stem) = true) →
  (∀ name n, cards_md w !! name = Some n →
             glob_match name (card_pattern stem) = true → unlink_fails n = false) →
  kb_upsert_cards_for_markdown ctx rel force w = (Ok r, w') →
  coverage_doc ctx include_stale acc p w' = (Ok acc, w').
Proof.
  intros stem Hl Hh Hrel Hglob Hdel Hup.
  destruct (upsert_inv _ _ _ _ _ _ Hup)
    as (p' & t' & h' & cards & fs & Hl' & Hne & Hfs & _ & _ & Hmd & Hcwd & Hfiles).
  rewrite Hl in Hl'. injection Hl' as <- <- <-. fold stem in Hfs, Hmd.
  apply load_doc_inv in Hl as (_ & _ & b & Hfile & _ & Hhash).
  assert (Hrel' : _origin_rel ctx p w' = (Ok rel, w')).
  { apply origin_rel_run. by rewrite (origin_rel_ext ctx p w' w). }
  assert (Hmatch : cards_of w' rel ≠ []).
  { subst fs. by eapply fresh_matches. }
  unfold coverage_doc, bind. rewrite Hrel'.
  destruct (cards_of w' rel) as [|m ms] eqn:Hm; [done|].
  destruct include_stale; [|done].
  rewrite (file_sha256_ext p w' b) by by rewrite Hfiles.
  rewrite <- Hhash, <- Hm, scan_cards_first_bad.
  assert (Hall : first_bad h (cards_of w' rel) = None).
  { unfold first_bad. apply find_all_false. intros e He. apply negb_false_iff.
    apply card_current_iff. unfold cards_of in He. fold stem in He.
    apply glob_cards_elem in He as [Hlook Hg]. rewrite Hmd in Hlook.
    destruct (decide (fst e ∈ map fst fs)) as [Hin|Hnot].
    - subst fs. destruct (written_sha _ _ _ _ _ _ (cleaned w stem) _ Hh Hin)
        as (n & Hlook' & Hsha). rewrite Hlook in Hlook'. by injection Hlook' as ->.
    - destruct (put_card_fold_lookup fs (cleaned w stem) (fst e)) as [_ Hkeep].
      rewrite (Hkeep Hnot) in Hlook.
      destruct (cleaned_match w stem _ _ Hlook Hg) as [Hold Hfail].
      by rewrite (Hdel _ _ Hold Hg) in Hfail. }
  rewrite Hall. cbn [ret]. destruct acc. cbn. by rewrite app_nil_r.
Qed.

End FreshCoverage.

(** ** Titles *)

Lemma lstrip_result_clean s c x : lstrip s = c :: x → is_space c = false.
Proof.
  induction s as [|d s IH]; [done|]. cbn [lstrip].
  destruct (is_space d) eqn:Hd; [done|]. by intros [= <- _].
Qed.

(** A stripped string starts and ends with a character that is not
    whitespace. *)
Lemma strip_clean s :
  (∀ c x, strip s = c :: x → is_space c = false)
  ∧ (∀ c x, rev (strip s) = c :: x → is_space c = false).
Proof.
  split.
  - intros c x Hs. destruct (rstrip_decomp (lstrip s)) as (t & Ht & _).
    fold (strip s) in Ht. rewrite Hs in Ht. cbn [app] in Ht.
    by apply (lstrip_result_clean s c (x ++ t)).
  - intros c x. unfold strip, rstrip. rewrite rev_involutive.
    apply lstrip_result_clean.
Qed.

Lemma strip_idempotent s : strip (strip s) = strip s.
Proof.
  destruct (strip_clean s) as [H1 H2].
  unfold strip at 1. rewrite (lstrip_clean _ H1). unfold rstrip.
  rewrite (lstrip_clean _ H2). apply rev_involutive.
Qed.

(** The text of a heading is not blank: a stripped line that starts with
    [# ] has something after it. *)
Lemma heading_text_nonempty line :
  startswith (strip line) [35; 32] = true → strip (drop 2 (strip line)) ≠ [].
Proof.
  intros Hsw Hnil. apply startswith_spec in Hsw as [rest Hrest].
  rewrite Hrest in Hnil. change (drop 2 ([35; 32] ++ rest)) with rest in Hnil.
  apply strip_nil_iff in Hnil.
  destruct (strip_clean line) as [_ Hend]. rewrite Hrest in Hend.
  cbn [app rev] in Hend. rewrite <- !app_assoc in Hend. cbn [app] in Hend.
  destruct (rev rest) as [|c y] eqn:Hr.
  - by specialize (Hend 32 [35] eq_refl).
  - specialize (Hend c (y ++ [32; 35]) eq_refl).
    rewrite <- (all_space_rev rest), Hr in Hnil. cbn [all_space forallb] in Hnil.
    by rewrite Hend in Hnil.
Qed.

Lemma first_h1_inv lines t :
  first_h1 lines = Some t →
  ∃ pre line post,
    lines = pre ++ line :: post
    ∧ Forall (fun l => startswith (strip l) [35; 32] = false) pre
    ∧ startswith (strip line) [35; 32] = true
    ∧ t = strip (drop 2 (strip line)).
Proof.
  induction lines as [|l lines IH]; [done|]. cbn [first_h1].
  destruct (startswith (strip l) [35; 32]) eqn:Hl.
  - intros [= <-]. by exists [], l, lines.
  - intros Ht. destruct (IH Ht) as (pre & line & post & -> & Hpre & Hline & ->).
    exists (l :: pre), line, post. split; [done|]. split; [by constructor | done].
Qed.

Lemma first_h1_none lines :
  first_h1 lines = None ↔ Forall (fun l => startswith (strip l) [35; 32] = false) lines.
Proof.
  induction lines as [|l lines IH]; [by split|]. cbn [first_h1].
  destruct (startswith (strip l) [35; 32]) eqn:Hl.
  - split; [done|]. intros Hall. inversion Hall; subst. congruence.
  - rewrite IH. split; [by constructor | by inversion 1].
Qed.

(** X9. [extract_title] returns the text of the first line that, stripped,
    starts with [# ]; that text is stripped and never empty.  It returns
    the fallback exactly when the document has no such line. *)
Theorem extract_title_heading (md_text fallback : ustr) :
  match first_h1 (splitlines md_text) with
  | Some t =>
      extract_title md_text fallback = t
      ∧ t ≠ [] ∧ strip t = t
      ∧ ∃ pre line post,
          splitlines md_text = pre ++ line :: post
          ∧ Forall (fun l => startswith (strip l) [35; 32] = false) pre
          ∧ strip line = [35; 32] ++ drop 2 (strip line)
          ∧ t = strip (drop 2 (strip line))
  | None =>
      extract_title md_text fallback = fallback
      ∧ Forall (fun l => startswith (strip l) [35; 32] = false) (splitlines md_text)
  end.
Proof.
  unfold extract_title.
  destruct (first_h1 (splitlines md_text)) as [t|] eqn:Hh.
  - destruct (first_h1_inv _ _ Hh) as (pre & line & post & Hl & Hpre & Hline & ->).
    split; [done|]. split; [by apply heading_text_nonempty|].
    split; [apply strip_idempotent|].
    exists pre, line, post. split; [done|]. split; [done|]. split; [|done].
    apply startswith_spec in Hline as [rest Hrest]. by rewrite Hrest.
  - split; [done|]. by apply first_h1_none.
Qed.

(** ** When a synthesis fails *)

Section UpsertOutcomes.
Context `{Runtime}.



End UpsertOutcomes.

(** ** The cost of a run *)

Section CallBudget.
Context `{Runtime}.

Lemma judge_calls_app a b : judge_calls (a ++ b) = (judge_calls a + judge_calls b)%nat.
Proof. unfold judge_calls. by rewrite List.filter_app, length_app. Qed.

Lemma synthesize_calls ctx origin doc doc_title w :
  ∃ new, calls (snd (synthesize ctx origin doc doc_title w)) = calls w ++ new
         ∧ (1 ≤ length new ≤ 4)%nat ∧ (judge_calls new ≤ 1)%nat.
Proof.
  rewrite synthesize_closed. cbv zeta.
  set (p0 := _writer_prompt ctx origin doc None None).
  set (p1 := _writer_prompt ctx origin doc (Some s_retry_guidance) None).
  set (c0 := gen_answer (llm_writer ctx (calls w) p0)).
  set (gens := if needs_retry c0 then [CallWriter p0; CallWriter p1] else [CallWriter p0]).
  assert (Hh : (if needs_retry c0
                then (calls w ++ [CallWriter p0]) ++ [CallWriter p1]
                else calls w ++ [CallWriter p0]) = calls w ++ gens).
  { unfold gens. destruct (needs_retry c0); by rewrite <- ?app_assoc. }
  rewrite Hh.
  assert (Hg : (1 ≤ length gens ≤ 2)%nat ∧ judge_calls gens = 0%nat).
  { unfold gens. destruct (needs_retry c0); cbn; lia. }
  destruct Hg as [Hg1 Hg2].
  destruct (is_empty _).
  - exists gens. cbn [snd calls with_calls]. repeat split; lia.
  - destruct (negb _).
    + match goal with
      | |- context [llm_writer ?c ?h ?p] => destruct (llm_writer c h p) as [[|r' rs]|e]
      end; cbn [snd calls with_calls]; rewrite <- !app_assoc;
        (eexists; split; [reflexivity|]);
        rewrite !length_app, !judge_calls_app; cbn; lia.
    + cbn [snd calls with_calls]. rewrite <- !app_assoc.
      eexists; split; [reflexivity|].
      rewrite !length_app, !judge_calls_app; cbn; lia.
Qed.

Lemma upsert_calls ctx rel force w :
  ∃ new, calls (snd (kb_upsert_cards_for_markdown ctx rel force w)) = calls w ++ new
         ∧ (length new ≤ 4)%nat ∧ (judge_calls new ≤ 1)%nat.
Proof.
  rewrite upsert_closed.
  destruct (fst (load_doc ctx rel w)) as [[[p t] h]|e].
  - cbv zeta.
    destruct (synthesize_calls ctx rel t (extract_title t (path_stem (path_of_str rel)))
                (set_cards_md w (cleaned w (path_stem (path_of_str rel)))))
      as (new & Hnew & Hlen & Hj).
    destruct (synthesize ctx rel t _ _) as [[[cards q]|e] w2];
      cbn [snd calls set_cards_md] in *; exists new; repeat split; (done || lia).
  - exists []. cbn [snd]. rewrite app_nil_r. repeat split; cbn; lia.
Qed.

Lemma sync_loop_calls ctx force docs :
  ∀ w r w',
  for_each (fun md => do rel <- _origin_rel ctx md;
                      kb_upsert_cards_for_markdown ctx rel force) docs w = (r, w') →
  ∃ new, calls w' = calls w ++ new
         ∧ (length new ≤ 4 * length docs)%nat
         ∧ (judge_calls new ≤ length docs)%nat
         ∧ cwd w' = cwd w ∧ files w' = files w.
Proof.
  induction docs as [|md docs IH]; intros w r w' Hrun.
  - cbn in Hrun. injection Hrun as <- <-. exists []. rewrite app_nil_r.
    repeat split; cbn; lia.
  - cbn [for_each] in Hrun. unfold bind at 1 2 in Hrun.
    pose proof (origin_rel_world ctx md w) as Hw.
    destruct (_origin_rel ctx md w) as [[rel|e] w1]; cbn [snd] in Hw; subst w1.
    + destruct (upsert_calls ctx rel force w) as (n1 & Hn1 & Hl1 & Hj1).
      destruct (upsert_frame ctx rel force w) as [Hc1 Hf1].
      destruct (kb_upsert_cards_for_markdown ctx rel force w) as [[res|e] w1];
        cbn [snd] in *.
      * unfold bind in Hrun.
        destruct (for_each _ docs w1) as [[rs|e] w2] eqn:Hrest;
          destruct (IH w1 _ _ Hrest) as (n2 & Hn2 & Hl2 & Hj2 & Hc2 & Hf2);
          cbn [ret] in Hrun; injection Hrun as <- <-;
          exists (n1 ++ n2); rewrite Hn2, Hn1, <- app_assoc, length_app, judge_calls_app;
          cbn [length]; repeat split; (done || lia || congruence).
      * injection Hrun as <- <-. exists n1. cbn [length]. repeat split; (done || lia).
    + injection Hrun as <- <-. exists []. rewrite app_nil_r. cbn.
      repeat split; lia.
Qed.

(** X11. The cost of a full-corpus sync.  For a corpus of [n] documents
    [kb_sync_all] makes at most [4 n] calls of the language model, of which
    at most [n] are validator calls, whether it returns or raises.  It never
    changes a file of the corpus. *)
Theorem sync_call_budget (ctx : ToolContext) (force : bool) (w : World) :
  let n := length (_list_markdown_files ctx w) in
  let w' := snd (kb_sync_all ctx force w) in
  ∃ new, calls w' = calls w ++ new
         ∧ (length new ≤ 4 * n)%nat
         ∧ (judge_calls new ≤ n)%nat
         ∧ cwd w' = cwd w ∧ files w' = files w.
Proof.
  intros n w'. unfold w', kb_sync_all, bind.
  destruct (for_each _ (_list_markdown_files ctx w) w) as [[rs|e] w1] eqn:Hrun;
    cbn [snd ret]; exact (sync_loop_calls ctx force _ _ _ _ Hrun).
Qed.

End CallBudget.

(** ** The pipeline when the validator fails or cannot quote *)

Section ValidatorModes.
Context `{Runtime}.

(** The sanitizer leaves the report of a failed validator call as it is:
    its one item is a plain note, so the verdict stays negative. *)
Lemma sanitize_error_report doc_text e :
  PDict (_sanitize_judge_meta doc_text (judge_error_report e)) = judge_error_report e.
Proof.
  unfold judge_error_report. rewrite sanitize_dict. cbv zeta.
  set (d := <[k_ok := PBool false]> _).
  assert (Hm : d !! k_missing = Some (PList [PStr (s_judge_parse_error ++ exc_kind e)])).
  { unfold d. rewrite lookup_insert_ne by done. by rewrite lookup_insert_eq. }
  rewrite (missing_in_list d _ Hm). unfold removed_count, flips.
  rewrite (missing_in_list d _ Hm). cbn [List.filter item_kept negb length Z.of_nat Z.eqb is_empty].
  rewrite andb_false_r. cbn [andb]. by rewrite (insert_id d _ _ Hm).
Qed.

Lemma error_report_guidance e d :
  PDict d = judge_error_report e →
  refine_guidance d
  = s_not_covered ++ (s_judge_parse_error ++ exc_kind e) ++ s_nl ++ s_refine_tail.
Proof.
  unfold judge_error_report. intros [= ->]. unfold refine_guidance, dict_get.
  rewrite (lookup_insert_ne _ k_ok k_missing) by done. rewrite lookup_insert_eq.
  rewrite (lookup_insert_ne _ k_ok k_suggested_card_titles) by done.
  rewrite (lookup_insert_ne _ k_missing k_suggested_card_titles) by done.
  rewrite lookup_insert_eq. cbn. by rewrite <- !app_assoc.
Qed.

(** X12. A validator that fails never blocks a synthesis, and always
    causes one refinement.  When every validator call raises, the synthesis
    still returns; unless it ended with the placeholder, the report it keeps
    is the fixed report of a failed validator call, with [ok = False] and
    the kind of the exception, and its last two calls are the validator call
    and one refinement call, which is handed the candidate cards and a
    guidance that names the failure. *)
Theorem failed_validator_forces_refinement (ctx : ToolContext)
    (origin doc doc_title : ustr) (w : World) :
  (∀ h p, is_ok (llm_judge ctx h p) = false) →
  ∃ cards q w',
    synthesize ctx origin doc doc_title w = (Ok (cards, q), w')
    ∧ (q = placeholder_quality
       ∨ ∃ h jp rp e,
           calls w' = h ++ [CallJudge jp; CallWriter rp]
           ∧ llm_judge ctx h jp = Raise e
           ∧ PDict (judge q) = judge_error_report e
           ∧ wp_existing_cards rp = Some (jp_cards jp)
           ∧ wp_guidance rp
             = Some (s_not_covered ++ (s_judge_parse_error ++ exc_kind e)
                       ++ s_nl ++ s_refine_tail)
           ∧ refinement_applied q
             = Some (negb (is_empty (gen_answer (llm_writer ctx (h ++ [CallJudge jp]) rp))))).
Proof.
  intros Hfail. rewrite synthesize_closed. cbv zeta.
  set (c0 := gen_answer _). set (c1 := if needs_retry c0 then _ else _).
  set (h2 := if needs_retry c0 then _ else _).
  destruct (is_empty c1) eqn:Hc1; [eexists _, _, _; split; [done | by left]|].
  set (jp := _judge_prompt origin doc c1).
  assert (Hjm : ∃ e, llm_judge ctx h2 jp = Raise e
                     ∧ PDict (judge_verdict ctx doc h2 jp) = judge_error_report e).
  { unfold judge_verdict. specialize (Hfail h2 jp).
    destruct (llm_judge ctx h2 jp) as [j|e]; [done|].
    exists e. split; [done|]. apply sanitize_error_report. }
  destruct Hjm as (e & He & Hjm).
  set (jm := judge_verdict ctx doc h2 jp) in *.
  assert (Hok : py_truthy (dict_get jm k_ok (PBool false)) = false).
  { unfold judge_error_report in Hjm. injection Hjm as ->.
    unfold dict_get. by rewrite lookup_insert_eq. }
  rewrite Hok. cbn [negb].
  set (rp := _writer_prompt ctx origin doc (Some (refine_guidance jm)) (Some c1)).
  assert (Hex : wp_existing_cards rp = Some (jp_cards jp)) by (simpl; by destruct c1).
  assert (Hg : wp_guidance rp = Some (refine_guidance jm))
    by apply writer_prompt_guidance, refine_guidance_nonempty.
  rewrite (error_report_guidance e jm Hjm) in Hg.
  destruct (llm_writer ctx (h2 ++ [CallJudge jp]) rp) as [[|c cs]|e'] eqn:Ha.
  all: eexists _, _, _; split; [reflexivity|]; right; exists h2, jp, rp, e.
  all: cbn [calls with_calls judge refinement_applied]; rewrite <- app_assoc, Ha.
  all: by repeat split.
Qed.

(** A report from the validator, none of whose quotations occurs in the
    document, normalized. *)
Lemma unquoted_items_dropped doc_text (ms : list MissingItem) :
  Forall (fun m => str_in (_normalize_ws (evidence m)) (_normalize_ws doc_text) = false) ms →
  List.filter (item_kept doc_text) (map dump_missing_item ms) = [].
Proof.
  induction 1 as [|m ms Hm _ IH]; [done|]. cbn [map List.filter].
  assert (Hk : item_kept doc_text (dump_missing_item m) = false).
  { unfold item_kept, dump_missing_item, evidence_ok, dict_get.
    rewrite lookup_insert_ne by done. rewrite lookup_insert_eq.
    cbn [default from_option id].
    assert (Hev : py_str (py_or (PStr (evidence m)) (PStr [])) = evidence m)
      by by destruct (evidence m).
    rewrite Hev, normalize_strip, Hm. apply andb_false_r. }
  by rewrite Hk.
Qed.

Lemma unquoted_verdict doc_text (j : JudgeResult) :
  Forall (fun m => str_in (_normalize_ws (evidence m)) (_normalize_ws doc_text) = false)
         (missing j) →
  let jm := _sanitize_judge_meta doc_text (dump_judge_result j) in
  py_truthy (dict_get jm k_ok (PBool false)) = true
  ∧ jm !! k_missing = Some (PList []).
Proof.
  intros Hms jm. unfold jm, dump_judge_result.
  set (d := <[k_ok := PBool (ok j)]> _).
  assert (Hm : d !! k_missing = Some (PList (map dump_missing_item (missing j)))).
  { unfold d. rewrite lookup_insert_ne by done. by rewrite lookup_insert_eq. }
  rewrite sanitized_ok, sanitized_missing.
  rewrite (missing_in_list d _ Hm), (unquoted_items_dropped _ _ Hms).
  split; [|done]. unfold flips.
  rewrite (missing_in_list d _ Hm), (unquoted_items_dropped _ _ Hms).
  unfold dict_get. rewrite Hm. unfold d. rewrite lookup_insert_eq.
  cbn [default from_option id py_truthy is_empty is_list]. rewrite !andb_true_r.
  by destruct (ok j).
Qed.

(** X13. A validator that cannot quote the document never causes a
    rewrite.  When every gap the validator reports comes with a quotation
    that does not occur in the document (both normalized), the synthesis
    makes no refinement call, keeps the candidate cards, and records a
    positive verdict with an empty [missing], whatever [ok] the validator
    returned. *)
Theorem unquoted_gaps_cause_no_rewrite (ctx : ToolContext)
    (origin doc doc_title : ustr) (w : World) :
  (∀ h p, ∃ j, llm_judge ctx h p = Ok j
               ∧ Forall (fun m => str_in (_normalize_ws (evidence m))
                                         (_normalize_ws doc) = false) (missing j)) →
  ∃ cards q w',
    synthesize ctx origin doc doc_title w = (Ok (cards, q), w')
    ∧ Forall (fun c => is_judge_call c = true ∨ plain_generation c)
             (drop (length (calls w)) (calls w'))
    ∧ (q = placeholder_quality
       ∨ (py_truthy (dict_get (judge q) k_ok (PBool false)) = true
          ∧ judge q !! k_missing = Some (PList [])
          ∧ refinement_applied q = Some false
          ∧ refinement_error q = None
          ∧ ∃ jp, List.last (calls w') (CallJudge jp) = CallJudge jp
                  ∧ cards = jp_cards jp)).
Proof.
  intros Hj. rewrite synthesize_closed. cbv zeta.
  set (p0 := _writer_prompt ctx origin doc None None).
  set (p1 := _writer_prompt ctx origin doc (Some s_retry_guidance) None).
  set (c0 := gen_answer (llm_writer ctx (calls w) p0)).
  set (gens := if needs_retry c0 then [CallWriter p0; CallWriter p1] else [CallWriter p0]).
  set (c1 := if needs_retry c0 then gen_answer _ else c0).
  assert (Hh : (if needs_retry c0
                then (calls w ++ [CallWriter p0]) ++ [CallWriter p1]
                else calls w ++ [CallWriter p0]) = calls w ++ gens).
  { unfold gens. destruct (needs_retry c0); by rewrite <- ?app_assoc. }
  rewrite Hh.
  assert (Hgens : Forall (fun c => is_judge_call c = true ∨ plain_generation c) gens).
  { unfold gens. destruct (needs_retry c0); repeat constructor; by right. }
  destruct (is_empty c1) eqn:Hc1.
  - eexists _, _, _. split; [done|]. cbn [calls with_calls].
    rewrite drop_app_length. split; [done | by left].
  - set (jp := _judge_prompt origin doc c1).
    destruct (Hj (calls w ++ gens) jp) as (j & Hans & Hms).
    destruct (unquoted_verdict doc j Hms) as [Hok Hmiss].
    assert (Hjm : judge_verdict ctx doc (calls w ++ gens) jp
                  = _sanitize_judge_meta doc (dump_judge_result j)).
    { unfold judge_verdict. by rewrite Hans. }
    rewrite Hjm, Hok. cbn [negb].
    eexists _, _, _. split; [done|]. cbn [calls with_calls judge refinement_applied
                                            refinement_error].
    rewrite <- app_assoc, drop_app_length. split.
    + apply Forall_app. split; [done|]. constructor; [by left | constructor].
    + right. split; [done|]. split; [done|]. split; [done|]. split; [done|].
      exists jp. split; [|done]. by rewrite app_assoc, last_last.
Qed.

End ValidatorModes.

(** ** The coverage report *)

Section CoverageReport.
Context `{Runtime}.

Lemma scan_cards_shape rel h card_files :
  (length (snd (scan_cards rel h card_files))
   ≤ if fst (scan_cards rel h card_files) then 1 else 0)%nat.
Proof.
  induction card_files as [|[name node] rest IH]; [cbn; lia|]. cbn [scan_cards].
  destruct (card_sha node) as [sha|e]; [|cbn; lia].
  destruct (sha_mismatch sha h); [cbn; lia | done].
Qed.

(** What one document adds to the three lists. *)
Lemma coverage_doc_step ctx include_stale acc md w :
  snd (coverage_doc ctx include_stale acc md w) = w
  ∧ match fst (coverage_doc ctx include_stale acc md w) with
    | Ok cov =>
        (length (missing_cards_for_origins cov) + length (stale_cards_for_origins cov)
         ≤ length (missing_cards_for_origins acc) + length (stale_cards_for_origins acc) + 1)%nat
        ∧ (length (invalid_card_md_files cov) + length (stale_cards_for_origins acc)
           ≤ length (invalid_card_md_files acc) + length (stale_cards_for_origins cov))%nat
        ∧ (length (stale_cards_for_origins acc) ≤ length (stale_cards_for_origins cov))%nat
        ∧ (include_stale = false →
           stale_cards_for_origins cov = stale_cards_for_origins acc
           ∧ invalid_card_md_files cov = invalid_card_md_files acc)
    | Raise _ => True
    end.
Proof.
  unfold coverage_doc, bind.
  pose proof (origin_rel_world ctx md w) as Hw.
  destruct (_origin_rel ctx md w) as [[rel|e] w1]; cbn [snd] in Hw; subst w1; [|done].
  destruct (cards_of w rel) as [|m ms].
  - cbn. rewrite length_app. cbn. split; [done|]. repeat split; lia.
  - destruct include_stale.
    + unfold file_sha256. destruct (files w !! parts md) as [[b|e]|]; [|done..].
      pose proof (scan_cards_shape rel (sha256_hexdigest (bytes_of b)) (m :: ms)) as Hs.
      destruct (scan_cards rel _ (m :: ms)) as [bad inv]. cbn [fst snd] in Hs.
      cbn. split; [done|]. rewrite length_app.
      destruct bad; rewrite ?length_app; cbn [length]; repeat split; (lia || done).
    + cbn. split; [done|]. repeat split; lia.
Qed.

Lemma coverage_loop ctx include_stale docs :
  ∀ acc w,
  snd (for_fold (coverage_doc ctx include_stale) acc docs w) = w
  ∧ match fst (for_fold (coverage_doc ctx include_stale) acc docs w) with
    | Ok cov =>
        (length (missing_cards_for_origins cov) + length (stale_cards_for_origins cov)
         ≤ length (missing_cards_for_origins acc) + length (stale_cards_for_origins acc)
           + length docs)%nat
        ∧ (length (invalid_card_md_files cov) + length (stale_cards_for_origins acc)
           ≤ length (invalid_card_md_files acc) + length (stale_cards_for_origins cov))%nat
        ∧ (length (stale_cards_for_origins acc) ≤ length (stale_cards_for_origins cov))%nat
        ∧ (include_stale = false →
           stale_cards_for_origins cov = stale_cards_for_origins acc
           ∧ invalid_card_md_files cov = invalid_card_md_files acc)
    | Raise _ => True
    end.
Proof.
  induction docs as [|md docs IH]; intros acc w.
  - cbn. split; [done|]. repeat split; lia.
  - cbn [for_fold]. unfold bind.
    pose proof (coverage_doc_step ctx include_stale acc md w) as [Hw Hstep].
    destruct (coverage_doc ctx include_stale acc md w) as [[cov|e] w1];
      cbn [fst snd] in *; subst w1; [|done].
    destruct (IH cov w) as [Hw' Hrest]. split; [done|].
    destruct (fst (for_fold _ cov docs w)) as [cov'|e]; [|done].
    destruct Hstep as (S1 & S2 & S3 & S4), Hrest as (R1 & R2 & R3 & R4).
    cbn [length]. split; [lia|]. split; [lia|]. split; [lia|].
    intros Hb. destruct (S4 Hb) as [E1 E2], (R4 Hb) as [E3 E4]. split; congruence.
Qed.

(** X14. The coverage analysis is read-only, and its lists are consistent.
    [kb_analyze_coverage] leaves the world as it was: it removes and writes
    nothing and calls no model.  In the report it returns, [origins_total]
    is the number of documents listed; [missing] and [stale] together hold
    at most that many entries; [invalid] never holds more lines than [stale]
    holds documents, since a card file that cannot be read also makes its
    document stale; and without the staleness check [stale] and [invalid]
    are empty. *)
Theorem coverage_report_invariants (ctx : ToolContext) (include_stale : bool) (w : World) :
  snd (kb_analyze_coverage ctx include_stale w) = w
  ∧ match fst (kb_analyze_coverage ctx include_stale w) with
    | Ok r =>
        origins_total r = length (_list_markdown_files ctx w)
        ∧ (length (missing_cards_for_origins (coverage r))
           + length (stale_cards_for_origins (coverage r)) ≤ origins_total r)%nat
        ∧ (length (invalid_card_md_files (coverage r))
           ≤ length (stale_cards_for_origins (coverage r)))%nat
        ∧ (include_stale = false →
           stale_cards_for_origins (coverage r) = []
           ∧ invalid_card_md_files (coverage r) = [])
    | Raise _ => True
    end.
Proof.
  unfold kb_analyze_coverage, bind.
  pose proof (coverage_loop ctx include_stale (_list_markdown_files ctx w) no_coverage w)
    as [Hw Hloop].
  destruct (for_fold _ no_coverage (_list_markdown_files ctx w) w) as [[cov|e] w1];
    cbn [fst snd ret origins_total coverage] in *; subst w1; [|done].
  split; [done|]. destruct Hloop as (R1 & R2 & R3 & R4).
  unfold no_coverage in R1, R2, R3, R4.
  cbn [missing_cards_for_origins stale_cards_for_origins invalid_card_md_files length]
    in R1, R2, R3, R4.
  split; [done|]. split; [lia|]. split; [lia|]. done.
Qed.

End CoverageReport.

(** ** Staleness *)

Section Staleness.
Context `{Runtime}.

(** The corpus listing reads the working directory and the files only. *)
Lemma list_markdown_files_ext ctx w w' :
  cwd w = cwd w' → files w = files w' →
  _list_markdown_files ctx w = _list_markdown_files ctx w'.
Proof. intros Hc Hf. unfold _list_markdown_files. by rewrite Hc, Hf. Qed.

(** One step of the loop of the coverage analysis keeps what [stale] holds,
    and adds to [missing] only a document without card files. *)
Lemma coverage_doc_lists ctx include_stale acc md w cov :
  fst (coverage_doc ctx include_stale acc md w) = Ok cov →
  (∀ x, x ∈ stale_cards_for_origins acc → x ∈ stale_cards_for_origins cov)
  ∧ (∀ x, x ∈ missing_cards_for_origins cov →
          x ∈ missing_cards_for_origins acc ∨ cards_of w x = []).
Proof.
  unfold coverage_doc, bind.
  pose proof (origin_rel_world ctx md w) as Hw.
  destruct (_origin_rel ctx md w) as [[rel|e] w1]; cbn [snd] in Hw; subst w1; [|done].
  destruct (cards_of w rel) as [|m ms] eqn:Hm.
  - cbn. intros [= <-]. cbn. split; [done|]. intros x [Hx|Hx]%elem_of_app; [by left|].
    apply list_elem_of_singleton in Hx as ->. by right.
  - destruct include_stale.
    + unfold file_sha256. destruct (files w !! parts md) as [[b|e]|]; [|done..].
      destruct (scan_cards rel _ (m :: ms)) as [bad inv]. cbn. intros [= <-]. cbn.
      split; [|by left]. intros x Hx. destruct bad; [|done].
      apply elem_of_app. by left.
    + cbn. intros [= <-]. split; [done|]. by left.
Qed.

Lemma coverage_loop_lists ctx include_stale docs :
  ∀ acc w cov,
  fst (for_fold (coverage_doc ctx include_stale) acc docs w) = Ok cov →
  (∀ x, x ∈ stale_cards_for_origins acc → x ∈ stale_cards_for_origins cov)
  ∧ (∀ x, x ∈ missing_cards_for_origins cov →
          x ∈ missing_cards_for_origins acc ∨ cards_of w x = []).
Proof.
  induction docs as [|md docs IH]; intros acc w cov.
  - cbn. intros [= <-]. split; [done|]. by left.
  - cbn [for_fold]. unfold bind.
    pose proof (coverage_doc_step ctx include_stale acc md w) as [Hw _].
    pose proof (coverage_doc_lists ctx include_stale acc md w) as Hstep.
    destruct (coverage_doc ctx include_stale acc md w) as [[cov1|e] w1];
      cbn [fst snd] in *; subst w1; [|done].
    destruct (Hstep cov1 eq_refl) as [S1 S2]. intros Hrest.
    destruct (IH cov1 w cov Hrest) as [R1 R2]. split.
    + intros x Hx. by apply R1, S1.
    + intros x Hx. destruct (R2 x Hx) as [Hm|Hn]; [by apply S2 | by right].
Qed.

(** A document whose step appends it to [stale] is in [stale] when the loop
    ends. *)
Lemma coverage_loop_stale ctx docs p rel w :
  (∀ acc, ∃ cov, coverage_doc ctx true acc p w = (Ok cov, w)
                 ∧ stale_cards_for_origins cov = stale_cards_for_origins acc ++ [rel]) →
  p ∈ docs →
  ∀ acc cov, fst (for_fold (coverage_doc ctx true) acc docs w) = Ok cov →
  rel ∈ stale_cards_for_origins cov.
Proof.
  intros Hp. induction docs as [|md docs IH]; intros Hin acc cov; [by apply elem_of_nil in Hin|].
  cbn [for_fold]. unfold bind.
  apply elem_of_cons in Hin as [->|Hin].
  - destruct (Hp acc) as (cov1 & -> & Hst). intros Hrest.
    apply (coverage_loop_lists ctx true docs cov1 w cov Hrest).
    rewrite Hst. apply elem_of_app. right. by apply list_elem_of_singleton.
  - pose proof (coverage_doc_step ctx true acc md w) as [Hw _].
    destruct (coverage_doc ctx true acc md w) as [[cov1|e] w1];
      cbn [fst snd] in *; subst w1; [|done].
    by apply IH.
Qed.

(** X8. Staleness detection.  Let a document be synthesized under the
    relative path [rel] that [_origin_rel] gives for its resolved path [p];
    assume its digest has the shape of a SHA-256 hex digest and the file
    names written for it match its pattern [card_*_<stem>.md].  Afterwards
    let the bytes of the document change so that the digest is another one,
    the working directory and the card directory staying as they are.  Then
    the step of the loop of [kb_analyze_coverage] for the document, with the
    staleness check, appends [rel] to [stale] and leaves [missing] as it
    is, whatever the lists hold before; and when the document is in the
    corpus, every report [kb_analyze_coverage] returns with the staleness
    check lists [rel] in [stale] and not in [missing]. *)
Theorem changed_document_is_stale (ctx : ToolContext) (rel : ustr) (force : bool)
    (w w' w2 : World) (r : UpsertResult) (p : Path) (t h : ustr) (b2 : string) :
  let stem := path_stem (path_of_str rel) in
  fst (load_doc ctx rel w) = Ok (p, t, h) →
  hex_digest h →
  fst (_origin_rel ctx p w) = Ok rel →
  (∀ id, glob_match (md_filename id stem) (card_pattern stem) = true) →
  kb_upsert_cards_for_markdown ctx rel force w = (Ok r, w') →
  cwd w2 = cwd w' → cards_md w2 = cards_md w' →
  files w2 !! parts p = Some (FileBytes b2) →
  sha256_hexdigest (bytes_of b2) ≠ h →
  (∀ acc, ∃ cov, coverage_doc ctx true acc p w2 = (Ok cov, w2)
                 ∧ missing_cards_for_origins cov = missing_cards_for_origins acc
                 ∧ stale_cards_for_origins cov = stale_cards_for_origins acc ++ [rel])
  ∧ (p ∈ _list_markdown_files ctx w2 →
     ∀ report, fst (kb_analyze_coverage ctx true w2) = Ok report →
       rel ∈ stale_cards_for_origins (coverage report)
       ∧ rel ∉ missing_cards_for_origins (coverage report)).
Proof.
  intros stem Hl Hh Hrel Hglob Hup Hcwd2 Hmd2 Hfile2 Hneq.
  destruct (upsert_inv _ _ _ _ _ _ Hup)
    as (p' & t' & h' & cards & fs & Hl' & Hne & Hfs & _ & _ & Hmd & Hcwd & Hfiles).
  rewrite Hl in Hl'. injection Hl' as <- <- <-. fold stem in Hfs, Hmd.
  assert (Hrel' : _origin_rel ctx p w2 = (Ok rel, w2)).
  { apply origin_rel_run. rewrite (origin_rel_ext ctx p w2 w); [done|congruence]. }
  assert (Hsame : cards_of w2 rel = cards_of w' rel).
  { unfold cards_of, glob_cards. by rewrite Hmd2. }
  assert (Hmatch : cards_of w2 rel ≠ []).
  { rewrite Hsame. subst fs. by eapply fresh_matches. }
  assert (Hstep : ∀ acc, ∃ cov, coverage_doc ctx true acc p w2 = (Ok cov, w2)
            ∧ missing_cards_for_origins cov = missing_cards_for_origins acc
            ∧ stale_cards_for_origins cov = stale_cards_for_origins acc ++ [rel]).
  { intros acc. unfold coverage_doc, bind. rewrite Hrel'.
    destruct (cards_of w2 rel) as [|m ms] eqn:Hm; [done|].
    rewrite (file_sha256_ext p w2 b2) by done.
    rewrite <- Hm, scan_cards_first_bad.
    set (h2 := sha256_hexdigest (bytes_of b2)) in *.
    destruct (first_bad h2 (cards_of w2 rel)) as [[name node]|] eqn:Hfb.
    - eexists. split; [reflexivity|]. done.
    - exfalso. destruct cards as [|rc cards]; [done|].
      set (nm := fst (card_file ctx rel h (extract_title t stem) stem 0 rc)).
      assert (Hin : nm ∈ map fst fs) by (subst fs; cbn; by left).
      subst fs. destruct (written_sha _ _ _ _ _ _ (cleaned w stem) _ Hh Hin)
        as (n & Hlook & Hsha).
      assert (Hg : In (nm, n) (cards_of w2 rel)).
      { unfold cards_of, glob_cards. fold stem. apply filter_In. split.
        - apply list_elem_of_In, elem_of_map_to_list. by rewrite Hmd2, Hmd.
        - apply Hglob. }
      pose proof (find_none _ _ Hfb _ Hg) as Hcur. cbn [snd] in Hcur.
      apply negb_false_iff, card_current_iff in Hcur. rewrite Hsha in Hcur.
      by injection Hcur as <-. }
  split; [done|]. intros Hin report. unfold kb_analyze_coverage, bind.
  destruct (for_fold _ no_coverage (_list_markdown_files ctx w2) w2) as [[cov|e] w3] eqn:Hrun;
    cbn [fst ret]; [|done].
  intros [= <-]. cbn [coverage].
  assert (Hfst : fst (for_fold (coverage_doc ctx true) no_coverage
                        (_list_markdown_files ctx w2) w2) = Ok cov) by by rewrite Hrun.
  split.
  - eapply coverage_loop_stale; [|done..].
    intros acc. destruct (Hstep acc) as (cov1 & ? & _ & ?). by exists cov1.
  - intros Hmiss.
    destruct (coverage_loop_lists ctx true _ _ _ _ Hfst) as [_ Hm].
    destruct (Hm rel Hmiss) as [Hnil|Hnil]; [by apply elem_of_nil in Hnil | done].
Qed.

End Staleness.

(** ** Paths below the root *)

Lemma join_app_prefix (sep : ustr) (r c : list ustr) :
  ∃ t, join sep (r ++ c) = join sep r ++ t.
Proof.
  induction r as [|p r IH]; [by exists (join sep c)|].
  destruct r as [|q r].
  - destruct c as [|d c]; [exists []; cbn; by rewrite app_nil_r|].
    cbn [app]. rewrite join_cons2. by eexists.
  - destruct IH as [t Ht]. exists t. cbn [app] in *.
    rewrite !join_cons2, Ht. by rewrite <- !app_assoc.
Qed.

Lemma strip_parts_spec base ps r : strip_parts base ps = Some r ↔ ps = base ++ r.
Proof.
  revert ps. induction base as [|b base IH]; intros ps; cbn [strip_parts app].
  - split; [by intros [= ->] | by intros ->].
  - destruct ps as [|c ps]; [done|]. unfold ustr_eqb.
    destruct (decide (b = c)) as [->|Hne].
    + rewrite bool_decide_eq_true_2 by done. rewrite IH.
      split; [by intros -> | by intros [= ->]].
    + rewrite bool_decide_eq_false_2 by done. split; [done | by intros [= ? _]].
Qed.

Lemma resolve_anchored cwd p : anchored (resolve cwd p) = true.
Proof. done. Qed.

(** X15. The containment check of [_resolve_origin] never rejects a path
    that lies in the root: when the parts of the resolved root are a leading
    run of the parts of the resolved path, the path is accepted.  So a
    rejected path is one that [relative_to] rejects as well. *)
Theorem resolve_origin_accepts_inside (ctx : ToolContext) (rel_path : ustr) (w : World) :
  let p := resolve (cwd w) (joinpath (origins_dir (kb ctx)) (path_of_str rel_path)) in
  let root := resolve (cwd w) (origins_dir (kb ctx)) in
  (is_Some (relative_to p root) → _resolve_origin ctx rel_path w = (Ok p, w))
  ∧ (is_ok (fst (_resolve_origin ctx rel_path w)) = false → relative_to p root = None).
Proof.
  intros p root.
  assert (Hin : is_Some (relative_to p root) →
                startswith (path_str p) (path_str root) = true).
  { intros [r Hr]. unfold relative_to in Hr.
    rewrite bool_decide_eq_true_2 in Hr by done.
    destruct (strip_parts (parts root) (parts p)) as [r'|] eqn:Hs; [|done].
    apply strip_parts_spec in Hs. unfold path_str.
    change (anchored p) with true. change (anchored root) with true. cbv iota.
    rewrite Hs.
    destruct (join_app_prefix [c_slash] (parts root) r') as [t ->].
    apply startswith_spec. by exists t. }
  unfold _resolve_origin. fold p root. split.
  - intros Hsome. by rewrite (Hin Hsome).
  - destruct (startswith (path_str p) (path_str root)) eqn:Hsw; [done|]. intros _.
    destruct (relative_to p root) as [r|]; [|done].
    by specialize (Hin (ex_intro _ r eq_refl)).
Qed.

Lemma removelast_Forall {A} (P : A → Prop) (l : list A) :
  Forall P l → Forall P (removelast l).
Proof.
  induction 1 as [|x l Hx Hl IH]; [done|]. cbn [removelast].
  destruct l; [constructor | by constructor].
Qed.

Lemma resolve_step_clean acc comps :
  Forall (fun c => c ≠ s_dotdot) comps → fold_left resolve_step comps acc = acc ++ comps.
Proof.
  intros Hc. revert acc. induction Hc as [|c comps Hne _ IH]; intros acc.
  - by rewrite app_nil_r.
  - cbn [fold_left]. unfold resolve_step at 2, ustr_eqb.
    rewrite bool_decide_eq_false_2 by done. rewrite IH. by rewrite <- app_assoc.
Qed.

Lemma resolve_fold_no_dotdot ps acc :
  Forall (fun c => c ≠ s_dotdot) acc →
  Forall (fun c => c ≠ s_dotdot) (fold_left resolve_step ps acc).
Proof.
  revert acc. induction ps as [|c ps IH]; intros acc Hacc; [done|].
  cbn [fold_left]. apply IH. unfold resolve_step, ustr_eqb.
  destruct (decide (c = s_dotdot)) as [->|Hne].
  - rewrite bool_decide_eq_true_2 by done. by apply removelast_Forall.
  - rewrite bool_decide_eq_false_2 by done. apply Forall_app. split; [done|].
    by constructor.
Qed.

Lemma resolve_parts_app ps comps :
  Forall (fun c => c ≠ s_dotdot) comps →
  resolve_parts (ps ++ comps) = resolve_parts ps ++ comps.
Proof.
  intros Hc. unfold resolve_parts. rewrite fold_left_app. by apply resolve_step_clean.
Qed.

Lemma resolve_parts_resolved ps comps :
  Forall (fun c => c ≠ s_dotdot) comps →
  resolve_parts (resolve_parts ps ++ comps) = resolve_parts ps ++ comps.
Proof.
  intros Hc. unfold resolve_parts at 1.
  assert (Hall : Forall (fun c => c ≠ s_dotdot) (resolve_parts ps ++ comps)).
  { apply Forall_app. split; [|done]. by apply resolve_fold_no_dotdot. }
  exact (resolve_step_clean [] _ Hall).
Qed.

Lemma split_on_go_prefix sep h w s :
  sep ∉ h → split_on_go sep w (h ++ s) = split_on_go sep (rev h ++ w) s.
Proof.
  revert w. induction h as [|c h IH]; intros w Hh; [done|].
  apply not_elem_of_cons in Hh as [Hc Hh]. cbn [app split_on_go].
  destruct (N.eqb_spec c sep) as [->|_]; [done|].
  rewrite IH by done. cbn [rev]. by rewrite <- app_assoc.
Qed.

Lemma split_on_join sep comps :
  comps ≠ [] → Forall (fun c => sep ∉ c) comps →
  split_on sep (join [sep] comps) = comps.
Proof.
  intros Hne Hc. unfold split_on. induction Hc as [|p comps Hp Hc IH]; [done|].
  destruct comps as [|q comps].
  - cbn [join]. pose proof (split_on_go_prefix sep p [] [] Hp) as Hs.
    rewrite !app_nil_r in Hs. rewrite Hs. cbn [split_on_go]. by rewrite rev_involutive.
  - rewrite join_cons2, split_on_go_prefix by done. rewrite app_nil_r.
    cbn [app split_on_go]. rewrite N.eqb_refl, rev_involutive. by rewrite IH.
Qed.

Lemma valid_names_path comps :
  comps ≠ [] → Forall valid_name comps →
  path_of_str (join [c_slash] comps) = mkPath false comps.
Proof.
  intros Hne Hv. unfold path_of_str. f_equal.
  - destruct comps as [|p comps]; [done|]. inversion Hv as [|? ? (Hp & _ & _ & Hs) _]; subst.
    destruct p as [|c p]; [done|]. apply not_elem_of_cons in Hs as [Hc _].
    assert (Hj : ∃ t, join [c_slash] ((c :: p) :: comps) = c :: t).
    { destruct comps; [by eexists | rewrite join_cons2; by eexists]. }
    destruct Hj as [t ->]. cbn [startswith]. 
    destruct (N.eqb_spec c_slash c) as [<-|_]; [done|]. done.
  - rewrite split_on_join; [|done|].
    + induction Hv as [|c comps (Hc & Hd & _) _ IH]; [done|]. cbn [List.filter].
      unfold ustr_eqb at 1 2. rewrite !bool_decide_eq_false_2 by done.
      cbn [negb andb]. destruct comps as [|q comps]; [done|]. by rewrite IH.
    + eapply Forall_impl; [exact Hv|]. by intros c (_ & _ & _ & ?).
Qed.

Section RoundTrip.
Context `{Runtime}.

(** X16. Relative paths round-trip.  For a file below the resolved root
    whose path components [comps] are file names, [_origin_rel] gives the
    components joined by [/], and [_resolve_origin] of that string gives the
    file back.  So a document the corpus listing returns is found again by
    its relative path. *)
Theorem origin_rel_round_trip (ctx : ToolContext) (w : World) (comps : list ustr) :
  comps ≠ [] → Forall valid_name comps →
  let root := resolve (cwd w) (origins_dir (kb ctx)) in
  let md := mkPath true (parts root ++ comps) in
  _origin_rel ctx md w = (Ok (join [c_slash] comps), w)
  ∧ _resolve_origin ctx (join [c_slash] comps) w = (Ok md, w).
Proof.
  intros Hne Hv root md.
  assert (Hclean : Forall (fun c => c ≠ s_dotdot) comps).
  { eapply Forall_impl; [exact Hv|]. by intros c (_ & _ & ? & _). }
  assert (Hmd : resolve (cwd w) md = md).
  { unfold resolve, md. cbn [anchored parts root resolve]. f_equal.
    by apply resolve_parts_resolved. }
  split.
  - unfold _origin_rel. rewrite Hmd. fold root. unfold relative_to.
    rewrite bool_decide_eq_true_2 by done.
    assert (Hs : strip_parts (parts root) (parts md) = Some comps)
      by by apply strip_parts_spec.
    rewrite Hs. cbn [fmap option_fmap option_map]. unfold path_str. cbn [anchored parts].
    by destruct comps.
  - assert (Hp : resolve (cwd w) (joinpath (origins_dir (kb ctx))
                                    (path_of_str (join [c_slash] comps))) = md).
    { rewrite valid_names_path by done. unfold joinpath, resolve, md, root.
      cbn [anchored parts resolve]. f_equal.
      destruct (anchored (origins_dir (kb ctx))).
      - by apply resolve_parts_app.
      - rewrite app_assoc. by apply resolve_parts_app. }
    pose proof (join_app_prefix [c_slash] (parts root) comps) as [t Ht].
    unfold _resolve_origin. rewrite Hp. fold root.
    assert (Hsw : startswith (path_str md) (path_str root) = true).
    { unfold path_str. cbn [anchored parts md root resolve]. fold root.
      cbn [parts root resolve] in Ht. rewrite Ht. apply startswith_spec. by exists t. }
    by rewrite Hsw.
Qed.

End RoundTrip.

(** ** The corpus listing *)

Lemma ustr_leb_total a b : ustr_leb a b = true ∨ ustr_leb b a = true.
Proof.
  revert b. induction a as [|x a IH]; intros b; [by left|].
  destruct b as [|y b]; [by right|]. cbn [ustr_leb].
  destruct (N.ltb_spec x y) as [Hxy|Hxy]; [by left|].
  destruct (N.ltb_spec y x) as [Hyx|Hyx]; [by right|].
  assert (x = y) as -> by lia. rewrite N.eqb_refl. cbn [orb andb]. apply IH.
Qed.

Lemma parts_leb_total a b : parts_leb a b = true ∨ parts_leb b a = true.
Proof.
  revert b. induction a as [|x a IH]; intros b; [by left|].
  destruct b as [|y b]; [by right|]. cbn [parts_leb]. unfold ustr_eqb.
  destruct (decide (x = y)) as [->|Hne].
  - rewrite !bool_decide_eq_true_2 by done. apply IH.
  - rewrite !bool_decide_eq_false_2 by done. apply ustr_leb_total.
Qed.

Lemma Sorted_map_parts (l : list (list ustr)) :
  Sorted (fun a b => Is_true (parts_leb a b)) l →
  Sorted (fun a b : Path => parts_leb (parts a) (parts b) = true) (map (mkPath true) l).
Proof.
  induction 1 as [|x l Hl IH Hhd]; [constructor|]. cbn [map].
  constructor; [done|]. destruct Hhd as [|y l Hxy]; constructor.
  cbn [parts]. by apply Is_true_true.
Qed.

Section Listing.
Context `{Runtime}.

(** X17. The corpus listing.  [_list_markdown_files] returns exactly the
    files strictly below the resolved root whose suffix, in lower case, is
    [.md], [.yml] or [.yaml]; each of them once; in the order of their
    paths. *)
Theorem list_markdown_files_spec (ctx : ToolContext) (w : World) :
  let base := parts (resolve (cwd w) (origins_dir (kb ctx))) in
  let docs := _list_markdown_files ctx w in
  (∀ p, p ∈ docs
        ↔ anchored p = true
          ∧ is_Some (files w !! parts p)
          ∧ (∃ c comps, parts p = base ++ c :: comps)
          ∧ str_lower (path_suffix p) ∈ exts)
  ∧ NoDup docs
  ∧ Sorted (fun a b => parts_leb (parts a) (parts b) = true) docs.
Proof.
  intros base docs. unfold docs, _list_markdown_files. fold base.
  set (wanted := fun ps : list ustr =>
         match strip_parts base ps with Some (_ :: _) => true | _ => false end
         && bool_decide (str_lower (path_suffix (mkPath true ps)) ∈ exts)).
  set (keys := map fst (map_to_list (files w))).
  set (R := fun a b : list ustr => Is_true (parts_leb a b)).
  pose proof (merge_sort_Permutation R (List.filter wanted keys)) as Hperm.
  assert (Hkeys : ∀ ps, ps ∈ keys ↔ is_Some (files w !! ps)).
  { intros ps. unfold keys. rewrite list_elem_of_fmap. split.
    - intros ([k n] & -> & Hin). apply elem_of_map_to_list in Hin. by exists n.
    - intros [n Hn]. exists (ps, n). split; [done|]. by apply elem_of_map_to_list. }
  assert (Hwanted : ∀ ps, wanted ps = true
            ↔ (∃ c comps, ps = base ++ c :: comps)
              ∧ str_lower (path_suffix (mkPath true ps)) ∈ exts).
  { intros ps. unfold wanted. rewrite andb_true_iff, bool_decide_eq_true.
    assert (Hb : match strip_parts base ps with Some (_ :: _) => true | _ => false end = true
                 ↔ ∃ c comps, ps = base ++ c :: comps).
    { destruct (strip_parts base ps) as [[|c comps]|] eqn:Hs.
      - apply strip_parts_spec in Hs. split; [done|]. intros (c & comps & Hps).
        rewrite Hps in Hs. apply app_inv_head in Hs. done.
      - apply strip_parts_spec in Hs. split; [|done]. intros _. by exists c, comps.
      - split; [done|]. intros (c & comps & Hps).
        apply strip_parts_spec in Hps. congruence. }
    by rewrite Hb. }
  split; [|split].
  - intros p. rewrite list_elem_of_fmap. split.
    + intros (ps & -> & Hin). rewrite Hperm in Hin.
      apply list_elem_of_In, filter_In in Hin as [Hin Hw].
      apply list_elem_of_In, Hkeys in Hin. apply Hwanted in Hw as [Hb He]. done.
    + intros (Ha & Hf & Hb & He). destruct p as [a ps]. cbn [anchored parts] in *.
      subst a. exists ps. split; [done|]. rewrite Hperm.
      apply list_elem_of_In, filter_In. split.
      * by apply list_elem_of_In, Hkeys.
      * by apply Hwanted.
  - apply NoDup_fmap_2; [by intros a b [= ->]|]. rewrite Hperm.
    apply NoDup_ListNoDup, List.NoDup_filter, NoDup_ListNoDup. unfold keys.
    apply NoDup_fst_map_to_list.
  - apply Sorted_map_parts.
    apply (@Sorted_merge_sort _ R _ (fun a b => match parts_leb_total a b with
                                                | or_introl Hl => or_introl (Is_true_true_2 _ Hl)
                                                | or_intror Hr => or_intror (Is_true_true_2 _ Hr)
                                                end)).
Qed.

End Listing.

(** ** The removal of old card files *)

Section Cleanup.
Context `{Runtime}.


End Cleanup.

(** ** The role of the agent *)

(** X19. [kb_set_role].  The call succeeds exactly when the new role is not
    blank.  It then stores the role stripped, which is never empty, and
    changes nothing else of the context; it reports the old and the new
    role; setting the stored role again changes nothing; and every prompt
    built for the generator afterwards carries the stored role.  A blank
    role (or [None]) raises [ValueError] and leaves the context as it was. *)
Theorem kb_set_role_spec (ctx : ToolContext) (new_role : option ustr) :
  let r := strip (default [] new_role) in
  match kb_set_role ctx new_role with
  | (Ok res, ctx') =>
      all_space (default [] new_role) = false
      ∧ res = {| sr_ok := true; sr_before := role ctx; sr_after := r |}
      ∧ ctx' = with_role ctx r
      ∧ role ctx' ≠ [] ∧ strip (role ctx') = role ctx'
      ∧ kb_set_role ctx' (Some (role ctx'))
        = (Ok {| sr_ok := true; sr_before := r; sr_after := r |}, ctx')
      ∧ ∀ origin doc g ex, wp_role (_writer_prompt ctx' origin doc g ex) = r
  | (Raise e, ctx') =>
      all_space (default [] new_role) = true
      ∧ e = Exc s_ValueError (u "role is empty")
      ∧ ctx' = ctx
  end.
Proof.
  intros r. unfold kb_set_role. fold r.
  pose proof (strip_nil_iff (default [] new_role)) as Hnil. fold r in Hnil.
  destruct r as [|c r'] eqn:Hr; cbn [py_truthy negb].
  - split; [by apply Hnil | done].
  - split.
    { destruct (all_space _); [|done]. destruct Hnil as [_ Hnil].
      by specialize (Hnil eq_refl). }
    split; [done|]. split; [done|]. cbn [role with_role]. split; [done|].
    assert (Hs : strip (c :: r') = c :: r').
    { rewrite <- Hr. apply strip_idempotent. }
    split; [done|]. split; [|done].
    unfold kb_set_role. cbn [default from_option id role with_role].
    rewrite Hs. cbn [py_truthy negb]. done.
Qed.

(** ** Reading a document *)

Section ReadMarkdownFacts.
Context `{Runtime}.
Variable modified_at : World -> Path -> ustr.

(** [kb_read_markdown] in closed form. *)
Lemma read_markdown_closed ctx rel max_chars w :
  kb_read_markdown modified_at ctx rel max_chars w
  = match fst (load_doc ctx rel w) with
    | Ok (p, text, _) =>
        match files w !! parts p with
        | Some (FileBytes b) =>
            (Ok {| rd_path := rel;
                   rd_size_bytes := String.length b;
                   rd_modified_at := modified_at w p;
                   rd_content := if (max_chars <? Z.of_nat (length text))%Z
                                 then slice_to text max_chars ++ s_truncated
                                 else text |}, w)
        | _ => (Raise (Exc s_FileNotFoundError []), w)
        end
    | Raise e => (Raise e, w)
    end.
Proof.
  unfold kb_read_markdown, load_doc, raise.
  destruct rel as [|c rel]; [done|]. cbn [py_truthy negb].
  unfold bind, _resolve_origin, read_text, file_sha256, stat_size, ret. cbv zeta.
  destruct (negb (startswith _ _)); [done|]. cbv beta iota.
  destruct (files w !! _) as [[b|e]|] eqn:Hfile; try done.
  destruct (decode_text b) as [t|e] eqn:Hd; [|done]. cbv beta iota.
  rewrite Hfile. cbn [fst parts]. by rewrite Hfile.
Qed.


(** X21. Truncation in [kb_read_markdown].  For a limit [max_chars] that is
    not negative, the content returned is the text of the document when that
    has at most [max_chars] characters, and otherwise its first [max_chars]
    characters followed by the 13 characters of the truncation mark; so its
    first [max_chars] characters are those of the text, and it is never
    longer than [max_chars + 13].  The size reported is the number of bytes
    of the file, and the path is the argument as it was given. *)
Theorem read_markdown_truncation (ctx : ToolContext) (rel : ustr) (max_chars : Z)
    (w w' : World) (r : ReadResult) :
  (0 ≤ max_chars)%Z →
  kb_read_markdown modified_at ctx rel max_chars w = (Ok r, w') →
  rd_path r = rel
  ∧ ∃ p b text,
      fst (_resolve_origin ctx rel w) = Ok p
      ∧ files w !! parts p = Some (FileBytes b)
      ∧ decode_text b = Ok text
      ∧ rd_size_bytes r = String.length b
      ∧ rd_content r
        = (if (Z.of_nat (length text) <=? max_chars)%Z then text
           else take (Z.to_nat max_chars) text ++ s_truncated)
      ∧ take (Z.to_nat max_chars) (rd_content r) = take (Z.to_nat max_chars) text
      ∧ (Z.of_nat (length (rd_content r)) ≤ max_chars + 13)%Z.
Proof.
  intros Hmax. rewrite read_markdown_closed.
  destruct (fst (load_doc ctx rel w)) as [[[p t] h]|e] eqn:Hl; [|done].
  apply load_doc_inv in Hl as (_ & Hres & b & Hfile & Hdec & _). rewrite Hfile.
  intros [= <- <-]. cbn [rd_path rd_size_bytes rd_content]. split; [done|].
  exists p, b, t. split; [done|]. split; [done|]. split; [done|]. split; [done|].
  unfold slice_to. destruct (Z.ltb_spec max_chars 0) as [?|_]; [lia|].
  destruct (Z.ltb_spec max_chars (Z.of_nat (length t))) as [Hlt|Hge].
  - destruct (Z.leb_spec (Z.of_nat (length t)) max_chars) as [?|_]; [lia|].
    split; [done|]. split.
    + rewrite take_app_le by (rewrite length_take; lia). by rewrite take_take, Nat.min_id.
    + rewrite length_app, length_take. change (length s_truncated) with 13%nat. lia.
  - destruct (Z.leb_spec (Z.of_nat (length t)) max_chars) as [_|?]; [|lia].
    split; [done|]. split; [done|]. lia.
Qed.

End ReadMarkdownFacts.

(** ** The parser loop *)

Section ParserLoopFacts.
Context `{Runtime}.
Variable llm : ChatModel.
Variable Parsed : Type.
Variable parse : ustr -> Result Parsed.
Variable fmt : ustr.
Variable json_loads : ustr -> Result pyval.

(** One iteration of the loop. *)
Lemma parse_loop_step (prompt full : ustr) (remaining : nat) (sent : list ustr) :
  parse_loop llm Parsed parse fmt json_loads prompt full (S remaining) sent
  = match invoke llm sent full with
    | Ok content =>
        match parse_answer Parsed parse json_loads (content_text content) with
        | Ok a => (Ok a, sent ++ [full])
        | Raise e =>
            match remaining with
            | O => (Raise e, sent ++ [full])
            | S _ =>
                parse_loop llm Parsed parse fmt json_loads prompt
                  (reprompt fmt prompt (content_text content)) remaining (sent ++ [full])
            end
        end
    | Raise e => (Raise e, sent ++ [full])
    end.
Proof.
  cbn [parse_loop]. unfold _invoke_llm_text. by destruct (invoke llm sent full).
Qed.

(** The loop with at least one iteration to go: the prompts it sends
    ([new], then [last]), what each earlier answer was, and how the answer
    to the last prompt decides the result. *)
Lemma parse_loop_spec (prompt : ustr) (remaining : nat) (full : ustr) (sent : list ustr) :
  let run := parse_loop llm Parsed parse fmt json_loads prompt full (S remaining) sent in
  ∃ new last,
    snd run = sent ++ new ++ [last]
    ∧ (length (new ++ [last]) ≤ S remaining)%nat
    ∧ (∃ rest, new ++ [last] = full :: rest
               ∧ Forall (fun p => ∃ t, p = reprompt fmt prompt t) rest)
    ∧ (∀ i p, new !! i = Some p →
         ∃ content e,
           invoke llm (sent ++ take i new) p = Ok content
           ∧ parse_answer Parsed parse json_loads (content_text content) = Raise e
           ∧ (new ++ [last]) !! S i = Some (reprompt fmt prompt (content_text content)))
    ∧ match invoke llm (sent ++ new) last with
      | Raise e => fst run = Raise e
      | Ok content =>
          match parse_answer Parsed parse json_loads (content_text content) with
          | Ok a => fst run = Ok a
          | Raise e => fst run = Raise e ∧ length (new ++ [last]) = S remaining
          end
      end.
Proof.
  assert (Hone : ∀ (full : ustr) (sent : list ustr) (n : nat)
                   (r : Result Parsed),
    match invoke llm sent full with
    | Raise e => r = Raise e
    | Ok content =>
        match parse_answer Parsed parse json_loads (content_text content) with
        | Ok a => r = Ok a
        | Raise e => r = Raise e ∧ 1%nat = S n
        end
    end →
    ∃ new last,
      sent ++ [full] = sent ++ new ++ [last]
      ∧ (length (new ++ [last]) ≤ S n)%nat
      ∧ (∃ rest, new ++ [last] = full :: rest
                 ∧ Forall (fun p => ∃ t, p = reprompt fmt prompt t) rest)
      ∧ (∀ i p, new !! i = Some p →
           ∃ content e,
             invoke llm (sent ++ take i new) p = Ok content
             ∧ parse_answer Parsed parse json_loads (content_text content) = Raise e
             ∧ (new ++ [last]) !! S i = Some (reprompt fmt prompt (content_text content)))
      ∧ match invoke llm (sent ++ new) last with
        | Raise e => r = Raise e
        | Ok content =>
            match parse_answer Parsed parse json_loads (content_text content) with
            | Ok a => r = Ok a
            | Raise e => r = Raise e ∧ length (new ++ [last]) = S n
            end
        end).
  { intros fl st n r Hr. exists [], fl. rewrite app_nil_r. cbn [app length].
    split; [done|]. split; [lia|]. split; [exists []; split; [done | constructor]|].
    split; [by intros i p ?|]. done. }
  revert full sent. induction remaining as [|remaining IH]; intros full sent run;
    unfold run; rewrite parse_loop_step.
  - destruct (invoke llm sent full) as [content|e] eqn:Hinv.
    + destruct (parse_answer Parsed parse json_loads (content_text content)) as [a|e] eqn:Hans;
        cbn [fst snd]; apply Hone; by rewrite Hinv, Hans.
    + cbn [fst snd]; apply Hone; by rewrite Hinv.
  - destruct (invoke llm sent full) as [content|e] eqn:Hinv.
    + destruct (parse_answer Parsed parse json_loads (content_text content)) as [a|e] eqn:Hans.
      * cbn [fst snd]; apply Hone; by rewrite Hinv, Hans.
      * specialize (IH (reprompt fmt prompt (content_text content)) (sent ++ [full])).
        cbv zeta in IH.
        destruct IH as (new & last & Hsnd & Hlen & (rest & Hrest & Hre) & Hearly & Hlast).
        exists (full :: new), last.
        split; [by rewrite Hsnd, <- !app_assoc|].
        split; [cbn [app length] in *; lia|].
        split.
        { exists (new ++ [last]). split; [done|]. rewrite Hrest.
          constructor; [by eexists | done]. }
        split.
        { intros [|i] p Hp.
          - cbn in Hp. injection Hp as <-. exists content, e.
            cbn [take]. rewrite app_nil_r. split; [done|]. split; [done|].
            cbn [app]. by rewrite Hrest.
          - cbn in Hp. destruct (Hearly i p Hp) as (c' & e' & Hi & Ha & Hn).
            exists c', e'. cbn [take]. rewrite <- app_assoc in Hi. by cbn [app] in *. }
        rewrite <- app_assoc in Hlast. cbn [app] in *.
        destruct (invoke llm (sent ++ full :: new) last) as [c'|e']; [|done].
        destruct (parse_answer Parsed parse json_loads (content_text c')) as [a|e'']; [done|].
        destruct Hlast as [-> Hl]. split; [done | cbn [length] in *; lia].
    + cbn [fst snd]; apply Hone; by rewrite Hinv.
Qed.

(** X22. [_llm_parse_pydantic] calls the model at most [attempts] times.
    With no attempt allowed it calls nothing and raises
    [RuntimeError("unreachable")].  Otherwise the first prompt is the task
    with the format instructions, and every later prompt is the repair
    prompt that quotes the answer before it, sent because that answer failed
    to parse.  The answer to the last prompt decides the result: a value
    that parses is returned; an exception of the model leaves at once,
    without another attempt; an answer that fails to parse is raised only
    when all attempts are used. *)
Theorem llm_parse_attempts (prompt : ustr) (attempts : Z) (sent : list ustr) :
  let run := _llm_parse_pydantic llm Parsed parse fmt json_loads prompt attempts sent in
  if (attempts <=? 0)%Z
  then run = (Raise (Exc s_RuntimeError (u "unreachable")), sent)
  else
    ∃ new last,
      snd run = sent ++ new ++ [last]
      ∧ (Z.of_nat (length (new ++ [last])) ≤ attempts)%Z
      ∧ (∃ rest, new ++ [last] = first_prompt fmt prompt :: rest
                 ∧ Forall (fun p => ∃ t, p = reprompt fmt prompt t) rest)
      ∧ (∀ i p, new !! i = Some p →
           ∃ content e,
             invoke llm (sent ++ take i new) p = Ok content
             ∧ parse_answer Parsed parse json_loads (content_text content) = Raise e
             ∧ (new ++ [last]) !! S i = Some (reprompt fmt prompt (content_text content)))
      ∧ match invoke llm (sent ++ new) last with
        | Raise e => fst run = Raise e
        | Ok content =>
            match parse_answer Parsed parse json_loads (content_text content) with
            | Ok a => fst run = Ok a
            | Raise e =>
                fst run = Raise e ∧ Z.of_nat (length (new ++ [last])) = attempts
            end
        end.
Proof.
  intros run. unfold run, _llm_parse_pydantic.
  destruct (Z.leb_spec attempts 0) as [Hle|Hgt].
  - replace (Z.to_nat attempts) with 0%nat by lia. done.
  - destruct (Z.to_nat attempts) as [|n] eqn:Hn; [lia|].
    destruct (parse_loop_spec prompt n (first_prompt fmt prompt) sent)
      as (new & last & Hsnd & Hlen & Hrest & Hearly & Hlast).
    exists new, last. split; [done|]. split; [lia|]. split; [done|]. split; [done|].
    destruct (invoke llm (sent ++ new) last) as [c|e]; [|done].
    destruct (parse_answer Parsed parse json_loads (content_text c)) as [a|e]; [done|].
    destruct Hlast as [Hr Hl]. split; [done | lia].
Qed.

(** X23. An exception of the model is not retried.  When the first
    invocation raises, [_llm_parse_pydantic] raises that exception after
    this one call, whatever number of attempts it was given; the repair
    prompt is only for answers that arrive and fail to parse. *)
Theorem llm_parse_transport_failure (prompt : ustr) (attempts : Z) (sent : list ustr)
    (e : PyExc) :
  (0 < attempts)%Z →
  invoke llm sent (first_prompt fmt prompt) = Raise e →
  _llm_parse_pydantic llm Parsed parse fmt json_loads prompt attempts sent
  = (Raise e, sent ++ [first_prompt fmt prompt]).
Proof.
  intros Hpos Hinv. unfold _llm_parse_pydantic.
  destruct (Z.to_nat attempts) as [|n] eqn:Hn; [lia|].
  cbn [parse_loop]. unfold _invoke_llm_text. by rewrite Hinv.
Qed.

(** X24. Exhaustion.  When the model always answers and no answer parses,
    [_llm_parse_pydantic] makes exactly [attempts] calls and then raises
    what the parse of the last answer raised. *)
Theorem llm_parse_exhaustion (prompt : ustr) (attempts : Z) (sent : list ustr) :
  (0 < attempts)%Z →
  (∀ h p, is_ok (invoke llm h p) = true) →
  (∀ t, is_ok (parse_answer Parsed parse json_loads t) = false) →
  let run := _llm_parse_pydantic llm Parsed parse fmt json_loads prompt attempts sent in
  ∃ new last content e,
    snd run = sent ++ new ++ [last]
    ∧ Z.of_nat (length (new ++ [last])) = attempts
    ∧ invoke llm (sent ++ new) last = Ok content
    ∧ parse_answer Parsed parse json_loads (content_text content) = Raise e
    ∧ fst run = Raise e.
Proof.
  intros Hpos Hinv Hans run. unfold run, _llm_parse_pydantic.
  destruct (Z.to_nat attempts) as [|n] eqn:Hn; [lia|].
  destruct (parse_loop_spec prompt n (first_prompt fmt prompt) sent)
    as (new & last & Hsnd & _ & _ & _ & Hlast).
  specialize (Hinv (sent ++ new) last).
  destruct (invoke llm (sent ++ new) last) as [c|e] eqn:Hi; [|done].
  specialize (Hans (content_text c)).
  destruct (parse_answer Parsed parse json_loads (content_text c)) as [a|e] eqn:Ha; [done|].
  destruct Hlast as [Hr Hl]. exists new, last, c, e.
  split; [done|]. split; [lia|]. done.
Qed.

End ParserLoopFacts.

(** ** What a synthesis does to the card directory *)

Section CardDirectory.
Context `{Runtime}.

(** X25. The effect of a synthesis on the card directory.  After
    [kb_upsert_cards_for_markdown] returns, an entry of the card directory
    that is not one of the files it reports is there exactly when it was
    there before and either does not match the pattern [card_*_<stem>.md]
    of the document or could not be removed.  So every removable card file
    whose name matches the pattern is gone, whichever document it was
    written for: the card files of a document whose stem ends in
    [_<stem>] match the pattern as well. *)
Theorem upsert_card_directory (ctx : ToolContext) (rel : ustr) (force : bool)
    (w w' : World) (r : UpsertResult) :
  kb_upsert_cards_for_markdown ctx rel force w = (Ok r, w') →
  ∀ name, created_path ctx name ∉ cards_md_files r →
    cards_md w' !! name
    = match cards_md w !! name with
      | Some n =>
          if glob_match name (card_pattern (path_stem (path_of_str rel)))
             && negb (unlink_fails n)
          then None else Some n
      | None => None
      end.
Proof.
  intros Hup name Hname.
  destruct (upsert_inv _ _ _ _ _ _ Hup)
    as (p & t & h & cards & fs & _ & _ & Hfs & Hfiles & _ & Hmd & _ & _).
  assert (Hnot : name ∉ map fst fs).
  { intros Hin. apply Hname. rewrite Hfiles.
    apply list_elem_of_fmap in Hin as (f & -> & Hf).
    apply list_elem_of_fmap. by exists f. }
  destruct (put_card_fold_lookup fs (cleaned w (path_stem (path_of_str rel))) name)
    as [_ Hkeep].
  rewrite Hmd, (Hkeep Hnot). unfold cleaned. rewrite try_unlink_fold_lookup.
  destruct (cards_md w !! name) as [n|] eqn:Hn; [|done].
  destruct (glob_match name (card_pattern (path_stem (path_of_str rel)))) eqn:Hg.
  - rewrite bool_decide_eq_true_2; [done|]. apply glob_cards_names. by exists n.
  - rewrite bool_decide_eq_false_2; [done|]. intros Hin.
    apply glob_cards_names in Hin as (n' & _ & Hg'). congruence.
Qed.

End CardDirectory.

(** ** The verdict a synthesis keeps *)

Section VerdictShape.
Context `{Runtime}.

Lemma filter_all_kept {A} (f : A → bool) (l : list A) :
  Forall (fun x => f x = true) (List.filter f l).
Proof.
  apply Forall_forall. intros x Hx. apply list_elem_of_In, filter_In in Hx. tauto.
Qed.

(** The sanitizer on a report with a boolean [ok], a list [missing] and a
    list of titles: the types stay, the items left are those it keeps, and
    a second pass changes nothing. *)
Lemma sanitized_shape doc_text d (b0 : bool) (l : list pyval) (ts : list ustr) :
  d !! k_ok = Some (PBool b0) →
  d !! k_missing = Some (PList l) →
  d !! k_suggested_card_titles = Some (PList (map PStr ts)) →
  let out := _sanitize_judge_meta doc_text (PDict d) in
  (∃ b, out !! k_ok = Some (PBool b))
  ∧ out !! k_missing = Some (PList (List.filter (item_kept doc_text) l))
  ∧ out !! k_suggested_card_titles = Some (PList (map PStr ts))
  ∧ _sanitize_judge_meta doc_text (PDict out) = out.
Proof.
  intros Hok Hm Hs out.
  pose proof (sanitized_missing doc_text d) as Hmiss. fold out in Hmiss.
  rewrite (missing_in_list d l Hm) in Hmiss.
  assert (Hfl : flips doc_text d = negb b0 && is_empty (List.filter (item_kept doc_text) l)).
  { unfold flips, dict_get. rewrite Hok, Hm, (missing_in_list d l Hm).
    cbn [default from_option id py_truthy is_list]. by rewrite andb_true_r. }
  assert (Hout : out = _sanitize_judge_meta doc_text (PDict d)) by done.
  rewrite sanitize_dict in Hout. cbv zeta in Hout.
  split; [|split; [done|split]].
  - rewrite Hout.
    destruct (flips doc_text d), (negb (removed_count doc_text (missing_in d) =? 0)%Z);
      rewrite ?(lookup_insert_ne _ k_ok_sanitized_overridden k_ok) by done;
      rewrite ?lookup_insert_eq;
      rewrite ?(lookup_insert_ne _ k_missing_sanitized_removed k_ok) by done;
      rewrite ?(lookup_insert_ne _ k_missing k_ok) by done; rewrite ?Hok; by eexists.
  - rewrite Hout.
    destruct (flips doc_text d), (negb (removed_count doc_text (missing_in d) =? 0)%Z);
      rewrite ?(lookup_insert_ne _ k_ok_sanitized_overridden k_suggested_card_titles) by done;
      rewrite ?(lookup_insert_ne _ k_ok k_suggested_card_titles) by done;
      rewrite ?(lookup_insert_ne _ k_missing_sanitized_removed k_suggested_card_titles) by done;
      rewrite ?(lookup_insert_ne _ k_missing k_suggested_card_titles) by done; exact Hs.
  - pose proof (sanitize_second_pass doc_text d) as H2. cbv zeta in H2. fold out in H2.
    rewrite H2.
    assert (Hfl2 : flips doc_text out = false).
    { pose proof (sanitized_ok doc_text d) as Hok2. fold out in Hok2.
      unfold flips at 1. rewrite Hok2, (missing_in_list out _ Hmiss), filter_filter_same.
      rewrite Hfl. unfold dict_get. rewrite Hok. cbn [default from_option id py_truthy].
      destruct b0; cbn [negb andb]; [done|].
      by destruct (is_empty _). }
    by rewrite Hfl2.
Qed.

(** X26. The verdict a synthesis keeps is well formed and stable.  In the
    quality report of every synthesis, [ok] is a boolean, [missing] is a
    list, [suggested_card_titles] is a list of strings, every item of
    [missing] is one the sanitizer keeps (a structured item has evidence in
    the document), and sanitizing the verdict again changes nothing. *)
Theorem synthesis_verdict_shape (ctx : ToolContext) (origin doc doc_title : ustr)
    (w : World) :
  ∃ cards q w',
    synthesize ctx origin doc doc_title w = (Ok (cards, q), w')
    ∧ (∃ b, judge q !! k_ok = Some (PBool b))
    ∧ (∃ items, judge q !! k_missing = Some (PList items)
                ∧ Forall (fun i => item_kept doc i = true) items)
    ∧ (∃ ts, judge q !! k_suggested_card_titles = Some (PList (map PStr ts)))
    ∧ _sanitize_judge_meta doc (PDict (judge q)) = judge q.
Proof.
  assert (Hnote : ∀ x,
    let d : gmap ustr pyval :=
      <[k_ok := PBool false]>
        (<[k_missing := PList [PStr x]]> (<[k_suggested_card_titles := PList []]> ∅)) in
    d !! k_ok = Some (PBool false)
    ∧ d !! k_missing = Some (PList [PStr x])
    ∧ d !! k_suggested_card_titles = Some (PList (map PStr []))).
  { intros x d. unfold d. split; [by rewrite lookup_insert_eq|]. split.
    - rewrite lookup_insert_ne by done. by rewrite lookup_insert_eq.
    - rewrite !lookup_insert_ne by done. by rewrite lookup_insert_eq. }
  assert (Hverdict : ∀ h jp,
    let jm := judge_verdict ctx doc h jp in
    (∃ b, jm !! k_ok = Some (PBool b))
    ∧ (∃ items, jm !! k_missing = Some (PList items)
                ∧ Forall (fun i => item_kept doc i = true) items)
    ∧ (∃ ts, jm !! k_suggested_card_titles = Some (PList (map PStr ts)))
    ∧ _sanitize_judge_meta doc (PDict jm) = jm).
  { intros h jp jm. unfold jm, judge_verdict.
    destruct (llm_judge ctx h jp) as [j|e].
    - unfold dump_judge_result.
      set (d := <[k_ok := PBool (ok j)]> _).
      destruct (sanitized_shape doc d (ok j) (map dump_missing_item (missing j))
                  (suggested_card_titles j)) as (H1 & H2 & H3 & H4).
      { unfold d. by rewrite lookup_insert_eq. }
      { unfold d. rewrite lookup_insert_ne by done. by rewrite lookup_insert_eq. }
      { unfold d. rewrite !lookup_insert_ne by done. by rewrite lookup_insert_eq. }
      split; [done|]. split; [|by split; [eexists|]].
      eexists. split; [exact H2 | apply filter_all_kept].
    - unfold judge_error_report.
      destruct (Hnote (s_judge_parse_error ++ exc_kind e)) as (N1 & N2 & N3).
      destruct (sanitized_shape doc _ _ _ _ N1 N2 N3) as (H1 & H2 & H3 & H4).
      split; [done|]. split; [|by split; [eexists|]].
      eexists. split; [exact H2 | apply filter_all_kept]. }
  rewrite synthesize_closed. cbv zeta.
  set (c0 := gen_answer _). set (c1 := if needs_retry c0 then _ else _).
  set (h2 := if needs_retry c0 then _ else _).
  destruct (is_empty c1).
  - eexists _, _, _. split; [done|]. cbn [judge placeholder_quality].
    unfold generation_failed_report.
    destruct (Hnote s_generation_failed) as (N1 & N2 & N3).
    destruct (sanitized_shape doc _ _ _ _ N1 N2 N3) as (H1 & H2 & H3 & H4).
    split; [by eexists|]. split.
    { eexists. split; [exact N2|]. by repeat constructor. }
    split; [by exists []|].
    rewrite sanitize_dict. cbv zeta. rewrite (missing_in_list _ _ N2).
    unfold removed_count, flips. rewrite (missing_in_list _ _ N2).
    cbn [List.filter item_kept negb length Z.of_nat Z.eqb is_empty].
    rewrite andb_false_r. cbn [andb]. by rewrite (insert_id _ _ _ N2).
  - destruct (Hverdict h2 (_judge_prompt origin doc c1)) as (V1 & V2 & V3 & V4).
    destruct (negb _).
    + match goal with
      | |- context [llm_writer ?c ?h ?p] => destruct (llm_writer c h p) as [[|r' rs]|e]
      end; by eexists _, _, _.
    + by eexists _, _, _.
Qed.

End VerdictShape.

(** ** The guidance of the refinement call *)

Lemma join_elem (sep : ustr) (l : list ustr) (x : ustr) :
  x ∈ l → ∃ a b, join sep l = a ++ x ++ b.
Proof.
  induction l as [|p l IH]; [by intros ?%elem_of_nil|].
  intros [->|Hx]%elem_of_cons.
  - destruct l as [|q l]; [exists [], []; cbn; by rewrite app_nil_r|].
    rewrite join_cons2. by exists [], (sep ++ join sep (q :: l)).
  - destruct (IH Hx) as (a & b & Hab). destruct l as [|q l]; [by apply elem_of_nil in Hx|].
    rewrite join_cons2, Hab. exists (p ++ sep ++ a), b. by rewrite <- !app_assoc.
Qed.

Section Guidance.
Context `{Runtime}.

(** X27. The refinement is told every gap.  For a verdict whose [missing]
    is the list [items], the guidance of the refinement call quotes each
    structured item that has a description and an evidence, as
    [<what>\n  цитата: <evidence>] (both stripped); it holds each plain
    string item as it is; and it always ends with the fixed instruction to
    rely on the original document only. *)
Theorem refine_guidance_quotes (jm : gmap ustr pyval) (items : list pyval) :
  jm !! k_missing = Some (PList items) →
  (∀ d w e, PDict d ∈ items →
     d !! k_what = Some (PStr w) → d !! k_evidence = Some (PStr e) →
     strip w ≠ [] → strip e ≠ [] →
     str_in (strip w ++ s_quote ++ strip e) (refine_guidance jm) = true)
  ∧ (∀ s, PStr s ∈ items → str_in s (refine_guidance jm) = true)
  ∧ ∃ pre, refine_guidance jm = pre ++ s_refine_tail.
Proof.
  intros Hm.
  assert (Hin : ∀ item x, item ∈ items → x ∈ missing_part item →
                          str_in x (refine_guidance jm) = true).
  { intros item x Hitem Hx.
    assert (Hx' : x ∈ flat_map missing_part items).
    { apply list_elem_of_In, in_flat_map. exists item.
      split; by apply list_elem_of_In. }
    unfold refine_guidance, dict_get. rewrite Hm. cbn [default from_option id].
    destruct items as [|i0 items']; [by apply elem_of_nil in Hitem|].
    unfold py_or at 1 2. cbn [py_truthy py_elements].
    destruct (join_elem s_item_sep _ x Hx') as (a & b & ->).
    apply str_in_spec. exists (s_not_covered ++ a). eexists.
    rewrite <- !app_assoc. reflexivity. }
  split; [|split].
  - intros d w e Hd Hw He Hsw Hse. apply (Hin (PDict d)); [done|].
    unfold missing_part, dict_get. rewrite Hw, He. cbn [default from_option id py_str].
    destruct (strip w); [done|]. destruct (strip e); [done|]. cbn. by left.
  - intros s Hs. apply (Hin (PStr s)); [done|]. cbn. by left.
  - unfold refine_guidance. eexists. by rewrite app_assoc.
Qed.

End Guidance.

(* ===================================================================== *)
(** * Part IX. The model run on concrete inputs *)
(* ===================================================================== *)

Section Runs.
#[local] Existing Instance demo_runtime.

(** [tail.split()[0]] on a provenance comment cut after the label. *)
Example extract_sha_blank_tail :
  _extract_sha_from_md_card (u "-- d --

body

<!-- source: origins/intro.md source_sha256: ")
  = Raise (Exc s_IndexError (u "list index out of range")).
Proof. vm_compute. reflexivity. Qed.


(** The evidence example, through C3. *)
Lemma c3_witness :
  report_acme !! k_missing = Some (PList [item_zenith; item_acme; PStr (u "note")])
  ∧ _sanitize_judge_meta doc_acme (PDict report_acme) !! k_missing
    = Some (PList [item_acme; PStr (u "note")])
  ∧ _sanitize_judge_meta doc_acme (PDict report_acme) !! k_missing_sanitized_removed
    = Some (PInt 1).
Proof.
  assert (Hm : report_acme !! k_missing
               = Some (PList [item_zenith; item_acme; PStr (u "note")]))
    by (vm_compute; reflexivity).
  split; [exact Hm|].
  pose proof (c3_evidence_sanitization doc_acme report_acme _ Hm) as Hc.
  cbv zeta in Hc. destruct Hc as (Hk & _ & _ & _ & Hn). split.
  - rewrite Hk. vm_compute. reflexivity.
  - rewrite Hn. vm_compute. reflexivity.
Defined.

(** The counterexample of C4: the verdict of a failed validator call is
    negative and has no structured item, before and after the filter, yet it
    is not flipped. *)
Lemma c4_counterexample :
  let out := _sanitize_judge_meta demo_text (PDict report_judge_failed) in
  py_truthy (dict_get report_judge_failed k_ok (PBool false)) = false
  ∧ List.filter is_dict (py_elements (dict_get out k_missing PNone)) = []
  ∧ out !! k_ok = Some (PBool false)
  ∧ out !! k_ok_sanitized_overridden = None.
Proof. vm_compute. repeat split. Qed.



(** A second synthesis of an unchanged document, through C6. *)
Lemma c6_witness :
  ∃ r1 w1,
    kb_upsert_cards_for_markdown ctx_acme (u "intro.md") false world_intro = (Ok r1, w1)
    ∧ ∃ r2 w2,
        kb_upsert_cards_for_markdown ctx_acme (u "intro.md") false w1 = (Ok r2, w2)
        ∧ r2 = r1
        ∧ dom (cards_md w2) ⊆ dom (cards_md w1).
Proof.
  assert (Hok : is_ok (fst (kb_upsert_cards_for_markdown ctx_acme (u "intro.md") false
                              world_intro)) = true)
    by (vm_compute; reflexivity).
  destruct (kb_upsert_cards_for_markdown ctx_acme (u "intro.md") false world_intro)
    as [[r1|e] w1] eqn:Hrun; [|discriminate Hok].
  exists r1, w1. split; [reflexivity|].
  destruct (c6_idempotence ctx_acme (u "intro.md") false world_intro w1 r1
              (fun _ _ _ => eq_refl) (fun _ _ _ => eq_refl) Hrun)
    as (r2 & w2 & fs & p & t & h & Hrun2 & Heq & _ & _ & _ & _ & Hdom & _).
  by exists r2, w2.
Defined.


(** One synthesis, through C8. *)
Lemma c8_witness :
  ∃ r w',
    kb_upsert_cards_for_markdown ctx_acme (u "intro.md") false world_intro = (Ok r, w')
    ∧ ∃ p md_text b,
        fst (_resolve_origin ctx_acme (u "intro.md") world_intro) = Ok p
        ∧ files world_intro !! parts p = Some (FileBytes b)
        ∧ decode_text b = Ok md_text.
Proof.
  assert (Hok : is_ok (fst (kb_upsert_cards_for_markdown ctx_acme (u "intro.md") false
                              world_intro)) = true)
    by (vm_compute; reflexivity).
  destruct (kb_upsert_cards_for_markdown ctx_acme (u "intro.md") false world_intro)
    as [[r|e] w'] eqn:Hrun; [|discriminate Hok].
  exists r, w'. split; [reflexivity|].
  destruct (c8_card_file_serialization ctx_acme (u "intro.md") false world_intro w' r Hrun)
    as (p & md_text & b & Hp & Hb & Hd & _).
  by exists p, md_text, b.
Defined.

(** The counterexample of C8: a card with an empty description is written
    with nothing between the delimiters, and so without the lead-in. *)
Lemma c8_counterexample :
  let r := kb_upsert_cards_for_markdown ctx_blank (u "intro.md") false world_intro in
  let name := md_filename (card_id (u "intro.md") (demo_digest (bytes_of demo_doc_bytes))
                                   0 (u "Acme")) (u "intro") in
  description card_blank = []
  ∧ match fst r with
    | Ok res => cards_md_files res = [created_path ctx_blank name]
    | Raise _ => False
    end
  ∧ (card_content <$> cards_md (snd r) !! name)
    = Some (Ok (u "--  --

Acme does X.

<!-- source: origins/intro.md source_sha256: "
                ++ demo_digest (bytes_of demo_doc_bytes) ++ u " -->
")%list).
Proof. vm_compute. repeat split. Qed.

(** C9, at the failing input.  The relative path [../origins_evil/x.md]
    resolves to [/home/kb/origins_evil/x.md], outside the corpus root
    [/home/kb/origins]; [_resolve_origin] accepts it, because the string of
    the path starts with the string of the root, and the file is read. *)
Theorem c9_sibling_directory_escape :
  let rel := u "../origins_evil/x.md" in
  let root := resolve (cwd world_sibling) (origins_dir (kb ctx_acme)) in
  ∃ p, fst (_resolve_origin ctx_acme rel world_sibling) = Ok p
       ∧ path_str p = u "/home/kb/origins_evil/x.md"
       ∧ path_str root = u "/home/kb/origins"
       ∧ relative_to p root = None
       ∧ fst (read_text p world_sibling) = Ok (u "secret")
       ∧ is_ok (fst (kb_upsert_cards_for_markdown ctx_acme rel false world_sibling)) = true.
Proof.
  eexists. split; [vm_compute; reflexivity|]. vm_compute. repeat split.
Qed.

(** ** Runs for the further properties *)

(** The stand-in digest has the shape of a SHA-256 hex digest. *)
Lemma demo_digest_go_hex k acc bs :
  forallb is_hex (demo_digest_go k acc bs) = true
  ∧ length (demo_digest_go k acc bs) = k.
Proof.
  revert acc. induction k as [|k IH]; intros acc; [done|].
  cbn [demo_digest_go forallb length].
  set (v := fold_left _ bs acc). destruct (IH v) as [-> ->]. split; [|done].
  rewrite andb_true_r. apply is_hex_range. unfold hexdigit.
  assert (Hm : v mod 16 < 16) by (by apply N.mod_upper_bound).
  generalize dependent (v mod 16). intros m Hm.
  destruct (N.ltb_spec m 10); lia.
Qed.

Lemma demo_digest_hex bs : hex_digest (demo_digest bs).
Proof.
  destruct (demo_digest_go_hex 64 7 bs) as [Hh Hl]. split; [done|].
  unfold demo_digest. rewrite Hl. lia.
Defined.

(** The wildcard of the pattern takes any card id. *)
Lemma wildcard_star_intro (id : ustr) (f : nat) :
  (length id + 11 ≤ f)%nat →
  wildcard_go f (id ++ [95; 105; 110; 116; 114; 111; 46; 109; 100])
                (42 :: [95; 105; 110; 116; 114; 111; 46; 109; 100]) = true.
Proof.
  revert f. induction id as [|c id IH]; intros f Hf.
  - do 11 (destruct f as [|f]; [cbn in Hf; lia|]). reflexivity.
  - destruct f as [|f]; [cbn in Hf; lia|]. cbn [app wildcard_go].
    rewrite IH by (cbn [length] in Hf; lia). apply orb_true_r.
Qed.

Lemma demo_glob_intro (id : ustr) :
  demo_glob (md_filename id (u "intro")) (card_pattern (u "intro")) = true.
Proof.
  unfold demo_glob.
  replace (card_pattern (u "intro"))
    with [99; 97; 114; 100; 95; 42; 95; 105; 110; 116; 114; 111; 46; 109; 100]
    by (vm_compute; reflexivity).
  replace (md_filename id (u "intro"))
    with ([99; 97; 114; 100; 95] ++ id ++ [95; 105; 110; 116; 114; 111; 46; 109; 100])
    by reflexivity.
  set (tail := id ++ [95; 105; 110; 116; 114; 111; 46; 109; 100]).
  set (f := (length tail + 16)%nat).
  replace (S (length ([99; 97; 114; 100; 95]%N ++ tail) + _)) with (5 + f)%nat
    by (rewrite length_app; unfold f; cbn [length]; lia).
  cbn [app Nat.add wildcard_go].
  replace (99 =? 99) with true by done. replace (97 =? 97) with true by done.
  replace (114 =? 114) with true by done. replace (100 =? 100) with true by done.
  replace (95 =? 95) with true by done. cbn [andb].
  apply wildcard_star_intro. unfold f, tail. rewrite length_app. cbn [length]. lia.
Qed.

(** A run of X3: a tab and a line feed count as one space. *)
Lemma normalize_ws_space_run_witness :
  all_space [9; 10] = true
  ∧ _normalize_ws (u "Acme" ++ [9; 10] ++ u "does") = _normalize_ws (u "Acme does").
Proof.
  split; [reflexivity|].
  exact (normalize_ws_space_run (u "Acme") [9; 10] (u "does") eq_refl
           (fun E => eq_ind [9; 10] (fun l => match l with [] => False | _ => True end) I [] E)).
Defined.

Lemma intro_loads :
  fst (load_doc ctx_acme (u "intro.md") world_intro)
  = Ok (md_intro, demo_text, demo_digest (bytes_of demo_doc_bytes)).
Proof. vm_compute. reflexivity. Qed.

Lemma intro_glob (id : ustr) :
  glob_match (md_filename id (path_stem (path_of_str (u "intro.md"))))
             (card_pattern (path_stem (path_of_str (u "intro.md")))) = true.
Proof.
  replace (path_stem (path_of_str (u "intro.md"))) with (u "intro")
    by (vm_compute; reflexivity).
  apply demo_glob_intro.
Qed.

(** One synthesis, through X6. *)
Lemma written_cards_carry_digest_witness :
  ∃ r w',
    kb_upsert_cards_for_markdown ctx_acme (u "intro.md") false world_intro = (Ok r, w')
    ∧ cards_md_files r ≠ []
    ∧ ∀ path, path ∈ cards_md_files r →
        ∃ name n, path = created_path ctx_acme name
                  ∧ cards_md w' !! name = Some n
                  ∧ card_sha n = Ok (Some (demo_digest (bytes_of demo_doc_bytes))).
Proof.
  assert (Hok : is_ok (fst (kb_upsert_cards_for_markdown ctx_acme (u "intro.md") false
                              world_intro)) = true)
    by (vm_compute; reflexivity).
  destruct (kb_upsert_cards_for_markdown ctx_acme (u "intro.md") false world_intro)
    as [[r|e] w'] eqn:Hrun; [|discriminate Hok].
  exists r, w'. split; [reflexivity|].
  exact (written_cards_carry_digest ctx_acme (u "intro.md") false world_intro w' r
           md_intro demo_text _ intro_loads (demo_digest_hex _) Hrun).
Defined.

(** One synthesis and the coverage analysis after it, through X7. *)
Lemma synthesized_document_is_covered_witness :
  ∃ r w',
    kb_upsert_cards_for_markdown ctx_acme (u "intro.md") false world_intro = (Ok r, w')
    ∧ coverage_doc ctx_acme true no_coverage md_intro w' = (Ok no_coverage, w').
Proof.
  assert (Hok : is_ok (fst (kb_upsert_cards_for_markdown ctx_acme (u "intro.md") false
                              world_intro)) = true)
    by (vm_compute; reflexivity).
  destruct (kb_upsert_cards_for_markdown ctx_acme (u "intro.md") false world_intro)
    as [[r|e] w'] eqn:Hrun; [|discriminate Hok].
  exists r, w'. split; [reflexivity|].
  assert (Hrel : fst (_origin_rel ctx_acme md_intro world_intro) = Ok (u "intro.md"))
    by (vm_compute; reflexivity).
  assert (Hdel : ∀ name n, cards_md world_intro !! name = Some n →
            glob_match name (card_pattern (path_stem (path_of_str (u "intro.md")))) = true →
            unlink_fails n = false).
  { intros name n Hn. cbn [cards_md world_intro demo_world] in Hn.
    by rewrite lookup_empty in Hn. }
  exact (synthesized_document_is_covered ctx_acme (u "intro.md") false world_intro w' r
           md_intro demo_text _ true no_coverage
           intro_loads (demo_digest_hex _) Hrel intro_glob Hdel Hrun).
Defined.

(** The document changed after its synthesis, through X8: the step for the
    document, and the report of the whole analysis. *)
Lemma changed_document_is_stale_witness :
  ∃ r w',
    kb_upsert_cards_for_markdown ctx_acme (u "intro.md") false world_intro = (Ok r, w')
    ∧ (∃ cov, coverage_doc ctx_acme true no_coverage md_intro (with_changed_intro w')
              = (Ok cov, with_changed_intro w')
              ∧ missing_cards_for_origins cov = []
              ∧ stale_cards_for_origins cov = [u "intro.md"])
    ∧ ∃ report,
        fst (kb_analyze_coverage ctx_acme true (with_changed_intro w')) = Ok report
        ∧ u "intro.md" ∈ stale_cards_for_origins (coverage report)
        ∧ u "intro.md" ∉ missing_cards_for_origins (coverage report).
Proof.
  assert (Hok : is_ok (fst (kb_upsert_cards_for_markdown ctx_acme (u "intro.md") false
                              world_intro)) = true)
    by (vm_compute; reflexivity).
  pose proof (upsert_frame ctx_acme (u "intro.md") false world_intro) as [Hcwd Hfiles].
  destruct (kb_upsert_cards_for_markdown ctx_acme (u "intro.md") false world_intro)
    as [[r|e] w'] eqn:Hrun; [|discriminate Hok].
  cbn [snd] in Hcwd, Hfiles.
  exists r, w'. split; [reflexivity|].
  assert (Hrel : fst (_origin_rel ctx_acme md_intro world_intro) = Ok (u "intro.md"))
    by (vm_compute; reflexivity).
  assert (Hfile : files (with_changed_intro w') !! parts md_intro
                  = Some (FileBytes changed_doc_bytes)).
  { cbn [files with_changed_intro]. apply lookup_insert_eq. }
  assert (Hneq : sha256_hexdigest (bytes_of changed_doc_bytes)
                 ≠ demo_digest (bytes_of demo_doc_bytes)).
  { assert (Hb : ustr_eqb (sha256_hexdigest (bytes_of changed_doc_bytes))
                          (demo_digest (bytes_of demo_doc_bytes)) = false)
      by (vm_compute; reflexivity).
    by apply bool_decide_eq_false in Hb. }
  assert (Hdocs : _list_markdown_files ctx_acme (with_changed_intro w') = [md_intro]).
  { rewrite (list_markdown_files_ext ctx_acme _ (with_changed_intro world_intro)).
    - vm_compute. reflexivity.
    - exact Hcwd.
    - cbn [files with_changed_intro]. by rewrite Hfiles. }
  destruct (changed_document_is_stale ctx_acme (u "intro.md") false world_intro w'
              (with_changed_intro w') r md_intro demo_text _ changed_doc_bytes
              intro_loads (demo_digest_hex _) Hrel intro_glob Hrun eq_refl eq_refl
              Hfile Hneq) as [Hstep Hall].
  split; [exact (Hstep no_coverage)|].
  destruct (Hstep no_coverage) as (cov & Hcov & _ & _).
  exists {| origins_total := 1; coverage := cov |}.
  assert (Hrep : fst (kb_analyze_coverage ctx_acme true (with_changed_intro w'))
                 = Ok {| origins_total := 1; coverage := cov |}).
  { unfold kb_analyze_coverage. rewrite Hdocs. cbn [for_fold]. unfold bind.
    by rewrite Hcov. }
  split; [exact Hrep|].
  apply Hall; [|exact Hrep]. rewrite Hdocs. by apply list_elem_of_singleton.
Defined.

(** A synthesis with the validator down, through X12. *)
Lemma failed_validator_forces_refinement_witness :
  ∃ cards q w',
    synthesize ctx_judge_down (u "intro.md") demo_text (u "Intro") world_intro
    = (Ok (cards, q), w')
    ∧ (q = placeholder_quality
       ∨ ∃ h jp rp e,
           calls w' = h ++ [CallJudge jp; CallWriter rp]
           ∧ llm_judge ctx_judge_down h jp = Raise e
           ∧ PDict (judge q) = judge_error_report e
           ∧ wp_existing_cards rp = Some (jp_cards jp)
           ∧ wp_guidance rp
             = Some (s_not_covered ++ (s_judge_parse_error ++ exc_kind e)
                       ++ s_nl ++ s_refine_tail)
           ∧ refinement_applied q
             = Some (negb (is_empty (gen_answer
                             (llm_writer ctx_judge_down (h ++ [CallJudge jp]) rp))))).
Proof.
  exact (failed_validator_forces_refinement ctx_judge_down (u "intro.md") demo_text
           (u "Intro") world_intro (fun _ _ => eq_refl)).
Defined.

(** A synthesis with a validator that quotes what is not in the document,
    through X13. *)
Lemma unquoted_gaps_cause_no_rewrite_witness :
  ∃ cards q w',
    synthesize ctx_unquoted (u "intro.md") demo_text (u "Intro") world_intro
    = (Ok (cards, q), w')
    ∧ Forall (fun c => is_judge_call c = true ∨ plain_generation c)
             (drop (length (calls world_intro)) (calls w'))
    ∧ (q = placeholder_quality
       ∨ (py_truthy (dict_get (judge q) k_ok (PBool false)) = true
          ∧ judge q !! k_missing = Some (PList [])
          ∧ refinement_applied q = Some false
          ∧ refinement_error q = None
          ∧ ∃ jp, List.last (calls w') (CallJudge jp) = CallJudge jp
                  ∧ cards = jp_cards jp)).
Proof.
  apply (unquoted_gaps_cause_no_rewrite ctx_unquoted (u "intro.md") demo_text
           (u "Intro") world_intro).
  intros h p. exists verdict_unquoted. split; [reflexivity|].
  constructor; [vm_compute; reflexivity | constructor].
Defined.

(** The document of the demo corpus and its relative path, through X16. *)
Lemma origin_rel_round_trip_witness :
  _origin_rel ctx_acme md_intro world_intro = (Ok (u "intro.md"), world_intro)
  ∧ _resolve_origin ctx_acme (u "intro.md") world_intro = (Ok md_intro, world_intro).
Proof.
  assert (Hne : [u "intro.md"] ≠ []) by discriminate.
  assert (Hv : Forall valid_name [u "intro.md"]).
  { constructor; [|constructor].
    repeat split; apply (bool_decide_unpack _); vm_compute; exact I. }
  exact (origin_rel_round_trip ctx_acme world_intro [u "intro.md"] Hne Hv).
Defined.

(** Reading the demo document with a limit of five characters, through
    X21. *)
Lemma read_markdown_truncation_witness :
  ∃ r, kb_read_markdown (fun _ _ => []) ctx_acme (u "intro.md") 5 world_intro
       = (Ok r, world_intro)
       ∧ rd_path r = u "intro.md"
       ∧ (Z.of_nat (length (rd_content r)) ≤ 5 + 13)%Z.
Proof.
  assert (Hok : is_ok (fst (kb_read_markdown (fun _ _ => []) ctx_acme (u "intro.md") 5
                              world_intro)) = true)
    by (vm_compute; reflexivity).
  assert (Hw : snd (kb_read_markdown (fun _ _ => []) ctx_acme (u "intro.md") 5
                      world_intro) = world_intro)
    by (vm_compute; reflexivity).
  destruct (kb_read_markdown (fun _ _ => []) ctx_acme (u "intro.md") 5 world_intro)
    as [[r|e] w'] eqn:Hrun; [|discriminate Hok].
  cbn [snd] in Hw. subst w'. exists r. split; [reflexivity|].
  assert (Hpos : (0 ≤ 5)%Z) by lia.
  destruct (read_markdown_truncation (fun _ _ => []) ctx_acme (u "intro.md") 5
              world_intro world_intro r Hpos Hrun)
    as (Hpath & p & b & text & _ & _ & _ & _ & _ & _ & Hlen).
  split; [exact Hpath | exact Hlen].
Defined.

(** Three attempts against a model that cannot be reached, through X23. *)
Lemma llm_parse_transport_failure_witness :
  _llm_parse_pydantic chat_offline ustr parse_any (u "FORMAT") no_json (u "task") 3 []
  = (Raise (Exc (u "ConnectionError") []), [first_prompt (u "FORMAT") (u "task")]).
Proof.
  exact (llm_parse_transport_failure chat_offline ustr parse_any (u "FORMAT") no_json
           (u "task") 3 [] (Exc (u "ConnectionError") []) eq_refl eq_refl).
Defined.

(** Three attempts with a parser that refuses every answer, through X24. *)
Lemma llm_parse_exhaustion_witness :
  ∃ new last content e,
    snd (_llm_parse_pydantic chat_babble ustr parse_none (u "FORMAT") no_json (u "task") 3 [])
    = [] ++ new ++ [last]
    ∧ Z.of_nat (length (new ++ [last])) = 3%Z
    ∧ invoke chat_babble ([] ++ new) last = Ok content
    ∧ parse_answer ustr parse_none no_json (content_text content) = Raise e
    ∧ fst (_llm_parse_pydantic chat_babble ustr parse_none (u "FORMAT") no_json (u "task") 3 [])
      = Raise e.
Proof.
  exact (llm_parse_exhaustion chat_babble ustr parse_none (u "FORMAT") no_json
           (u "task") 3 [] eq_refl (fun _ _ => eq_refl) (fun _ => eq_refl)).
Defined.

(** The synthesis of [x.md] after that of [a_x.md], through X25: the card
    file of [a_x.md] matches [card_*_x.md] and is removed, and the coverage
    analysis then finds no card for [a_x.md]. *)
Lemma upsert_card_directory_witness :
  let w1 := snd (kb_upsert_cards_for_markdown ctx_acme (u "a_x.md") false world_ax) in
  let w2 := snd (kb_upsert_cards_for_markdown ctx_acme (u "x.md") false w1) in
  is_Some (cards_md w1 !! card_name_a_x)
  ∧ cards_md w2 !! card_name_a_x = None
  ∧ cards_of w2 (u "a_x.md") = [].
Proof.
  intros w1 w2.
  assert (H1 : is_Some (cards_md w1 !! card_name_a_x)).
  { assert (Hb : bool_decide (is_Some (cards_md w1 !! card_name_a_x)) = true)
      by (vm_compute; reflexivity).
    by apply bool_decide_eq_true in Hb. }
  split; [exact H1|].
  assert (Hok : is_ok (fst (kb_upsert_cards_for_markdown ctx_acme (u "x.md") false w1)) = true)
    by (vm_compute; reflexivity).
  assert (Hfiles : match fst (kb_upsert_cards_for_markdown ctx_acme (u "x.md") false w1) with
                   | Ok r => bool_decide (created_path ctx_acme card_name_a_x ∉ cards_md_files r)
                   | Raise _ => false
                   end = true)
    by (vm_compute; reflexivity).
  assert (Hcov : cards_of w2 (u "a_x.md") = []) by (vm_compute; reflexivity).
  split; [|exact Hcov].
  assert (Hg : glob_match card_name_a_x (card_pattern (path_stem (path_of_str (u "x.md"))))
               = true)
    by (vm_compute; reflexivity).
  assert (Hu : match cards_md w1 !! card_name_a_x with
               | Some n => unlink_fails n = false
               | None => True
               end).
  { assert (Hb : match cards_md w1 !! card_name_a_x with
                 | Some n => negb (unlink_fails n)
                 | None => true
                 end = true) by (vm_compute; reflexivity).
    destruct (cards_md w1 !! card_name_a_x); [by apply negb_true_iff | done]. }
  unfold w2.
  destruct (kb_upsert_cards_for_markdown ctx_acme (u "x.md") false w1)
    as [[r|e] w'] eqn:Hrun; [|discriminate Hok].
  cbn [fst snd] in *. apply bool_decide_eq_true in Hfiles.
  rewrite (upsert_card_directory ctx_acme (u "x.md") false w1 w' r Hrun _ Hfiles), Hg.
  destruct (cards_md w1 !! card_name_a_x) as [n|]; [|reflexivity].
  by rewrite Hu.
Defined.

(** The guidance for the report of the evidence example, through X27. *)
Lemma refine_guidance_quotes_witness :
  report_acme !! k_missing = Some (PList [item_zenith; item_acme; PStr (u "note")])
  ∧ str_in (u "note") (refine_guidance report_acme) = true
  ∧ ∃ pre, refine_guidance report_acme = pre ++ s_refine_tail.
Proof.
  assert (Hm : report_acme !! k_missing
               = Some (PList [item_zenith; item_acme; PStr (u "note")]))
    by (vm_compute; reflexivity).
  split; [exact Hm|].
  destruct (refine_guidance_quotes report_acme _ Hm) as (_ & Hs & Htail).
  split; [|exact Htail]. apply Hs. rewrite !elem_of_cons. auto.
Defined.

End Runs.
